(** * biorbd_optim: transcription of a multi-phase optimal-control problem

    Shallow embedding of [biorbd_optim/constraints.py] and of the constructor
    of [biorbd_optim/optimal_control_program.py], with the helpers that keep
    the phase dicts ([__add_to_nlp], [__init_penality],
    [_get_a_reduced_ocp], [load]).

    Python objects are mutated in place and an exception leaves every
    mutation done so far visible, so effectful code is written in a monad
    that threads the [OptimalControlProgram] object and, on [raise], returns
    the exception TOGETHER with the object as it stands at that point. *)

From Stdlib Require Import String ZArith QArith Bool Arith Lia List.
From Stdlib Require DecimalString.
Import ListNotations.

Set Implicit Arguments.

(* ===================================================================== *)
(** * Python values: exceptions, indexing, slicing, ranges                *)
(* ===================================================================== *)

Inductive exn : Type :=
| RuntimeError (msg : string)
| ValueError (msg : string)
| AttributeError (attr : string)
| IndexError
| KeyError (key : string)
| TypeError
| ZeroDivisionError.

Inductive result (A : Type) : Type :=
| Ok (a : A)
| Raise (e : exn).

Arguments Ok {A} a.
Arguments Raise {A} e.

(** Sequencing of pure, possibly failing evaluations. *)
Definition result_bind {A B} (r : result A) (k : A -> result B) : result B :=
  match r with
  | Ok a => k a
  | Raise e => Raise e
  end.

Notation "'let*' x := r 'in' k" := (result_bind r (fun x => k))
  (at level 10, x pattern, r at level 200, k at level 200).

(** [len(l)] as a Python int. *)
Definition len {A} (l : list A) : Z := Z.of_nat (length l).

(** [l[i]] for a Python list: a negative index counts from the end, an
    index outside [-len, len) raises IndexError. *)
Definition getitem {A} (l : list A) (i : Z) : result A :=
  let j := if (i <? 0)%Z then (i + len l)%Z else i in
  if (j <? 0)%Z then Raise IndexError
  else match nth_error l (Z.to_nat j) with
       | Some a => Ok a
       | None => Raise IndexError
       end.

(** How Python turns one bound of a slice into a position of [0..len]. *)
Definition slice_index (n i : Z) : Z :=
  if (i <? 0)%Z then Z.max 0 (i + n) else Z.min i n.

(** [l[start:stop]] (step 1): never raises, clamps both bounds. *)
Definition slice {A} (l : list A) (start stop : Z) : list A :=
  let a := slice_index (len l) start in
  let b := slice_index (len l) stop in
  firstn (Z.to_nat (b - a)) (skipn (Z.to_nat a) l).

(** [range(n)]; empty when [n <= 0]. *)
Definition range (n : Z) : list Z :=
  map Z.of_nat (seq 0 (Z.to_nat n)).

(** [l[i] = v] on a list held by index (used for [self.nlp[i]]). *)
Fixpoint setitem {A} (l : list A) (i : nat) (v : A) : list A :=
  match l, i with
  | [], _ => []
  | _ :: t, O => v :: t
  | h :: t, S i' => h :: setitem t i' v
  end.

(* ===================================================================== *)
(** * CasADi symbolic column vectors                                      *)
(* ===================================================================== *)

(** Names given to [MX.sym]: ["V_" + str(idx_phase)], [f"time_phase_{i}"],
    ["x"] and ["u"]. *)
Inductive SymName : Type :=
| V_ (idx_phase : nat)
| time_phase_ (i : nat)
| sym_x
| sym_u.

#[local] Set Warnings "-register-all".

(** One scalar entry of a symbolic expression.  [MXcall f i args k] is the
    [k]-th output entry of the external evaluator [f] (rigid-body model,
    integrator) applied to [args] with integer parameter [i]. *)
Inductive MX : Type :=
| MXsym (name : SymName) (k : nat)
| MXsub (a b : MX)
| MXscale (c : Q) (a : MX)
| MXdiv (a : MX) (d : Z)
| MXcall (f : string) (i : nat) (args : list MX) (k : nat).

(** A column vector is the list of its rows. *)
Definition Vec := list MX.

(** [MX.sym(name, n)] : a column of [n] fresh symbols. *)
Definition MX_sym (name : SymName) (n : nat) : Vec :=
  map (MXsym name) (seq 0 n).

(** [vertcat(a, b)]; the Python list [[]] is the empty column. *)
Definition vertcat (a b : Vec) : Vec := a ++ b.

(** Entrywise difference of two columns of the same height. *)
Fixpoint zip_sub (a b : Vec) : Vec :=
  match a, b with
  | x :: a', y :: b' => MXsub x y :: zip_sub a' b'
  | _, _ => []
  end.

(** [a - b] on columns: entrywise when the shapes agree, a 1x1 operand is
    broadcast, any other pair of shapes is refused by CasADi. *)
Definition minus (a b : Vec) : result Vec :=
  if (length a =? length b)%nat then Ok (zip_sub a b)
  else match a, b with
       | _, [y] => Ok (map (fun x => MXsub x y) a)
       | [x], _ => Ok (map (fun y => MXsub x y) b)
       | _, _ => Raise (RuntimeError "Dimension mismatch")
       end.

(** [v[start:stop]] on a column (and [v.nz[start:stop]]): CasADi's
    [Slice] counts a negative bound from the end and, unlike a Python
    list, refuses a slice that leaves the column. *)
Definition MX_slice (v : Vec) (start stop : Z) : result Vec :=
  let start := if (start <? 0)%Z then (start + len v)%Z else start in
  let stop := if (stop <? 0)%Z then (stop + len v)%Z else stop in
  if (len v <? stop)%Z || (start <? 0)%Z
  then Raise (RuntimeError "Slice out of bounds")
  else Ok (firstn (Z.to_nat (stop - start)) (skipn (Z.to_nat start) v)).

(** [v[i]] on a column: one entry, refused when out of range. *)
Definition entry (v : Vec) (i : nat) : result MX :=
  match nth_error v i with
  | Some e => Ok e
  | None => Raise (RuntimeError "Index out of bounds")
  end.

(* ===================================================================== *)
(** * Data model                                                          *)
(* ===================================================================== *)

(** [Constraint.Type] *)
Inductive ConstraintType : Type :=
| MARKERS_TO_PAIR
| PROPORTIONAL_Q
| PROPORTIONAL_CONTROL
| CONTACT_FORCE_GREATER_THAN.

(** [Constraint.Instant] *)
Inductive Instant : Type :=
| START
| MID
| INTERMEDIATES
| END
| ALL.

(** The policy payload [elem[2]]: a tuple of two indices, a triple
    [(i, j, coef)], or a tuple of such triples. *)
Inductive Policy : Type :=
| Pair (a b : nat)
| Triple (a b : nat) (coef : Q)
| Triples (l : list (nat * nat * Q)).

(** An entry [elem = (type, instant, policy)] of [nlp["constraints"]]. *)
Definition ConstraintElem : Type := (ConstraintType * Instant * Policy)%type.

(** [OdeSolver] members named by the source. *)
Inductive OdeSolver : Type := RK | COLLOCATION | CVODES.

(** A phase time: a Python number or a [casadi.MX] symbol. *)
Inductive Time : Type :=
| Num (t : Q)
| Sym (t : MX).

(** [isinstance(t, casadi.MX)] *)
Definition is_MX (t : Time) : bool :=
  match t with Sym _ => true | Num _ => false end.

(** [obj_fun["type"]], as far as the constructor looks at it. *)
Inductive ObjectiveType : Type :=
| Mayer_MINIMIZE_TIME
| Lagrange_MINIMIZE_TIME
| OtherObjective.

(** A bound value: a number or [math.inf]. *)
Inductive BoundValue : Type :=
| Finite (q : Q)
| inf.

(** An objective dict: ["type"] and the optional keys ["minimum"],
    ["maximum"]. *)
Record ObjFun : Type := mkObjFun {
  obj_type : ObjectiveType;
  obj_minimum : option BoundValue;
  obj_maximum : option BoundValue
}.

(** [nlp["dof_mapping"]]: the class lives outside these two files; the
    code reads [nb_reduced] and calls [expand]. *)
Record DofMapping : Type := mkDofMapping {
  nb_reduced : nat;
  expand : Vec -> Vec
}.

(** The object bound to [nlp["dynamics"]] by [__prepare_dynamics]. *)
Inductive Integrator : Type :=
| RK4 (tf : Time) (number_of_finite_elements : nat)
| casadi_integrator (plugin : string) (tf : Time)
    (number_of_finite_elements : option nat).

Module Bounds.
(** [Bounds()]: two parallel lists, [min] and [max]. *)
Record t : Type := mk { min : list Z; max : list Z }.
Definition empty : t := mk [] [].
End Bounds.

Module NLP.
(** The per-phase dict [nlp].  Keys written by the constructor before
    the passes modelled here are plain fields; the three evaluators are
    the external collaborators reached through the dict:
    [marker q i] is [nlp["model"].marker(q, i).to_mx()],
    [xf x0 p] is [nlp["dynamics"].call({"x0": x0, "p": p})["xf"]] and
    [get_forces_from_contact x u] is
    [Dynamics.get_forces_from_contact(x, u, nlp)]. *)
Record t : Type := mk {
  ns : nat;
  nx : nat;
  nu : nat;
  tf : Time;
  dt : Time;
  ode_solver : OdeSolver;
  constraints : list ConstraintElem;
  objective_functions : option (list ObjFun);
  dof_mapping : DofMapping;
  marker : Vec -> nat -> Vec;
  xf : Vec -> Vec -> Vec;
  get_forces_from_contact : Vec -> Vec -> Vec;
  X : list Vec;
  U : list Vec;
  dynamics : option Integrator
}.

Definition set_XU (p : t) (X' U' : list Vec) : t :=
  mk (ns p) (nx p) (nu p) (tf p) (dt p) (ode_solver p) (constraints p)
     (objective_functions p) (dof_mapping p) (marker p) (xf p)
     (get_forces_from_contact p)
     X' U' (dynamics p).

Definition set_dynamics (p : t) (d : Integrator) : t :=
  mk (ns p) (nx p) (nu p) (tf p) (dt p) (ode_solver p) (constraints p)
     (objective_functions p) (dof_mapping p) (marker p) (xf p)
     (get_forces_from_contact p)
     (X p) (U p) (Some d).
End NLP.

Module OCP.
(** The attributes of [OptimalControlProgram] that the modelled passes
    read or write.  An attribute not yet assigned ([V], [g], [g_bounds]
    before their first assignment) is shown empty. *)
Record t : Type := mk {
  nlp : list NLP.t;
  is_cyclic_constraint : bool;
  V : Vec;
  param_to_optimize_time : list MX;
  g : Vec;
  g_bounds : Bounds.t
}.
End OCP.

(* ===================================================================== *)
(** * The effect monad: object passing with exceptions                    *)
(* ===================================================================== *)

Definition Eff (A : Type) : Type := OCP.t -> result A * OCP.t.

Definition ret {A} (a : A) : Eff A := fun s => (Ok a, s).

Definition bind {A B} (m : Eff A) (k : A -> Eff B) : Eff B :=
  fun s => match m s with
           | (Ok a, s') => k a s'
           | (Raise e, s') => (Raise e, s')
           end.

Definition raise {A} (e : exn) : Eff A := fun s => (Raise e, s).

(** Evaluation of a pure, possibly failing expression. *)
Definition lift {A} (r : result A) : Eff A := fun s => (r, s).

Declare Scope eff_scope.
Delimit Scope eff_scope with eff.
Notation "x <- m ;; k" := (bind m (fun x => k))
  (at level 61, m at next level, right associativity) : eff_scope.
Notation "m ;; k" := (bind m (fun _ => k))
  (at level 61, right associativity) : eff_scope.
Open Scope eff_scope.

(** [for a in l: body(a)] *)
Fixpoint for_each {A} (l : list A) (body : A -> Eff unit) : Eff unit :=
  match l with
  | [] => ret tt
  | a :: l' => body a ;; for_each l' body
  end.

(** [ocp.g = vertcat(ocp.g, e)] *)
Definition g_vertcat (e : Vec) : Eff unit :=
  fun s => (Ok tt,
            OCP.mk (OCP.nlp s) (OCP.is_cyclic_constraint s) (OCP.V s)
                   (OCP.param_to_optimize_time s)
                   (vertcat (OCP.g s) e) (OCP.g_bounds s)).

(** [ocp.g_bounds.min.append(z)] *)
Definition g_bounds_min_append (z : Z) : Eff unit :=
  fun s => (Ok tt,
            OCP.mk (OCP.nlp s) (OCP.is_cyclic_constraint s) (OCP.V s)
                   (OCP.param_to_optimize_time s) (OCP.g s)
                   (Bounds.mk (Bounds.min (OCP.g_bounds s) ++ [z])
                              (Bounds.max (OCP.g_bounds s)))).

(** [ocp.g_bounds.max.append(z)] *)
Definition g_bounds_max_append (z : Z) : Eff unit :=
  fun s => (Ok tt,
            OCP.mk (OCP.nlp s) (OCP.is_cyclic_constraint s) (OCP.V s)
                   (OCP.param_to_optimize_time s) (OCP.g s)
                   (Bounds.mk (Bounds.min (OCP.g_bounds s))
                              (Bounds.max (OCP.g_bounds s) ++ [z]))).

(** The recurring loop
    [for _ in range(n): g_bounds.min.append(0); g_bounds.max.append(0)]. *)
Definition append_zero_bounds (n : Z) : Eff unit :=
  for_each (range n)
    (fun _ => g_bounds_min_append 0 ;; g_bounds_max_append 0).

(* ===================================================================== *)
(** * constraints.py                                                      *)
(* ===================================================================== *)

(** [policy[0]] and [policy[1]] where a marker index is expected: a tuple
    of tuples hands a tuple to [model.marker], which refuses it. *)
Definition marker_index (policy : Policy) (k : nat) : result nat :=
  match policy, k with
  | Pair a _, O | Triple a _ _, O => Ok a
  | Pair _ b, 1%nat | Triple _ b _, 1%nat => Ok b
  | Triples (_ :: _), O | Triples (_ :: _ :: _), 1%nat => Raise TypeError
  | _, _ => Raise IndexError
  end.

(** [Constraint.__markers_to_pair(ocp, nlp, X, policy)] *)
Definition markers_to_pair (nlp : NLP.t) (X : list Vec) (policy : Policy)
  : Eff unit :=
  let nq := nb_reduced (NLP.dof_mapping nlp) in
  for_each X (fun x =>
    x_q <- lift (MX_slice x 0 (Z.of_nat nq)) ;;
    let q := expand (NLP.dof_mapping nlp) x_q in
    i1 <- lift (marker_index policy 0) ;;
    let marker1 := NLP.marker nlp q i1 in
    i2 <- lift (marker_index policy 1) ;;
    let marker2 := NLP.marker nlp q i2 in
    d <- lift (minus marker1 marker2) ;;
    g_vertcat d ;;
    append_zero_bounds 3).

(** One pass of the inner loop of [__proportional_variable] for the triple
    [(a, b, coef)]: [v[a] - coef * v[b]] and its bound pair. *)
Definition proportional_row (nlp : NLP.t) (a b : nat) (coef : Q) (v : Vec)
  : Eff unit :=
  let v := expand (NLP.dof_mapping nlp) v in
  va <- lift (entry v a) ;;
  vb <- lift (entry v b) ;;
  g_vertcat [MXsub va (MXscale coef vb)] ;;
  g_bounds_min_append 0 ;;
  g_bounds_max_append 0.

(** [Constraint.__proportional_variable(ocp, nlp, V, policy)].
    [isinstance(policy[0], tuple)] holds for a tuple of triples; on an
    empty tuple [policy[0]] itself raises.  A pair has no [policy[2]]:
    the row expression raises after its left operand was evaluated. *)
Definition proportional_variable (nlp : NLP.t) (V : list Vec)
  (policy : Policy) : Eff unit :=
  match policy with
  | Triples [] => raise IndexError
  | Triples l =>
      for_each l (fun elem =>
        let '(a, b, coef) := elem in
        for_each V (proportional_row nlp a b coef))
  | Triple a b coef => for_each V (proportional_row nlp a b coef)
  | Pair a _ =>
      for_each V (fun v =>
        let v := expand (NLP.dof_mapping nlp) v in
        _ <- lift (entry v a) ;;
        raise IndexError)
  end.

(** [Constraint.__contact_force_inequality(ocp, nlp, X, U, policy)]: the
    forces are evaluated at every node with a control and the loop body
    ends there. *)
Definition contact_force_inequality (nlp : NLP.t) (X U : list Vec)
  (policy : Policy) : Eff unit :=
  for_each (range (len U)) (fun i =>
    x <- lift (getitem X i) ;;
    u <- lift (getitem U i) ;;
    let contact_forces := NLP.get_forces_from_contact nlp x u in
    ret tt).

(** [nlp.ns]: every [nlp] is one of the plain dicts made by
    [self.nlp = [{} for _ in range(self.nb_phases)]]; its entries are
    reached by subscript only, and the attribute lookup on a dict raises
    AttributeError. *)
Definition nlp_attribute_ns (nlp : NLP.t) : result Z :=
  Raise (AttributeError "ns").

(** The body of the loop of [Constraint.add_constraints] for one [elem]:
    the nodes [x], [u] chosen by [elem[1]], then the dispatch on
    [elem[0]]. *)
Definition add_constraints_elem (nlp : NLP.t) (elem : ConstraintElem)
  : Eff unit :=
  let '(type, instant, policy) := elem in
  let ns := Z.of_nat (NLP.ns nlp) in
  xu <- match instant with
        | START =>
            x0 <- lift (getitem (NLP.X nlp) 0) ;;
            u0 <- lift (getitem (NLP.U nlp) 0) ;;
            ret ([x0], [u0])
        | MID =>
            n <- lift (nlp_attribute_ns nlp) ;;
            if (n mod 2 =? 0)%Z
            then raise (ValueError
                          "Number of shooting points must be odd to use MID")
            else
              xm <- lift (getitem (NLP.X nlp) (ns / 2 + 1)) ;;
              um <- lift (getitem (NLP.U nlp) (ns / 2 + 1)) ;;
              ret ([xm], [um])
        | INTERMEDIATES =>
            ret (slice (NLP.X nlp) 1 (ns - 1), slice (NLP.U nlp) 1 (ns - 1))
        | END =>
            xe <- lift (getitem (NLP.X nlp) ns) ;;
            ret ([xe], [])
        | ALL => ret (NLP.X nlp, NLP.U nlp)
        end ;;
  let '(x, u) := xu in
  match type with
  | MARKERS_TO_PAIR => markers_to_pair nlp x policy
  | PROPORTIONAL_Q => proportional_variable nlp x policy
  | PROPORTIONAL_CONTROL =>
      match instant with
      | END =>
          raise (RuntimeError
            "A proportional control does not make sense at the last node (Instant.END)")
      | _ => proportional_variable nlp u policy
      end
  | CONTACT_FORCE_GREATER_THAN =>
      match instant with
      | END =>
          raise (RuntimeError
            "Instant.END is used even though there is no control u at last node")
      | _ => contact_force_inequality nlp x u policy
      end
  end.

(** [Constraint.add_constraints(ocp, nlp)] *)
Definition add_constraints (nlp : NLP.t) : Eff unit :=
  for_each (NLP.constraints nlp) (add_constraints_elem nlp).

(** [nlp["dynamics"]]: the key exists once [__prepare_dynamics] has set
    it. *)
Definition nlp_dynamics (nlp : NLP.t) : result Integrator :=
  match NLP.dynamics nlp with
  | Some d => Ok d
  | None => Raise (KeyError "dynamics")
  end.

(** [Constraint.continuity_constraint(ocp)] *)
Definition continuity_constraint : Eff unit :=
  fun ocp =>
  ((* Dynamics must be sound within phases *)
   for_each (OCP.nlp ocp) (fun nlp =>
     for_each (range (Z.of_nat (NLP.ns nlp))) (fun k =>
       _ <- lift (nlp_dynamics nlp) ;;
       x0 <- lift (getitem (NLP.X nlp) k) ;;
       p <- lift (getitem (NLP.U nlp) k) ;;
       let end_node := NLP.xf nlp x0 p in
       x1 <- lift (getitem (NLP.X nlp) (k + 1)) ;;
       d <- lift (minus end_node x1) ;;
       g_vertcat d ;;
       append_zero_bounds (Z.of_nat (NLP.nx nlp)))) ;;
   (* Dynamics must be continuous between phases *)
   for_each (range (len (OCP.nlp ocp) - 1)) (fun i =>
     nlp_i <- lift (getitem (OCP.nlp ocp) i) ;;
     nlp_j <- lift (getitem (OCP.nlp ocp) (i + 1)) ;;
     if negb (NLP.nx nlp_i =? NLP.nx nlp_j)%nat
     then raise (RuntimeError
                   "Phase constraints without same nx is not supported yet")
     else
       xl <- lift (getitem (NLP.X nlp_i) (-1)) ;;
       xr <- lift (getitem (NLP.X nlp_j) 0) ;;
       d <- lift (minus xl xr) ;;
       g_vertcat d ;;
       append_zero_bounds (Z.of_nat (NLP.nx nlp_i))) ;;
   if OCP.is_cyclic_constraint ocp
   then
     nlp_0 <- lift (getitem (OCP.nlp ocp) 0) ;;
     nlp_l <- lift (getitem (OCP.nlp ocp) (-1)) ;;
     if negb (NLP.nx nlp_0 =? NLP.nx nlp_l)%nat
     then raise (RuntimeError
                   "Cyclic constraint without same nx is not supported yet")
     else
       xl <- lift (getitem (NLP.X nlp_l) (-1)) ;;
       xr <- lift (getitem (NLP.X nlp_0) 0) ;;
       d <- lift (minus xl xr) ;;
       g_vertcat d ;;
       append_zero_bounds (Z.of_nat (NLP.nx nlp_0))
   else ret tt) ocp.

(* ===================================================================== *)
(** * optimal_control_program.py                                          *)
(* ===================================================================== *)

(** [self.V = v] *)
Definition set_V (v : Vec) : Eff unit :=
  fun s => (Ok tt,
            OCP.mk (OCP.nlp s) (OCP.is_cyclic_constraint s) v
                   (OCP.param_to_optimize_time s) (OCP.g s) (OCP.g_bounds s)).

(** [self.V = vertcat(self.V, v)] *)
Definition V_vertcat (v : Vec) : Eff unit :=
  fun s => set_V (vertcat (OCP.V s) v) s.

(** [self.param_to_optimize["time"] = P] *)
Definition set_param_to_optimize_time (P : list MX) : Eff unit :=
  fun s => (Ok tt,
            OCP.mk (OCP.nlp s) (OCP.is_cyclic_constraint s) (OCP.V s)
                   P (OCP.g s) (OCP.g_bounds s)).

(** [self.g = []] followed by [self.g_bounds = Bounds()] *)
Definition reset_g : Eff unit :=
  fun s => (Ok tt,
            OCP.mk (OCP.nlp s) (OCP.is_cyclic_constraint s) (OCP.V s)
                   (OCP.param_to_optimize_time s) [] Bounds.empty).

(** The dict [self.nlp[i]] is mutated in place by the constructor's
    helpers; here the helper hands back the dict as it leaves it and
    [store_nlp i] puts it back at its position. *)
Definition store_nlp (i : Z) (nlp' : NLP.t) : Eff unit :=
  fun s => (Ok tt,
            OCP.mk (setitem (OCP.nlp s) (Z.to_nat i) nlp')
                   (OCP.is_cyclic_constraint s) (OCP.V s)
                   (OCP.param_to_optimize_time s) (OCP.g s) (OCP.g_bounds s)).

(** [self.nlp[i]] *)
Definition load_nlp (i : Z) : Eff NLP.t :=
  fun s => lift (getitem (OCP.nlp s) i) s.

(** [a / b] with a Python int on the right: true division of numbers
    raises on a zero divisor; on a symbol it builds an expression. *)
Definition truediv (a : Time) (b : Z) : result Time :=
  match a with
  | Num q =>
      if (b =? 0)%Z then Raise ZeroDivisionError
      else Ok (Num (q / inject_Z b))
  | Sym e => Ok (Sym (MXdiv e b))
  end.

(** One entry of the list given for ["dt"] (constructor):
    [self.nlp[i]["tf"] / max(self.nlp[i]["ns"], 1)]. *)
Definition phase_dt (nlp : NLP.t) : result Time :=
  truediv (NLP.tf nlp) (Z.max (Z.of_nat (NLP.ns nlp)) 1).

(** The whole comprehension, left to right, stopping at the first
    exception. *)
Fixpoint dt_list (nlps : list NLP.t) : result (list Time) :=
  match nlps with
  | [] => Ok []
  | nlp :: rest =>
      let* d := phase_dt nlp in
      let* ds := dt_list rest in
      Ok (d :: ds)
  end.

(** [OptimalControlProgram.__prepare_dynamics(nlp)]: the dict with
    [nlp["dynamics"]] bound, or the exception.  Building the CasADi
    function and the integrator object is the collaborators' side. *)
Definition prepare_dynamics (nlp : NLP.t) : result NLP.t :=
  match NLP.ode_solver nlp with
  | RK => Ok (NLP.set_dynamics nlp (RK4 (NLP.dt nlp) 5))
  | COLLOCATION =>
      if is_MX (NLP.tf nlp)
      then Raise (RuntimeError
        "OdeSolver.COLLOCATION cannot be used while optimizing the time parameter")
      else Ok (NLP.set_dynamics nlp
                 (casadi_integrator "collocation" (NLP.dt nlp) (Some 5%nat)))
  | CVODES =>
      if is_MX (NLP.tf nlp)
      then Raise (RuntimeError
        "OdeSolver.CVODES cannot be used while optimizing the time parameter")
      else Ok (NLP.set_dynamics nlp
                 (casadi_integrator "cvodes" (NLP.dt nlp) None))
  end.

(** The loop [for k in range(nlp["ns"])] of
    [__define_multiple_shooting_nodes_per_phase] on its local variables
    [X], [U] and [offset]. *)
Fixpoint shooting_nodes (V : Vec) (nx nu : Z) (ks : list Z)
  (X U : list Vec) (offset : Z) : result (list Vec * list Vec * Z) :=
  match ks with
  | [] => Ok (X, U, offset)
  | _ :: ks' =>
      let* x := MX_slice V offset (offset + nx) in
      let X := X ++ [x] in
      let offset := (offset + nx)%Z in
      let* u := MX_slice V offset (offset + nu) in
      let U := U ++ [u] in
      let offset := (offset + nu)%Z in
      shooting_nodes V nx nu ks' X U offset
  end.

(** [nV = nlp["nx"] * (nlp["ns"] + 1) + nlp["nu"] * nlp["ns"]] *)
Definition nV (nlp : NLP.t) : nat :=
  NLP.nx nlp * (NLP.ns nlp + 1) + NLP.nu nlp * NLP.ns nlp.

(** [OptimalControlProgram.__define_multiple_shooting_nodes_per_phase]
    as far as the decision vector and the node handles go (the bound and
    initial-guess bookkeeping goes through [Bounds] and
    [InitialConditions], which are outside these files). *)
Definition define_multiple_shooting_nodes_per_phase (nlp : NLP.t)
  (idx_phase : nat) : Eff NLP.t :=
  let nx := Z.of_nat (NLP.nx nlp) in
  let nu := Z.of_nat (NLP.nu nlp) in
  let V := MX_sym (V_ idx_phase) (nV nlp) in
  nodes <- lift (shooting_nodes V nx nu (range (Z.of_nat (NLP.ns nlp)))
                   [] [] 0) ;;
  let '(X, U, offset) := nodes in
  x <- lift (MX_slice V offset (offset + nx)) ;;
  let X := X ++ [x] in
  V_vertcat V ;;
  ret (NLP.set_XU nlp X U).

(** [OptimalControlProgram.__define_variable_time], decision-vector part:
    the loop over the phases, threading the local list [P]. *)
Fixpoint variable_time_loop (nlps : list NLP.t) (P : list MX)
  : Eff (list MX) :=
  match nlps with
  | [] => ret P
  | nlp :: rest =>
      match NLP.tf nlp with
      | Sym tf =>
          V_vertcat [tf] ;;
          last <- (fun s => lift (getitem (OCP.V s) (-1)) s) ;;
          variable_time_loop rest (P ++ [last])
      | Num _ => variable_time_loop rest P
      end
  end.

(** [OptimalControlProgram.__define_variable_time], decision-vector
    part: the loop, then [self.param_to_optimize["time"] = P]. *)
Definition define_variable_time : Eff unit :=
  fun s =>
    (P <- variable_time_loop (OCP.nlp s) [] ;;
     set_param_to_optimize_time P) s.

(** The constructor, block "Variables and constraint for the optimization
    program" and "Declare the parameters to optimize".  The dicts of
    [self.nlp] arrive filled by the first half of [__init__]. *)
Definition init_variables : Eff unit :=
  fun self =>
  (let nb_phases := len (OCP.nlp self) in
   set_V [] ;;
   for_each (range nb_phases) (fun i =>
     nlp_i <- load_nlp i ;;
     nlp_i <- define_multiple_shooting_nodes_per_phase nlp_i (Z.to_nat i) ;;
     store_nlp i nlp_i) ;;
   set_param_to_optimize_time [] ;;
   define_variable_time) self.

(** The constructor, blocks "Define dynamic problem" and "Prepare
    constraints"; [constraints] is the constructor's argument, one list
    per phase.  The calls [ConstraintFunction.continuity_constraint] and
    [ConstraintFunction.add] reach [Constraint.continuity_constraint] and
    [Constraint.add_constraints] of constraints.py. *)
Definition init_dynamics_and_constraints
  (constraints : list (list ConstraintElem)) : Eff unit :=
  fun self =>
  (let nb_phases := len (OCP.nlp self) in
   (* self.symbolic_states = MX.sym("x", self.nlp[0]["nx"], 1) *)
   _ <- load_nlp 0 ;;
   for_each (range nb_phases) (fun i =>
     nlp_0 <- load_nlp 0 ;;
     nlp_i <- load_nlp i ;;
     if negb (NLP.nx nlp_0 =? NLP.nx nlp_i)%nat
        || negb (NLP.nu nlp_0 =? NLP.nu nlp_i)%nat
     then raise (RuntimeError
                   "Dynamics with different nx or nu is not supported yet")
     else
       nlp_i <- lift (prepare_dynamics nlp_i) ;;
       store_nlp i nlp_i) ;;
   reset_g ;;
   continuity_constraint ;;
   if (0 <? len constraints)%Z
   then for_each (range nb_phases) (fun i =>
          nlp_i <- load_nlp i ;;
          add_constraints nlp_i)
   else ret tt) self.

(** A constructor call seen from [self.V = []] on: the object starts
    with the phase dicts and the cyclic flag, nothing else assigned. *)
Definition construct (nlps : list NLP.t) (is_cyclic_constraint : bool)
  (constraints : list (list ConstraintElem)) : result unit * OCP.t :=
  (init_variables ;; init_dynamics_and_constraints constraints)
    (OCP.mk nlps is_cyclic_constraint [] [] [] Bounds.empty).

(** [obj_fun["type"] == Objective.Mayer.MINIMIZE_TIME or
     obj_fun["type"] == Objective.Lagrange.MINIMIZE_TIME] *)
Definition is_minimize_time (obj_fun : ObjFun) : bool :=
  match obj_type obj_fun with
  | Mayer_MINIMIZE_TIME | Lagrange_MINIMIZE_TIME => true
  | OtherObjective => false
  end.

(** The four lists handled by [__init_phase_time]. *)
Record PhaseTimes : Type := mkPhaseTimes {
  phase_time : list Time;
  initial_time_guess : list Time;
  time_min : list BoundValue;
  time_max : list BoundValue
}.

(** The inner loop of [__init_phase_time] over the objectives of phase
    [i]. *)
Fixpoint init_phase_time_objectives (i : nat) (objs : list ObjFun)
  (acc : PhaseTimes) : result PhaseTimes :=
  match objs with
  | [] => Ok acc
  | obj_fun :: rest =>
      if is_minimize_time obj_fun
      then let* t := getitem (phase_time acc) (Z.of_nat i) in
               init_phase_time_objectives i rest
                 (mkPhaseTimes
                    (setitem (phase_time acc) i
                       (Sym (MXsym (time_phase_ i) 0)))
                    (initial_time_guess acc ++ [t])
                    (time_min acc ++
                       [match obj_minimum obj_fun with
                        | Some m => m
                        | None => Finite 0
                        end])
                    (time_max acc ++
                       [match obj_maximum obj_fun with
                        | Some m => m
                        | None => inf
                        end]))
      else init_phase_time_objectives i rest acc
  end.

(** The outer loop [for i, nlp in enumerate(self.nlp)]. *)
Fixpoint init_phase_time_phases (i : nat) (nlps : list NLP.t)
  (acc : PhaseTimes) : result PhaseTimes :=
  match nlps with
  | [] => Ok acc
  | nlp :: rest =>
      match NLP.objective_functions nlp with
      | None => init_phase_time_phases (S i) rest acc
      | Some objs =>
          let* acc' := init_phase_time_objectives i objs acc in
          init_phase_time_phases (S i) rest acc'
      end
  end.

(** [OptimalControlProgram.__init_phase_time(phase_time)], the argument
    already a list. *)
Definition init_phase_time (nlps : list NLP.t) (phase_time : list Time)
  : result PhaseTimes :=
  init_phase_time_phases 0 nlps (mkPhaseTimes phase_time [] [] []).

(* ===================================================================== *)
(** * Properties of an object: predicates and reference row lists         *)
(* ===================================================================== *)

(** The constraint vector and both bound lists have the same length. *)
Definition lockstep (s : OCP.t) : Prop :=
  length (OCP.g s) = length (Bounds.min (OCP.g_bounds s)) /\
  length (OCP.g s) = length (Bounds.max (OCP.g_bounds s)).

(** The effectful code [m] keeps the property [P] of the object, whether
    it returns or raises. *)
Definition preserves (P : OCP.t -> Prop) {A} (m : Eff A) : Prop :=
  forall s, P s -> P (snd (m s)).

(** The object after the rows [rows] are appended to [g], each with the
    bound pair [(0, 0)]. *)
Definition emit (rows : Vec) (s : OCP.t) : OCP.t :=
  OCP.mk (OCP.nlp s) (OCP.is_cyclic_constraint s) (OCP.V s)
         (OCP.param_to_optimize_time s)
         (OCP.g s ++ rows)
         (Bounds.mk
            (Bounds.min (OCP.g_bounds s) ++ repeat 0%Z (length rows))
            (Bounds.max (OCP.g_bounds s) ++ repeat 0%Z (length rows))).

(** Contracts of the external collaborators reached through a phase:
    a marker position has three coordinates, the integrator returns a
    state. *)
Definition marker_3d (nlp : NLP.t) : Prop :=
  forall q i, length (NLP.marker nlp q i) = 3%nat.

(** The end state returned by the integrator has [nx] rows. *)
Definition xf_is_state (nlp : NLP.t) : Prop :=
  forall x0 p, length (NLP.xf nlp x0 p) = NLP.nx nlp.

(** The shapes the row expressions of a phase rely on: both contracts,
    and state nodes of [nx] rows each. *)
Definition phase_shapes (nlp : NLP.t) : Prop :=
  marker_3d nlp /\ xf_is_state nlp /\
  Forall (fun x => length x = NLP.nx nlp) (NLP.X nlp).

(** In lockstep, and every phase with the shapes its rows rely on. *)
Definition lockstep_and_shapes (s : OCP.t) : Prop :=
  lockstep s /\ Forall phase_shapes (OCP.nlp s).

(** What [__define_multiple_shooting_nodes_per_phase] leaves in the
    dict: [ns + 1] states of [nx] rows and [ns] controls. *)
Definition nodes_laid_out (nlp : NLP.t) : Prop :=
  length (NLP.X nlp) = S (NLP.ns nlp) /\
  length (NLP.U nlp) = NLP.ns nlp /\
  Forall (fun x => length x = NLP.nx nlp) (NLP.X nlp).

(** A phase as the continuity pass meets it in the constructor. *)
Definition phase_ready (nlp : NLP.t) : Prop :=
  nodes_laid_out nlp /\ xf_is_state nlp /\ NLP.dynamics nlp <> None.

(** Reference row lists of the continuity pass, after the specification:
    one block per shooting interval, one per pair of adjacent phases, one
    for the cyclic closure. *)
Definition interval_rows (nlp : NLP.t) (k : nat) : Vec :=
  zip_sub (NLP.xf nlp (nth k (NLP.X nlp) []) (nth k (NLP.U nlp) []))
          (nth (S k) (NLP.X nlp) []).

(** The rows of one phase: its [ns] intervals in order. *)
Definition phase_rows (nlp : NLP.t) : Vec :=
  flat_map (interval_rows nlp) (seq 0 (NLP.ns nlp)).

(** All intra-phase rows, phase by phase. *)
Definition intra_phase_rows (nlps : list NLP.t) : Vec :=
  flat_map phase_rows nlps.

(** Final state of [a] against initial state of [b]. *)
Definition boundary_rows (a b : NLP.t) : Vec :=
  zip_sub (last (NLP.X a) []) (hd [] (NLP.X b)).

(** One boundary block per pair of adjacent phases, in phase order. *)
Fixpoint inter_phase_rows (nlps : list NLP.t) : Vec :=
  match nlps with
  | a :: (b :: _) as rest => boundary_rows a b ++ inter_phase_rows rest
  | _ => []
  end.

(** The cyclic closure: final state of the last phase against initial
    state of the first, when the flag is set. *)
Definition cyclic_rows (is_cyclic : bool) (nlps : list NLP.t) : Vec :=
  if is_cyclic
  then match nlps with
       | first :: _ => boundary_rows (last nlps first) first
       | [] => []
       end
  else [].

(** Reference rows of a coincidence constraint: three per node, on the
    expanded coordinates. *)
Definition coincidence_rows (nlp : NLP.t) (a b : nat) (X : list Vec) : Vec :=
  flat_map (fun x =>
    let q := expand (NLP.dof_mapping nlp)
               (firstn (nb_reduced (NLP.dof_mapping nlp)) x) in
    zip_sub (NLP.marker nlp q a) (NLP.marker nlp q b)) X.

(** The blocks of a phase inside its part [V] of the decision vector,
    after the specification: [(state_0, control_0, ..., state_ns)], a
    state taking [nx] entries and a control [nu]. *)
Definition state_block (V : Vec) (nx nu k : nat) : Vec :=
  firstn nx (skipn (k * (nx + nu)) V).

(** The control of node [k] follows its state. *)
Definition control_block (V : Vec) (nx nu k : nat) : Vec :=
  firstn nu (skipn (k * (nx + nu) + nx) V).

(** The dict of phase [idx_phase] as the layout pass leaves it. *)
Definition laid_out (nlp : NLP.t) (idx_phase : nat) : NLP.t :=
  let V := MX_sym (V_ idx_phase) (nV nlp) in
  NLP.set_XU nlp
    (map (state_block V (NLP.nx nlp) (NLP.nu nlp)) (seq 0 (S (NLP.ns nlp))))
    (map (control_block V (NLP.nx nlp) (NLP.nu nlp)) (seq 0 (NLP.ns nlp))).

(** All phases laid out, the first one being phase number [from]. *)
Fixpoint layout_all (from : nat) (nlps : list NLP.t) : list NLP.t :=
  match nlps with
  | [] => []
  | nlp :: rest => laid_out nlp from :: layout_all (S from) rest
  end.

(** The per-phase blocks of the decision vector, in phase order. *)
Fixpoint decision_blocks (from : nat) (nlps : list NLP.t) : Vec :=
  match nlps with
  | [] => []
  | nlp :: rest =>
      MX_sym (V_ from) (nV nlp) ++ decision_blocks (S from) rest
  end.

(** The free time parameters, in phase order. *)
Definition free_times (nlps : list NLP.t) : list MX :=
  flat_map (fun nlp => match NLP.tf nlp with
                       | Sym t => [t]
                       | Num _ => []
                       end) nlps.

(** The fields of a phase dict that the constructor only reads: [ns],
    [nx], [nu], whether [tf] is symbolic, and [ode_solver]. *)
Definition Statics : Type := (nat * nat * nat * bool * OdeSolver)%type.

(** The static fields of a phase. *)
Definition static_fields (nlp : NLP.t) : Statics :=
  (NLP.ns nlp, NLP.nx nlp, NLP.nu nlp, is_MX (NLP.tf nlp),
   NLP.ode_solver nlp).

(** What the dynamics loop of the constructor refuses in a phase, given
    the static fields of phase 0 and of the phase: other sizes than
    phase 0, or a free duration with collocation or CVODES. *)
Definition refused (first p : Statics) : bool :=
  let '(_, nx0, nu0, _, _) := first in
  let '(_, nx, nu, free, solver) := p in
  negb (nx0 =? nx)%nat || negb (nu0 =? nu)%nat
  || (free && match solver with RK => false | _ => true end).

(** The object between [self.V = []] and [self.g = []]: no constraint
    row, no bound, and the static fields of the phases as given. *)
Definition before_constraints (statics : list Statics) (s : OCP.t)
  : Prop :=
  map static_fields (OCP.nlp s) = statics /\
  OCP.g s = [] /\ OCP.g_bounds s = Bounds.empty.

(** A phase asks for a free duration: one of its objectives is
    MINIMIZE_TIME. *)
Definition minimizes_time (nlp : NLP.t) : bool :=
  match NLP.objective_functions nlp with
  | Some objs => existsb is_minimize_time objs
  | None => false
  end.



(** Node indices [1 .. ns-1]: every node but the first and the last. *)
Definition intermediate_nodes_spec (ns : nat) : list nat :=
  seq 1 (ns - 1).

(** [duration / ns], the step length as the specification words it. *)
Definition dt_spec (nlp : NLP.t) : result Time :=
  truediv (NLP.tf nlp) (Z.of_nat (NLP.ns nlp)).

(** Number of phases whose duration is a free time parameter. *)
Definition nb_free_times (nlps : list NLP.t) : nat :=
  length (filter (fun nlp => is_MX (NLP.tf nlp)) nlps).

(** [sum_over_phases(nx*(ns+1) + nu*ns)] *)
Definition sum_nV (nlps : list NLP.t) : nat :=
  list_sum (map nV nlps).

(* ===================================================================== *)
(** * Sample collaborators and phases                                     *)
(* ===================================================================== *)

(** A phase whose collaborators are opaque calls: identity dof mapping,
    a marker evaluator with three outputs, an integrator with [nx]
    outputs, a contact-force evaluator with one output; [X], [U] and
    [dynamics] not yet set. *)
Definition sample_phase (ns nx nu : nat) (tf : Time) (solver : OdeSolver)
  (cs : list ConstraintElem) : NLP.t :=
  NLP.mk ns nx nu tf
    (match truediv tf (Z.max (Z.of_nat ns) 1) with
     | Ok dt => dt
     | Raise _ => tf
     end)
    solver cs None
    (mkDofMapping nx (fun v => v))
    (fun q i => map (MXcall "marker" i q) [0; 1; 2]%nat)
    (fun x u => map (MXcall "xf" 0 (x ++ u)) (seq 0 nx))
    (fun x u => [MXcall "contact_forces" 0 (x ++ u) 0])
    [] [] None.

(** The same phase after the layout pass and with RK4 dynamics bound,
    read off a constructor run on that single phase. *)
Definition sample_built (ns nx nu : nat) (cs : list ConstraintElem)
  : NLP.t :=
  let p := sample_phase ns nx nu (Num 1) RK cs in
  match OCP.nlp (snd (construct [p] false [])) with
  | built :: _ => built
  | [] => p
  end.

(** An object holding the given phases, constraint vector empty. *)
Definition sample_ocp (nlps : list NLP.t) (is_cyclic : bool) : OCP.t :=
  OCP.mk nlps is_cyclic [] [] [] Bounds.empty.

(** Built phases used as inputs below, written out in full:
    [ns, nx, nu] are [2, 2, 1], [3, 2, 1], [2, 3, 1] and [11, 2, 1]. *)
Definition phase_2_2_1 : NLP.t :=
  Eval vm_compute in sample_built 2 2 1 [].

Definition phase_3_2_1 : NLP.t :=
  Eval vm_compute in sample_built 3 2 1 [].

Definition phase_2_3_1 : NLP.t :=
  Eval vm_compute in sample_built 2 3 1 [].

Definition phase_mid : NLP.t :=
  Eval vm_compute in
    sample_built 11 2 1 [(MARKERS_TO_PAIR, MID, Pair 0 1)].

Definition phase_contact : NLP.t :=
  Eval vm_compute in
    sample_built 2 2 1 [(CONTACT_FORCE_GREATER_THAN, ALL, Pair 0 0)].

(* ===================================================================== *)
(** * Reference values for [__init_phase_time]                            *)
(* ===================================================================== *)

(** [casadi.MX.sym(f"time_phase_{i}", 1, 1)] *)
Definition time_symbol (i : nat) : Time := Sym (MXsym (time_phase_ i) 0).

(** The MINIMIZE_TIME objectives of a phase, in the order given. *)
Definition time_objectives (nlp : NLP.t) : list ObjFun :=
  match NLP.objective_functions nlp with
  | Some objs => filter is_minimize_time objs
  | None => []
  end.

(** [obj_fun["minimum"] if "minimum" in obj_fun else 0] *)
Definition minimum_or_0 (obj_fun : ObjFun) : BoundValue :=
  match obj_minimum obj_fun with Some m => m | None => Finite 0 end.

(** [obj_fun["maximum"] if "maximum" in obj_fun else inf] *)
Definition maximum_or_inf (obj_fun : ObjFun) : BoundValue :=
  match obj_maximum obj_fun with Some m => m | None => inf end.

(** The phase times, phase [i] first: a phase with a MINIMIZE_TIME
    objective gets its symbol, the others keep the time given. *)
Fixpoint freed_times (i : nat) (nlps : list NLP.t) (times : list Time)
  : list Time :=
  match nlps, times with
  | nlp :: nlps', t :: times' =>
      (if minimizes_time nlp then time_symbol i else t)
      :: freed_times (S i) nlps' times'
  | _, _ => times
  end.

(** The initial guesses recorded for phase [i] whose given time is [t]:
    one per MINIMIZE_TIME objective; the first is [t], and any further
    one reads the entry the first has already replaced by the symbol. *)
Definition phase_guesses (i : nat) (t : Time) (nlp : NLP.t) : list Time :=
  match time_objectives nlp with
  | [] => []
  | _ :: more => t :: map (fun _ => time_symbol i) more
  end.

Fixpoint time_guesses (i : nat) (nlps : list NLP.t) (times : list Time)
  : list Time :=
  match nlps, times with
  | nlp :: nlps', t :: times' =>
      phase_guesses i t nlp ++ time_guesses (S i) nlps' times'
  | _, _ => []
  end.

(** A sample phase with the given objectives. *)
Definition sample_with_objectives (objs : list ObjFun) : NLP.t :=
  let p := sample_phase 2 2 1 (Num 1) RK [] in
  NLP.mk (NLP.ns p) (NLP.nx p) (NLP.nu p) (NLP.tf p) (NLP.dt p)
         (NLP.ode_solver p) (NLP.constraints p) (Some objs)
         (NLP.dof_mapping p) (NLP.marker p) (NLP.xf p)
         (NLP.get_forces_from_contact p) (NLP.X p) (NLP.U p)
         (NLP.dynamics p).

(* ===================================================================== *)
(** * Reference rows of a proportional constraint                         *)
(* ===================================================================== *)

(** The row of the triple [(a, b, coef)] at the node [v]:
    [v[a] - coef * v[b]] on the expanded node. *)
Definition proportional_row_of (nlp : NLP.t) (triple : nat * nat * Q)
  (v : Vec) : Vec :=
  let '(a, b, coef) := triple in
  let v := expand (NLP.dof_mapping nlp) v in
  match nth_error v a, nth_error v b with
  | Some va, Some vb => [MXsub va (MXscale coef vb)]
  | _, _ => []
  end.

(** All rows: triple by triple, and for each triple node by node. *)
Definition proportional_rows (nlp : NLP.t) (triples : list (nat * nat * Q))
  (V : list Vec) : Vec :=
  flat_map (fun triple => flat_map (proportional_row_of nlp triple) V)
           triples.

(** Both indices of every triple exist in every expanded node. *)
Definition indices_in_range (nlp : NLP.t) (triples : list (nat * nat * Q))
  (V : list Vec) : Prop :=
  Forall (fun v =>
    Forall (fun triple : nat * nat * Q =>
      (fst (fst triple) < length (expand (NLP.dof_mapping nlp) v))%nat /\
      (snd (fst triple) < length (expand (NLP.dof_mapping nlp) v))%nat)
      triples) V.

(** The constraint kinds that act on the controls of the chosen nodes. *)
Definition needs_control (type : ConstraintType) : bool :=
  match type with
  | PROPORTIONAL_CONTROL | CONTACT_FORCE_GREATER_THAN => true
  | MARKERS_TO_PAIR | PROPORTIONAL_Q => false
  end.


(** A built phase with three constraints, the second a proportional
    control at the last node; and a built phase without shooting
    interval. *)
Definition phase_end_control : NLP.t :=
  Eval vm_compute in
    sample_built 2 2 1 [(MARKERS_TO_PAIR, ALL, Pair 0 1);
                        (PROPORTIONAL_CONTROL, END, Triple 0 0 1);
                        (MARKERS_TO_PAIR, START, Pair 0 1)].

Definition phase_0_2_1 : NLP.t :=
  Eval vm_compute in sample_built 0 2 1 [].


(** The two RuntimeErrors [continuity_constraint] names in its text. *)
Definition phase_nx_error : exn :=
  RuntimeError "Phase constraints without same nx is not supported yet".

Definition cyclic_nx_error : exn :=
  RuntimeError "Cyclic constraint without same nx is not supported yet".



(* ===================================================================== *)
(** * The phase dicts as the bookkeeping helpers see them                 *)
(* ===================================================================== *)

(** The helpers [__add_to_nlp], [__init_penality], [_get_a_reduced_ocp]
    and [load] store, move and delete values without looking inside them
    further than [len], [[0]] and [isinstance].  A value is modelled that
    far: an object carries the names of its class and of the bases of
    that class, and an identity; it has neither a length nor items. *)
Inductive pyval : Type :=
| PyNone
| PyInt (z : Z)
| PyStr (s : string)
| PyList (l : list pyval)
| PyTuple (l : list pyval)
| PyDict (d : list (string * pyval))
| PyObj (classes : list string) (id : nat).

(** A dict with string keys, in insertion order. *)
Definition dict : Type := list (string * pyval).

Fixpoint dict_get (d : dict) (k : string) : option pyval :=
  match d with
  | [] => None
  | (k', v) :: d' => if String.eqb k' k then Some v else dict_get d' k
  end.

(** [k in d] *)
Definition dict_contains (d : dict) (k : string) : bool :=
  match dict_get d k with Some _ => true | None => false end.

(** [d[k]] *)
Definition dict_getitem (d : dict) (k : string) : result pyval :=
  match dict_get d k with
  | Some v => Ok v
  | None => Raise (KeyError k)
  end.

(** [d[k] = v]: the value of an existing key is replaced where it is, a
    new key goes to the end. *)
Fixpoint dict_setitem (d : dict) (k : string) (v : pyval) : dict :=
  match d with
  | [] => [(k, v)]
  | (k', v') :: d' =>
      if String.eqb k' k then (k', v) :: d'
      else (k', v') :: dict_setitem d' k v
  end.

(** [del d[k]] *)
Fixpoint dict_delitem (d : dict) (k : string) : result dict :=
  match d with
  | [] => Raise (KeyError k)
  | (k', v') :: d' =>
      if String.eqb k' k then Ok d'
      else result_bind (dict_delitem d' k) (fun r => Ok ((k', v') :: r))
  end.

(** [isinstance(v, (list, tuple))], with the elements. *)
Definition as_sequence (v : pyval) : option (list pyval) :=
  match v with
  | PyList l | PyTuple l => Some l
  | _ => None
  end.

(** [isinstance(v, dict)] *)
Definition is_dict (v : pyval) : bool :=
  match v with PyDict _ => true | _ => false end.

(** [isinstance(v, cls)] for a class [cls] of the package. *)
Definition isinstance (v : pyval) (cls : string) : bool :=
  match v with
  | PyObj classes _ => existsb (String.eqb cls) classes
  | _ => false
  end.

(** [v is None] *)
Definition is_None (v : pyval) : bool :=
  match v with PyNone => true | _ => false end.

(** [len(v)] *)
Definition py_len (v : pyval) : result Z :=
  match v with
  | PyStr s => Ok (Z.of_nat (String.length s))
  | PyList l | PyTuple l => Ok (len l)
  | PyDict d => Ok (len d)
  | PyNone | PyInt _ | PyObj _ _ => Raise TypeError
  end.

(** [v[0]]; the keys of a dict are strings, so the key [0] is in none. *)
Definition py_first (v : pyval) : result pyval :=
  match v with
  | PyStr s =>
      match s with
      | String c _ => Ok (PyStr (String c EmptyString))
      | EmptyString => Raise IndexError
      end
  | PyList l | PyTuple l => getitem l 0
  | PyDict _ => Raise (KeyError "0")
  | PyNone | PyInt _ | PyObj _ _ => Raise TypeError
  end.

(** [str(n)] for a non-negative int. *)
Definition str_of_nat (n : nat) : string :=
  DecimalString.NilEmpty.string_of_uint (Nat.to_uint n).

(** [str(cls)] for a class. *)
Definition str_of_class (cls : string) : string :=
  ("<class '" ++ cls ++ "'>")%string.

Module Raw.
(** The object as the helpers see it: [nb_phases], the list [nlp] of
    phase dicts, and the other instance attributes by name. *)
Record t : Type := mk {
  nb_phases : nat;
  nlp : list dict;
  attrs : dict
}.
End Raw.

(** Code acting on a state of type [S], as [Eff] does on the object of
    the constraint passes: a raise hands back the state as it stands. *)
Definition St (S A : Type) : Type := S -> result A * S.

Definition st_ret {S A} (a : A) : St S A := fun s => (Ok a, s).

Definition st_bind {S A B} (m : St S A) (k : A -> St S B) : St S B :=
  fun s => match m s with
           | (Ok a, s') => k a s'
           | (Raise e, s') => (Raise e, s')
           end.

Definition st_raise {S A} (e : exn) : St S A := fun s => (Raise e, s).

Definition st_lift {S A} (r : result A) : St S A := fun s => (r, s).

Declare Scope st_scope.
Delimit Scope st_scope with st.
Notation "x <- m ;; k" := (st_bind m (fun x => k))
  (at level 61, m at next level, right associativity) : st_scope.
Notation "m ;; k" := (st_bind m (fun _ => k))
  (at level 61, right associativity) : st_scope.

Fixpoint st_for_each {S A} (l : list A) (body : A -> St S unit)
  : St S unit :=
  match l with
  | [] => st_ret tt
  | a :: l' => st_bind (body a) (fun _ => st_for_each l' body)
  end.

(** [self.nlp[i][key] = v] *)
Definition nlp_setitem (i : Z) (key : string) (v : pyval) : St Raw.t unit :=
  fun self =>
    match getitem (Raw.nlp self) i with
    | Ok d =>
        (Ok tt,
         Raw.mk (Raw.nb_phases self)
                (setitem (Raw.nlp self) (Z.to_nat i) (dict_setitem d key v))
                (Raw.attrs self))
    | Raise e => (Raise e, self)
    end.

(** [del self.nlp[i][key]] *)
Definition nlp_delitem (i : Z) (key : string) : St Raw.t unit :=
  fun self =>
    match getitem (Raw.nlp self) i with
    | Ok d =>
        match dict_delitem d key with
        | Ok d' =>
            (Ok tt,
             Raw.mk (Raw.nb_phases self)
                    (setitem (Raw.nlp self) (Z.to_nat i) d')
                    (Raw.attrs self))
        | Raise e => (Raise e, self)
        end
    | Raise e => (Raise e, self)
    end.

(** [self.nlp[i][key]] *)
Definition nlp_getitem (i : Z) (key : string) : St Raw.t pyval :=
  fun self =>
    (result_bind (getitem (Raw.nlp self) i) (fun d => dict_getitem d key),
     self).

(** [OptimalControlProgram.__add_to_nlp(param_name, param,
    duplicate_if_size_is_one, _type)]; [_type] is [None] or a class. *)
Definition add_to_nlp (param_name : string) (param : pyval)
  (duplicate_if_size_is_one : bool) (_type : option string)
  : St Raw.t unit :=
  fun self =>
  (let nb_phases := Raw.nb_phases self in
   (match as_sequence param with
    | Some elems =>
        if negb (len elems =? Z.of_nat nb_phases)%Z
        then st_raise (RuntimeError
               (param_name ++ " size(" ++ str_of_nat (length elems)
                ++ ") does not correspond to the number of phases("
                ++ str_of_nat nb_phases ++ ")."))
        else
          st_for_each (range (Z.of_nat nb_phases)) (fun i =>
            v <- st_lift (getitem elems i) ;;
            nlp_setitem i param_name v)
    | None =>
        if (nb_phases =? 1)%nat
        then nlp_setitem 0 param_name param
        else if duplicate_if_size_is_one
        then st_for_each (range (Z.of_nat nb_phases)) (fun i =>
               nlp_setitem i param_name param)
        else st_raise (RuntimeError
               (param_name ++
                " must be a list or tuple when number of phase is not equal to 1"))
    end) ;;
   match _type with
   | Some cls =>
       fun self' =>
         st_for_each (Raw.nlp self') (fun nlp =>
           v <- st_lift (dict_getitem nlp param_name) ;;
           if negb (is_None v) && negb (isinstance v cls)
           then st_raise (RuntimeError
                  ("Parameter " ++ param_name ++ " must be a "
                   ++ str_of_class cls))
           else st_ret tt) self'
   | None => st_ret tt
   end)%st%string self.

(** [OptimalControlProgram.__init_penality(penalities, penality_type)] *)
Definition init_penality (penalities : pyval) (penality_type : string)
  : St Raw.t unit :=
  fun self =>
  (n <- st_lift (py_len penalities) ;;
   if (0 <? n)%Z
   then
     penalities <-
       (if (Raw.nb_phases self =? 1)%nat
        then
          let penalities :=
            if is_dict penalities then PyTuple [penalities]
            else penalities in
          first <- st_lift (py_first penalities) ;;
          st_ret (if is_dict first then PyTuple [penalities]
                  else penalities)
        else
          match as_sequence penalities with
          | Some elems =>
              st_for_each elems (fun constraint =>
                if is_dict constraint
                then st_raise (RuntimeError
                       ("Each phase must declares its " ++ penality_type
                        ++ " (even if it is empty)"))
                else st_ret tt) ;;
              st_ret penalities
          | None => st_ret penalities
          end) ;;
     add_to_nlp penality_type penalities false None
   else st_ret tt)%st%string self.

(** [[nlp["tf"] for i, nlp in enumerate(nlps, i) if i != last]] *)
Fixpoint tf_of_all_but (last i : Z) (nlps : list dict)
  : result (list pyval) :=
  match nlps with
  | [] => Ok []
  | nlp :: nlps' =>
      if negb (i =? last)%Z
      then result_bind (dict_getitem nlp "tf") (fun tf =>
           result_bind (tf_of_all_but last (i + 1) nlps') (fun rest =>
           Ok (tf :: rest)))
      else tf_of_all_but last (i + 1) nlps'
  end.

(** [[0] + [nlp["tf"] for i, nlp in enumerate(self.nlp)
            if i != len(self.nlp) - 1]] *)
Definition t0_list : St Raw.t pyval :=
  fun self =>
    st_lift (result_bind
               (tf_of_all_but (len (Raw.nlp self) - 1) 0 (Raw.nlp self))
               (fun tfs => Ok (PyList (PyInt 0 :: tfs)))) self.

(** [self.__add_to_nlp("t0", [0] + [...], False)], line 88 of the
    constructor. *)
Definition add_t0 : St Raw.t unit :=
  (t0 <- t0_list ;; add_to_nlp "t0" t0 false None)%st.

(** [del obj.name] on the attributes of an object. *)
Definition delattr (attrs : dict) (name : string) : result dict :=
  match dict_delitem attrs name with
  | Ok attrs' => Ok attrs'
  | Raise _ => Raise (AttributeError name)
  end.

(** The attributes [_get_a_reduced_ocp] deletes from the copy, in the
    order of the [del] statement, and the keys it deletes from every
    phase dict. *)
Definition reduced_attributes : list string :=
  ["J"; "V"; "V_bounds"; "V_init"; "g"; "g_bounds";
   "show_online_optim_callback"; "symbolic_controls";
   "symbolic_states"]%string.

Definition reduced_keys : list string :=
  ["model"; "x"; "u"; "X"; "U"; "f_ext"]%string.

(** [OptimalControlProgram._get_a_reduced_ocp(self)].  [copy(self)] is a
    shallow copy: the copy has its own attributes, and its attribute
    [nlp] is the list of [self], holding the dicts of [self].  The run
    acts on [self]; the value returned is the copy, whose phase dicts are
    those of [self] after the run. *)
Definition get_a_reduced_ocp : St Raw.t Raw.t :=
  fun self =>
  (attrs <- st_lift
     (fold_left (fun r name => result_bind r (fun a => delattr a name))
                reduced_attributes (Ok (Raw.attrs self))) ;;
   st_for_each (range (len (Raw.nlp self))) (fun i =>
     nlp_setitem i "f_ext" (PyInt 0) ;;
     st_for_each reduced_keys (nlp_delitem i)) ;;
   fun self' =>
     (Ok (Raw.mk (Raw.nb_phases self') (Raw.nlp self') attrs), self'))%st
  self.

(** [OptimalControlProgram.load(biorbd_model_path, name)] from the
    unpickled [ocp] on; [MX_sym_1 name n] is [MX.sym(name, n, 1)] and
    [Model path] is [biorbd.Model(path)]. *)
Definition load (MX_sym_1 : string -> pyval -> result pyval)
  (Model : pyval -> result pyval) (biorbd_model_path : pyval)
  : St Raw.t unit :=
  fun ocp =>
  (nx <- nlp_getitem 0 "nx" ;;
   x <- st_lift (MX_sym_1 "x"%string nx) ;;
   (fun o => (Ok tt, Raw.mk (Raw.nb_phases o) (Raw.nlp o)
                            (dict_setitem (Raw.attrs o)
                                          "symbolic_states" x))) ;;
   nu <- nlp_getitem 0 "nu" ;;
   u <- st_lift (MX_sym_1 "u"%string nu) ;;
   (fun o => (Ok tt, Raw.mk (Raw.nb_phases o) (Raw.nlp o)
                            (dict_setitem (Raw.attrs o)
                                          "symbolic_controls" u))) ;;
   st_for_each (range (len (Raw.nlp ocp))) (fun i =>
     m <- st_lift (Model biorbd_model_path) ;;
     nlp_setitem i "model" m))%st ocp.

(** A fresh object with [n] phases: [self.nlp = [{} for _ in
    range(self.nb_phases)]]. *)
Definition fresh (n : nat) : Raw.t := Raw.mk n (repeat [] n) [].

(** The object has one dict per phase. *)
Definition one_dict_per_phase (self : Raw.t) : Prop :=
  length (Raw.nlp self) = Raw.nb_phases self.

(** The phase dicts after [key] is set to [vs[i]] in phase [i]. *)
Fixpoint set_each (nlps : list dict) (key : string) (vs : list pyval)
  : list dict :=
  match nlps, vs with
  | d :: nlps', v :: vs' => dict_setitem d key v :: set_each nlps' key vs'
  | _, _ => nlps
  end.

(** The keys of a dict are distinct. *)
Definition wf_dict (d : dict) : Prop := NoDup (map fst d).

(** The phase dicts after [key] is deleted from each. *)
Definition without_key (key : string) (d : dict) : dict :=
  filter (fun kv => negb (String.eqb (fst kv) key)) d.

(** [nlp[name]] passes the type check of [__add_to_nlp]. *)
Definition well_typed (name cls : string) (d : dict) : bool :=
  match dict_get d name with
  | Some v => is_None v || isinstance v cls
  | None => true
  end.


(** The dict without the keys listed. *)
Definition strip (keys : list string) (d : dict) : dict :=
  filter (fun kv => negb (existsb (String.eqb (fst kv)) keys)) d.

(** What [_get_a_reduced_ocp] relies on: distinct keys, the nine
    attributes present, and in every phase dict the five keys it deletes
    besides ["f_ext"]. *)
Definition reducible (self : Raw.t) : Prop :=
  wf_dict (Raw.attrs self) /\
  Forall (fun a => dict_contains (Raw.attrs self) a = true)
         reduced_attributes /\
  Forall (fun d =>
            wf_dict d /\
            Forall (fun k => dict_contains d k = true)
                   ["model"; "x"; "u"; "X"; "U"]%string)
         (Raw.nlp self).

(** A constructed one-phase object, as far as the helpers look. *)
Definition sample_raw : Raw.t :=
  Raw.mk 1
    [[("model", PyObj ["biorbd.Model"] 0); ("ns", PyInt 10);
      ("nx", PyInt 4); ("nu", PyInt 2);
      ("x", PyObj ["casadi.MX"] 1); ("u", PyObj ["casadi.MX"] 2);
      ("X", PyList []); ("U", PyList [])]%string]
    [("version", PyDict []); ("J", PyInt 0); ("V", PyObj ["casadi.MX"] 3);
     ("V_bounds", PyObj ["Bounds"] 4);
     ("V_init", PyObj ["InitialConditions"] 5);
     ("g", PyObj ["casadi.MX"] 6); ("g_bounds", PyObj ["Bounds"] 7);
     ("show_online_optim_callback", PyNone);
     ("symbolic_controls", PyObj ["casadi.MX"] 8);
     ("symbolic_states", PyObj ["casadi.MX"] 9)]%string.


(** The class the three mappings are checked against. *)
Definition BidirectionalMapping : string :=
  "biorbd_optim.mapping.BidirectionalMapping".

(** The constructor, block "Compute problem size" up to the three
    mappings (lines 100 to 106). *)
Definition add_mappings
  (all_generalized_mapping q_mapping q_dot_mapping tau_mapping : pyval)
  : St Raw.t unit :=
  (mappings <-
     (if negb (is_None all_generalized_mapping)
      then
        if negb (is_None q_mapping) || negb (is_None q_dot_mapping)
           || negb (is_None tau_mapping)
        then st_raise (RuntimeError
          "all_generalized_mapping and a specified mapping cannot be used alongside")
        else st_ret (all_generalized_mapping, all_generalized_mapping,
                     all_generalized_mapping)
      else st_ret (q_mapping, q_dot_mapping, tau_mapping)) ;;
   let '(q_mapping, q_dot_mapping, tau_mapping) := mappings in
   add_to_nlp "q_mapping" q_mapping (is_None q_mapping)
              (Some BidirectionalMapping) ;;
   add_to_nlp "q_dot_mapping" q_dot_mapping (is_None q_dot_mapping)
              (Some BidirectionalMapping) ;;
   add_to_nlp "tau_mapping" tau_mapping (is_None tau_mapping)
              (Some BidirectionalMapping))%st.

(** The code [m] keeps the property [P] of its state, whether it returns
    or raises. *)
Definition st_preserves {S A} (P : S -> Prop) (m : St S A) : Prop :=
  forall s, P s -> P (snd (m s)).

(** The object is well formed: one dict per phase, and in every dict the
    keys are distinct. *)
Definition well_formed (self : Raw.t) : Prop :=
  one_dict_per_phase self /\ Forall wf_dict (Raw.nlp self).

(* ===================================================================== *)
(** * The sample phases                                                   *)
(* ===================================================================== *)

(** The phases written out in full are the phases the constructor
    builds. *)
Example sample_phases_are_built :
  phase_2_2_1 = sample_built 2 2 1 [] /\
  phase_3_2_1 = sample_built 3 2 1 [] /\
  phase_2_3_1 = sample_built 2 3 1 [] /\
  phase_mid = sample_built 11 2 1 [(MARKERS_TO_PAIR, MID, Pair 0 1)] /\
  phase_contact
  = sample_built 2 2 1 [(CONTACT_FORCE_GREATER_THAN, ALL, Pair 0 0)].
Proof. repeat split; vm_compute; reflexivity. Qed.

(* ===================================================================== *)
(** * Lemmas on Python lists                                              *)
(* ===================================================================== *)

Lemma range_of_nat (n : nat) : range (Z.of_nat n) = map Z.of_nat (seq 0 n).
Proof. unfold range. now rewrite Nat2Z.id. Qed.

Lemma getitem_nat {A} (l : list A) (k : nat) (d : A) :
  (k < length l)%nat -> getitem l (Z.of_nat k) = Ok (nth k l d).
Proof.
  intros Hk. unfold getitem.
  destruct (Z.ltb_spec (Z.of_nat k) 0) as [Hneg | _]; [lia |].
  destruct (Z.ltb_spec (Z.of_nat k) 0) as [Hneg | _]; [lia |].
  rewrite Nat2Z.id.
  destruct (nth_error l k) as [a |] eqn:E.
  - now rewrite (nth_error_nth l k d E).
  - apply nth_error_None in E. lia.
Qed.

Lemma getitem_first {A} (l : list A) (d : A) :
  l <> [] -> getitem l 0 = Ok (hd d l).
Proof. destruct l; [congruence | reflexivity]. Qed.

Lemma getitem_last {A} (l : list A) (d : A) :
  l <> [] -> getitem l (-1) = Ok (last l d).
Proof.
  intros Hl. unfold getitem, len. cbn [Z.ltb Z.compare].
  destruct (exists_last Hl) as (l' & a & ->).
  rewrite length_app, last_last. cbn [length].
  destruct (Z.ltb_spec (-1 + Z.of_nat (length l' + 1)) 0) as [Hneg | _];
    [lia |].
  replace (Z.to_nat (-1 + Z.of_nat (length l' + 1))) with (length l' + 0)%nat
    by lia.
  now rewrite nth_error_app2, Nat.add_0_r, Nat.sub_diag by lia.
Qed.

Lemma slice_inside {A} (l : list A) (a n : nat) :
  (a + n <= length l)%nat ->
  slice l (Z.of_nat a) (Z.of_nat a + Z.of_nat n) = firstn n (skipn a l).
Proof.
  intros H. unfold slice, slice_index, len.
  destruct (Z.ltb_spec (Z.of_nat a) 0); [lia |].
  destruct (Z.ltb_spec (Z.of_nat a + Z.of_nat n) 0); [lia |].
  rewrite !Z.min_l by lia.
  now replace (Z.to_nat (Z.of_nat a + Z.of_nat n - Z.of_nat a)) with n by lia;
    rewrite Nat2Z.id.
Qed.

(* ===================================================================== *)
(** * Lemmas on columns                                                   *)
(* ===================================================================== *)

Lemma length_zip_sub (a b : Vec) :
  length a = length b -> length (zip_sub a b) = length a.
Proof.
  revert b. induction a as [| x a IH]; intros [| y b] H; cbn in *;
    try congruence; try reflexivity.
  f_equal. apply IH. congruence.
Qed.

Lemma minus_same_shape (a b : Vec) :
  length a = length b -> minus a b = Ok (zip_sub a b).
Proof. intros H. unfold minus. now rewrite H, Nat.eqb_refl. Qed.

Lemma length_MX_sym (name : SymName) (n : nat) : length (MX_sym name n) = n.
Proof. unfold MX_sym. now rewrite length_map, length_seq. Qed.

(* ===================================================================== *)
(** * Lemmas on the effect monad                                          *)
(* ===================================================================== *)

Lemma emit_nil (s : OCP.t) : emit [] s = s.
Proof.
  unfold emit. destruct s as [? ? ? ? ? [? ?]]. cbn.
  now rewrite !app_nil_r.
Qed.

Lemma emit_emit (r1 r2 : Vec) (s : OCP.t) :
  emit r2 (emit r1 s) = emit (r1 ++ r2) s.
Proof.
  unfold emit. cbn.
  now rewrite length_app, repeat_app, !app_assoc.
Qed.

Lemma lockstep_emit (rows : Vec) (s : OCP.t) :
  lockstep s -> lockstep (emit rows s).
Proof.
  unfold lockstep, emit. cbn. intros [Hmin Hmax].
  rewrite !length_app, repeat_length. lia.
Qed.

(** The bound loop appends exactly [n] pairs [(0, 0)]. *)
Lemma append_zero_bounds_run (n : nat) (s : OCP.t) :
  append_zero_bounds (Z.of_nat n) s =
  (Ok tt,
   OCP.mk (OCP.nlp s) (OCP.is_cyclic_constraint s) (OCP.V s)
          (OCP.param_to_optimize_time s) (OCP.g s)
          (Bounds.mk (Bounds.min (OCP.g_bounds s) ++ repeat 0%Z n)
                     (Bounds.max (OCP.g_bounds s) ++ repeat 0%Z n))).
Proof.
  unfold append_zero_bounds. rewrite range_of_nat.
  generalize 0%nat as from. revert s.
  induction n as [| n IH]; intros s from.
  - cbn. destruct s as [? ? ? ? ? [? ?]]. cbn. now rewrite !app_nil_r.
  - cbn [seq map for_each]. unfold bind at 1. cbn.
    rewrite IH. cbn. now rewrite <- !app_assoc.
Qed.

(** A row block followed by its bound loop is one [emit]. *)
Lemma emit_block (d : Vec) (s : OCP.t) :
  (g_vertcat d ;; append_zero_bounds (Z.of_nat (length d))) s
  = (Ok tt, emit d s).
Proof.
  unfold bind, g_vertcat. now rewrite append_zero_bounds_run.
Qed.

(** A loop whose every pass emits a block emits their concatenation. *)
Lemma for_each_emit {A} (l : list A) (body : A -> Eff unit)
  (rows : A -> Vec) :
  (forall a, In a l -> forall s, body a s = (Ok tt, emit (rows a) s)) ->
  forall s, for_each l body s = (Ok tt, emit (flat_map rows l) s).
Proof.
  induction l as [| a l IH]; intros Hbody s.
  - cbn. now rewrite emit_nil.
  - cbn [for_each flat_map]. unfold bind.
    rewrite (Hbody a (or_introl eq_refl)).
    rewrite IH by (intros; apply Hbody; now right).
    now rewrite emit_emit.
Qed.

(** [for k in range(n)] where every pass emits a block. *)
Lemma for_range_emit (n : nat) (body : Z -> Eff unit) (rows : nat -> Vec) :
  (forall k, (k < n)%nat ->
             forall s, body (Z.of_nat k) s = (Ok tt, emit (rows k) s)) ->
  forall s, for_each (range (Z.of_nat n)) body s
            = (Ok tt, emit (flat_map rows (seq 0 n)) s).
Proof.
  intros Hbody s. rewrite range_of_nat.
  assert (Hin : forall k, In k (seq 0 n) -> (k < n)%nat)
    by (intros k Hk; apply in_seq in Hk; lia).
  revert s. induction (seq 0 n) as [| k ks IH]; intros s.
  - cbn. now rewrite emit_nil.
  - cbn [map for_each flat_map]. unfold bind.
    rewrite Hbody by (apply Hin; now left).
    rewrite IH by (intros; apply Hin; now right).
    now rewrite emit_emit.
Qed.

Lemma nodes_nth_length (nlp : NLP.t) (k : nat) :
  nodes_laid_out nlp -> (k <= NLP.ns nlp)%nat ->
  length (nth k (NLP.X nlp) []) = NLP.nx nlp.
Proof.
  intros (HX & _ & Hall) Hk.
  rewrite Forall_forall in Hall. apply Hall, nth_In. lia.
Qed.

Lemma nodes_first_length (nlp : NLP.t) :
  nodes_laid_out nlp -> length (hd [] (NLP.X nlp)) = NLP.nx nlp.
Proof.
  intros H. rewrite <- (nodes_nth_length (k := 0) H) by lia.
  now destruct (NLP.X nlp).
Qed.

Lemma nodes_last_length (nlp : NLP.t) :
  nodes_laid_out nlp -> length (last (NLP.X nlp) []) = NLP.nx nlp.
Proof.
  intros H. pose proof H as (HX & _ & Hall).
  rewrite Forall_forall in Hall. apply Hall.
  destruct (NLP.X nlp) as [| x xs] eqn:E; [discriminate |].
  destruct (@exists_last _ (x :: xs)) as (l' & a & ->); [discriminate |].
  rewrite last_last. apply in_or_app. right. now left.
Qed.

Lemma nodes_nonempty (nlp : NLP.t) :
  nodes_laid_out nlp -> NLP.X nlp <> [].
Proof. intros (HX & _) E. now rewrite E in HX. Qed.

Lemma length_interval_rows (nlp : NLP.t) (k : nat) :
  phase_ready nlp -> (k < NLP.ns nlp)%nat ->
  length (interval_rows nlp k) = NLP.nx nlp.
Proof.
  intros (Hn & Hxf & _) Hk. unfold interval_rows.
  rewrite length_zip_sub; rewrite Hxf; [reflexivity |].
  now rewrite nodes_nth_length by (assumption || lia).
Qed.

Lemma length_boundary_rows (a b : NLP.t) :
  nodes_laid_out a -> nodes_laid_out b -> NLP.nx a = NLP.nx b ->
  length (boundary_rows a b) = NLP.nx a.
Proof.
  intros Ha Hb E. unfold boundary_rows.
  rewrite length_zip_sub; rewrite nodes_last_length by assumption;
    [reflexivity |].
  now rewrite nodes_first_length.
Qed.

(** One shooting interval of the first loop of the continuity pass. *)
Lemma continuity_interval_run (nlp : NLP.t) (k : nat) (s : OCP.t) :
  phase_ready nlp -> (k < NLP.ns nlp)%nat ->
  (_ <- lift (nlp_dynamics nlp) ;;
   x0 <- lift (getitem (NLP.X nlp) (Z.of_nat k)) ;;
   p <- lift (getitem (NLP.U nlp) (Z.of_nat k)) ;;
   let end_node := NLP.xf nlp x0 p in
   x1 <- lift (getitem (NLP.X nlp) (Z.of_nat k + 1)) ;;
   d <- lift (minus end_node x1) ;;
   g_vertcat d ;;
   append_zero_bounds (Z.of_nat (NLP.nx nlp))) s
  = (Ok tt, emit (interval_rows nlp k) s).
Proof.
  intros Hready Hk.
  pose proof (length_interval_rows Hready Hk) as Hlen.
  destruct Hready as (Hn & Hxf & Hdyn). pose proof Hn as (HX & HU & _).
  unfold bind at 1, lift at 1, nlp_dynamics.
  destruct (NLP.dynamics nlp) as [dyn |]; [| congruence].
  unfold bind at 1, lift at 1.
  rewrite (getitem_nat (NLP.X nlp) []) by lia.
  unfold bind at 1, lift at 1.
  rewrite (getitem_nat (NLP.U nlp) []) by lia.
  cbv zeta. unfold bind at 1, lift at 1.
  replace (Z.of_nat k + 1)%Z with (Z.of_nat (S k)) by lia.
  rewrite (getitem_nat (NLP.X nlp) []) by lia.
  unfold bind at 1, lift at 1.
  rewrite minus_same_shape
    by (rewrite Hxf; now rewrite nodes_nth_length by (assumption || lia)).
  fold (interval_rows nlp k). rewrite <- Hlen. apply emit_block.
Qed.

Lemma length_phase_rows (nlp : NLP.t) :
  phase_ready nlp -> length (phase_rows nlp) = (NLP.ns nlp * NLP.nx nlp)%nat.
Proof.
  intros Hready. unfold phase_rows.
  assert (H : forall ks, (forall k, In k ks -> (k < NLP.ns nlp)%nat) ->
            length (flat_map (interval_rows nlp) ks)
            = (length ks * NLP.nx nlp)%nat).
  { induction ks as [| k ks IH]; intros Hks; [reflexivity |].
    cbn [flat_map length]. rewrite length_app, IH
      by (intros; apply Hks; now right).
    rewrite length_interval_rows by (assumption || apply Hks; now left).
    lia. }
  rewrite H, length_seq; [reflexivity |].
  intros k Hk. apply in_seq in Hk. lia.
Qed.

(** The rows of the second loop, read by position, are the reference
    rows of the adjacent pairs. *)
Lemma inter_phase_rows_by_index (l : list NLP.t) (d : NLP.t) :
  flat_map (fun i => boundary_rows (nth i l d) (nth (S i) l d))
           (seq 0 (length l - 1))
  = inter_phase_rows l.
Proof.
  induction l as [| a l IH]; [reflexivity |].
  destruct l as [| b l]; [reflexivity |].
  change (inter_phase_rows (a :: b :: l))
    with (boundary_rows a b ++ inter_phase_rows (b :: l)).
  rewrite <- IH.
  change (length (a :: b :: l) - 1)%nat with (S (length l)).
  change (length (b :: l) - 1)%nat with (length l - 0)%nat.
  rewrite Nat.sub_0_r.
  cbn [seq flat_map nth]. f_equal.
  rewrite <- seq_shift, flat_map_concat_map, map_map.
  now rewrite <- flat_map_concat_map.
Qed.

Lemma length_inter_phase_rows (l : list NLP.t) (n : nat) :
  Forall nodes_laid_out l -> Forall (fun p => NLP.nx p = n) l ->
  length (inter_phase_rows l) = ((length l - 1) * n)%nat.
Proof.
  induction l as [| a l IH]; intros Hn Hx; [reflexivity |].
  destruct l as [| b l]; [reflexivity |].
  inversion Hn as [| ? ? Ha Hn']; inversion Hx as [| ? ? Hxa Hx']; subst.
  change (inter_phase_rows (a :: b :: l))
    with (boundary_rows a b ++ inter_phase_rows (b :: l)).
  rewrite length_app, IH by assumption.
  inversion Hn'; inversion Hx'; subst.
  rewrite length_boundary_rows by (assumption || congruence).
  cbn [length]. lia.
Qed.

(** One pass of the second loop of the continuity pass. *)
Lemma continuity_boundary_run (nlps : list NLP.t) (d : NLP.t) (n i : nat)
  (s : OCP.t) :
  Forall nodes_laid_out nlps -> Forall (fun p => NLP.nx p = n) nlps ->
  (S i < length nlps)%nat ->
  (nlp_i <- lift (getitem nlps (Z.of_nat i)) ;;
   nlp_j <- lift (getitem nlps (Z.of_nat i + 1)) ;;
   if negb (NLP.nx nlp_i =? NLP.nx nlp_j)%nat
   then raise (RuntimeError
                 "Phase constraints without same nx is not supported yet")
   else
     xl <- lift (getitem (NLP.X nlp_i) (-1)) ;;
     xr <- lift (getitem (NLP.X nlp_j) 0) ;;
     d <- lift (minus xl xr) ;;
     g_vertcat d ;;
     append_zero_bounds (Z.of_nat (NLP.nx nlp_i))) s
  = (Ok tt, emit (boundary_rows (nth i nlps d) (nth (S i) nlps d)) s).
Proof.
  intros Hn Hx Hi. rewrite Forall_forall in Hn, Hx.
  assert (Hin_i : In (nth i nlps d) nlps) by (apply nth_In; lia).
  assert (Hin_j : In (nth (S i) nlps d) nlps) by (apply nth_In; lia).
  pose proof (Hn _ Hin_i) as Ha. pose proof (Hn _ Hin_j) as Hb.
  pose proof (Hx _ Hin_i) as Hxa. pose proof (Hx _ Hin_j) as Hxb.
  unfold bind at 1, lift at 1. rewrite (getitem_nat nlps d) by lia.
  unfold bind at 1, lift at 1.
  replace (Z.of_nat i + 1)%Z with (Z.of_nat (S i)) by lia.
  rewrite (getitem_nat nlps d) by lia. cbv beta iota.
  replace (NLP.nx (nth (S i) nlps d)) with (NLP.nx (nth i nlps d))
    by congruence.
  rewrite Nat.eqb_refl. cbn [negb].
  unfold bind at 1, lift at 1.
  rewrite (getitem_last ([] : Vec) (nodes_nonempty Ha)).
  unfold bind at 1, lift at 1.
  rewrite (getitem_first ([] : Vec) (nodes_nonempty Hb)).
  unfold bind at 1, lift at 1.
  rewrite minus_same_shape
    by (rewrite nodes_last_length, nodes_first_length by assumption;
        congruence).
  fold (boundary_rows (nth i nlps d) (nth (S i) nlps d)).
  rewrite <- (length_boundary_rows Ha Hb) by congruence.
  apply emit_block.
Qed.

Lemma last_In {A} (l : list A) (d : A) : l <> [] -> In (last l d) l.
Proof.
  intros Hl. destruct (exists_last Hl) as (l' & a & ->).
  rewrite last_last. apply in_or_app. right. now left.
Qed.

Lemma length_cyclic_rows (c : bool) (nlps : list NLP.t) (n : nat) :
  Forall nodes_laid_out nlps -> Forall (fun p => NLP.nx p = n) nlps ->
  nlps <> [] ->
  length (cyclic_rows c nlps) = if c then n else 0%nat.
Proof.
  intros Hn Hx Hne. unfold cyclic_rows. destruct c; [| reflexivity].
  destruct nlps as [| first rest]; [congruence |].
  rewrite Forall_forall in Hn, Hx.
  pose proof (last_In first Hne) as Hf.
  assert (H1 : In first (first :: rest)) by now left.
  rewrite length_boundary_rows; auto.
  now rewrite (Hx _ Hf), (Hx _ H1).
Qed.

Lemma cyclic_rows_nonempty (c : bool) (nlps : list NLP.t) (d : NLP.t) :
  nlps <> [] ->
  cyclic_rows c nlps
  = if c then boundary_rows (last nlps d) (hd d nlps) else [].
Proof.
  intros Hne. unfold cyclic_rows. destruct c; [| reflexivity].
  destruct nlps as [| first rest]; [congruence |]. cbn [hd].
  destruct (exists_last Hne) as (l' & a & ->). now rewrite !last_last.
Qed.

(** The whole continuity pass on phases that are laid out, agree on
    [nx] and have their dynamics bound: it cannot raise and emits the
    three reference blocks in this order. *)
Lemma continuity_constraint_run (s : OCP.t) (n : nat) :
  Forall phase_ready (OCP.nlp s) ->
  Forall (fun p => NLP.nx p = n) (OCP.nlp s) ->
  OCP.nlp s <> [] ->
  continuity_constraint s
  = (Ok tt,
     emit (intra_phase_rows (OCP.nlp s)
           ++ inter_phase_rows (OCP.nlp s)
           ++ cyclic_rows (OCP.is_cyclic_constraint s) (OCP.nlp s)) s).
Proof.
  intros Hready Hx Hne.
  assert (Hnodes : Forall nodes_laid_out (OCP.nlp s)).
  { rewrite Forall_forall in *. intros p Hp. now destruct (Hready p Hp). }
  unfold continuity_constraint.
  unfold bind at 1.
  (* first loop *)
  rewrite for_each_emit with (rows := phase_rows).
  2:{ intros nlp Hin s'. unfold phase_rows.
      apply for_range_emit. intros k Hk s''.
      rewrite Forall_forall in Hready.
      now apply continuity_interval_run; [apply Hready |]. }
  fold (intra_phase_rows (OCP.nlp s)).
  (* second loop *)
  unfold bind at 1.
  destruct (OCP.nlp s) as [| first rest] eqn:E; [congruence |].
  rewrite <- E in *.
  replace (len (OCP.nlp s) - 1)%Z with (Z.of_nat (length (OCP.nlp s) - 1))
    by (unfold len; rewrite E; cbn [length]; lia).
  rewrite for_range_emit
    with (rows := fun i => boundary_rows (nth i (OCP.nlp s) first)
                                         (nth (S i) (OCP.nlp s) first)).
  2:{ intros i Hi s'.
      apply continuity_boundary_run with (n := n); try assumption. lia. }
  rewrite inter_phase_rows_by_index, emit_emit.
  (* cyclic closure *)
  rewrite cyclic_rows_nonempty with (d := first) by assumption.
  destruct (OCP.is_cyclic_constraint s).
  - unfold bind at 1, lift at 1.
    rewrite (getitem_first first Hne).
    unfold bind at 1, lift at 1.
    rewrite (getitem_last first Hne). cbv beta iota.
    rewrite Forall_forall in Hx, Hnodes.
    assert (Hf : In (last (OCP.nlp s) first) (OCP.nlp s))
      by now apply last_In.
    assert (H1 : In (hd first (OCP.nlp s)) (OCP.nlp s))
      by (rewrite E; now left).
    replace (NLP.nx (last (OCP.nlp s) first))
      with (NLP.nx (hd first (OCP.nlp s)))
      by (rewrite (Hx _ Hf), (Hx _ H1); reflexivity).
    rewrite Nat.eqb_refl. cbn [negb].
    unfold bind at 1, lift at 1.
    rewrite (getitem_last ([] : Vec) (nodes_nonempty (Hnodes _ Hf))).
    unfold bind at 1, lift at 1.
    rewrite (getitem_first ([] : Vec) (nodes_nonempty (Hnodes _ H1))).
    unfold bind at 1, lift at 1.
    rewrite minus_same_shape
      by (rewrite nodes_last_length, nodes_first_length by auto;
          now rewrite (Hx _ Hf), (Hx _ H1)).
    fold (boundary_rows (last (OCP.nlp s) first) (hd first (OCP.nlp s))).
    assert (Hlen : length (boundary_rows (last (OCP.nlp s) first)
                                         (hd first (OCP.nlp s)))
                   = NLP.nx (hd first (OCP.nlp s))).
    { rewrite length_boundary_rows; auto;
        now rewrite (Hx _ Hf), (Hx _ H1). }
    rewrite <- Hlen, emit_block, emit_emit.
    now rewrite <- app_assoc.
  - unfold ret. now rewrite !app_nil_r.
Qed.

(* ===================================================================== *)
(** * Invariants of effectful code                                        *)
(* ===================================================================== *)

Section Preservation.
Variable P : OCP.t -> Prop.

Lemma preserves_ret {A} (a : A) : preserves P (ret a).
Proof. now intros s Hs. Qed.

Lemma preserves_raise {A} (e : exn) : preserves P (@raise A e).
Proof. now intros s Hs. Qed.

Lemma preserves_lift {A} (r : result A) : preserves P (lift r).
Proof. now intros s Hs. Qed.

Lemma preserves_bind {A B} (m : Eff A) (k : A -> Eff B) :
  preserves P m -> (forall a, preserves P (k a)) -> preserves P (bind m k).
Proof.
  intros Hm Hk s Hs. unfold bind. specialize (Hm s Hs).
  destruct (m s) as [[a | e] s']; cbn in *; [now apply Hk | assumption].
Qed.

(** The continuation only has to keep [P] for the value computed. *)
Lemma preserves_lift_bind {A B} (r : result A) (k : A -> Eff B) :
  (forall a, r = Ok a -> preserves P (k a)) -> preserves P (bind (lift r) k).
Proof.
  intros Hk s Hs. unfold bind, lift.
  destruct r as [a | e]; cbn; [now apply Hk | assumption].
Qed.

Lemma preserves_for_each {A} (l : list A) (body : A -> Eff unit) :
  (forall a, In a l -> preserves P (body a)) -> preserves P (for_each l body).
Proof.
  induction l as [| a l IH]; intros Hbody; cbn [for_each].
  - apply preserves_ret.
  - apply preserves_bind; [apply Hbody; now left |].
    intros _. apply IH. intros; apply Hbody; now right.
Qed.

End Preservation.

(** Decomposes a goal [preserves P m] along the shape of [m]. *)
Ltac preserve_step :=
  match goal with
  | |- preserves _ (ret _) => apply preserves_ret
  | |- preserves _ (raise _) => apply preserves_raise
  | |- preserves _ (lift _) => apply preserves_lift
  | |- preserves _ (bind _ _) => apply preserves_bind; [| intros ?]
  | |- preserves _ (for_each _ _) => apply preserves_for_each; intros ? ?
  | |- preserves _ (if ?b then _ else _) => destruct b
  | |- preserves _ (let '(_, _) := ?p in _) => destruct p
  | |- preserves _ (match ?x with _ => _ end) => destruct x
  end.

(* ===================================================================== *)
(** * The constraint vector and its bounds stay in lockstep               *)
(* ===================================================================== *)

Lemma getitem_In {A} (l : list A) (i : Z) (a : A) :
  getitem l i = Ok a -> In a l.
Proof.
  unfold getitem.
  destruct (_ <? 0)%Z; [discriminate |].
  destruct (nth_error l _) as [b |] eqn:E; [| discriminate].
  intros [= <-]. eapply nth_error_In, E.
Qed.

Lemma minus_same_shape_inv (a b d : Vec) :
  length a = length b -> minus a b = Ok d -> length d = length a.
Proof.
  intros H. rewrite minus_same_shape by exact H.
  intros [= <-]. now apply length_zip_sub.
Qed.

(** Reads a goal on every start object as a [preserves] goal. *)
Ltac as_preserves P :=
  let s := fresh "s" in
  let Hs := fresh "Hs" in
  intros s Hs;
  lazymatch goal with
  | |- context [snd (?m s)] => revert s Hs; change (preserves P m)
  end.

Lemma lockstep_block (d : Vec) (n : nat) :
  length d = n ->
  preserves lockstep (g_vertcat d ;; append_zero_bounds (Z.of_nat n)).
Proof. intros <- s Hs. rewrite emit_block. now apply lockstep_emit. Qed.

Lemma lockstep_markers_to_pair (nlp : NLP.t) (X : list Vec)
  (policy : Policy) :
  marker_3d nlp -> preserves lockstep (markers_to_pair nlp X policy).
Proof.
  intros Hm. unfold markers_to_pair.
  apply preserves_for_each. intros x _. cbv zeta.
  apply preserves_lift_bind. intros x_q _.
  apply preserves_lift_bind. intros i1 _.
  apply preserves_lift_bind. intros i2 _.
  apply preserves_lift_bind. intros d Hd.
  change 3%Z with (Z.of_nat 3). apply lockstep_block.
  apply minus_same_shape_inv in Hd; rewrite ?Hm in *; congruence.
Qed.

Lemma lockstep_proportional_row (nlp : NLP.t) (a b : nat) (coef : Q)
  (v : Vec) :
  preserves lockstep (proportional_row nlp a b coef v).
Proof.
  unfold proportional_row. cbv zeta.
  apply preserves_lift_bind. intros va _.
  apply preserves_lift_bind. intros vb _.
  intros s [Hmin Hmax]. unfold lockstep. cbn.
  unfold vertcat. rewrite !length_app. cbn. lia.
Qed.

Lemma lockstep_proportional_variable (nlp : NLP.t) (V : list Vec)
  (policy : Policy) :
  preserves lockstep (proportional_variable nlp V policy).
Proof.
  unfold proportional_variable.
  destruct policy as [a b | a b coef | [| t l]].
  - apply preserves_for_each. intros v _. cbv zeta.
    apply preserves_lift_bind. intros _ _. apply preserves_raise.
  - apply preserves_for_each. intros v _.
    apply lockstep_proportional_row.
  - apply preserves_raise.
  - apply preserves_for_each. intros [[a b] coef] _.
    apply preserves_for_each. intros v _.
    apply lockstep_proportional_row.
Qed.

(** The contact-force branch leaves the object as it found it. *)
Lemma contact_force_inequality_state (nlp : NLP.t) (X U : list Vec)
  (policy : Policy) (s : OCP.t) :
  snd (contact_force_inequality nlp X U policy s) = s.
Proof.
  unfold contact_force_inequality.
  induction (range (len U)) as [| i l IH]; [reflexivity |].
  cbn [for_each]. unfold bind, lift.
  destruct (getitem X i); [| reflexivity].
  destruct (getitem U i); [| reflexivity].
  cbv zeta. unfold ret at 1. exact IH.
Qed.

Lemma lockstep_contact_force_inequality (nlp : NLP.t) (X U : list Vec)
  (policy : Policy) :
  preserves lockstep (contact_force_inequality nlp X U policy).
Proof. intros s Hs. now rewrite contact_force_inequality_state. Qed.

Lemma lockstep_add_constraints_elem (nlp : NLP.t) (elem : ConstraintElem) :
  marker_3d nlp -> preserves lockstep (add_constraints_elem nlp elem).
Proof.
  intros Hm. destruct elem as [[type instant] policy].
  unfold add_constraints_elem. cbv zeta.
  apply preserves_bind.
  - destruct instant; repeat preserve_step.
  - intros [x u].
    destruct type;
      [ now apply lockstep_markers_to_pair
      | apply lockstep_proportional_variable
      | destruct instant;
          (apply preserves_raise || apply lockstep_proportional_variable)
      | destruct instant;
          (apply preserves_raise || apply lockstep_contact_force_inequality) ].
Qed.

Lemma lockstep_add_constraints (nlp : NLP.t) :
  marker_3d nlp -> preserves lockstep (add_constraints nlp).
Proof.
  intros Hm. apply preserves_for_each. intros elem _.
  now apply lockstep_add_constraints_elem.
Qed.

(** A boundary block: last state of [a] against first state of [b]. *)
Lemma lockstep_boundary (a b : NLP.t) :
  phase_shapes a -> phase_shapes b -> NLP.nx a = NLP.nx b ->
  preserves lockstep
    (xl <- lift (getitem (NLP.X a) (-1)) ;;
     xr <- lift (getitem (NLP.X b) 0) ;;
     d <- lift (minus xl xr) ;;
     g_vertcat d ;;
     append_zero_bounds (Z.of_nat (NLP.nx a))).
Proof.
  intros (_ & _ & Ha) (_ & _ & Hb) E. rewrite Forall_forall in Ha, Hb.
  apply preserves_lift_bind. intros xl Hxl. apply getitem_In, Ha in Hxl.
  apply preserves_lift_bind. intros xr Hxr. apply getitem_In, Hb in Hxr.
  apply preserves_lift_bind. intros d Hd.
  apply lockstep_block.
  apply minus_same_shape_inv in Hd; congruence.
Qed.

Lemma lockstep_continuity_constraint (s0 : OCP.t) :
  Forall phase_shapes (OCP.nlp s0) ->
  forall s, OCP.nlp s = OCP.nlp s0 ->
            lockstep s -> lockstep (snd (continuity_constraint s)).
Proof.
  intros Hall s Hnlp. rewrite Forall_forall in Hall.
  unfold continuity_constraint. rewrite Hnlp.
  generalize (OCP.is_cyclic_constraint s) as cyclic. intros cyclic.
  clear Hnlp. revert s. as_preserves lockstep.
  apply preserves_bind; [| intros _; apply preserves_bind; [| intros _]].
  - (* within phases *)
    apply preserves_for_each. intros nlp Hin.
    destruct (Hall nlp Hin) as (_ & Hxf & HX). rewrite Forall_forall in HX.
    apply preserves_for_each. intros k _.
    apply preserves_lift_bind. intros _ _.
    apply preserves_lift_bind. intros x0 _.
    apply preserves_lift_bind. intros p _. cbv zeta.
    apply preserves_lift_bind. intros x1 Hx1. apply getitem_In, HX in Hx1.
    apply preserves_lift_bind. intros d Hd.
    apply lockstep_block.
    apply minus_same_shape_inv in Hd; rewrite ?Hxf in *; congruence.
  - (* between phases *)
    apply preserves_for_each. intros i _.
    apply preserves_lift_bind. intros nlp_i Hi. apply getitem_In in Hi.
    apply preserves_lift_bind. intros nlp_j Hj. apply getitem_In in Hj.
    destruct (Nat.eqb_spec (NLP.nx nlp_i) (NLP.nx nlp_j)) as [E | _];
      cbn [negb]; [| apply preserves_raise].
    apply lockstep_boundary; auto.
  - (* cyclic closure *)
    destruct cyclic; [| apply preserves_ret].
    apply preserves_lift_bind. intros nlp_0 H0. apply getitem_In in H0.
    apply preserves_lift_bind. intros nlp_l Hl. apply getitem_In in Hl.
    destruct (Nat.eqb_spec (NLP.nx nlp_0) (NLP.nx nlp_l)) as [E | _];
      cbn [negb]; [| apply preserves_raise].
    intros s Hs.
    pose proof (@lockstep_boundary nlp_l nlp_0 (Hall _ Hl) (Hall _ H0)
                  (eq_sym E)) as Hb.
    rewrite <- E in Hb. exact (Hb s Hs).
Qed.

(* ===================================================================== *)
(** * The layout pass                                                     *)
(* ===================================================================== *)

Lemma MX_slice_inside (v : Vec) (a n : nat) :
  (a + n <= length v)%nat ->
  MX_slice v (Z.of_nat a) (Z.of_nat a + Z.of_nat n)
  = Ok (firstn n (skipn a v)).
Proof.
  intros H. unfold MX_slice, len.
  destruct (Z.ltb_spec (Z.of_nat a) 0); [lia |].
  destruct (Z.ltb_spec (Z.of_nat a + Z.of_nat n) 0); [lia |].
  destruct (Z.ltb_spec (Z.of_nat (length v)) (Z.of_nat a + Z.of_nat n));
    [lia |].
  cbn [orb]. destruct (Z.ltb_spec (Z.of_nat a) 0); [lia |].
  replace (Z.to_nat (Z.of_nat a + Z.of_nat n - Z.of_nat a)) with n by lia.
  now rewrite Nat2Z.id.
Qed.

Lemma MX_slice_prefix (v : Vec) (n : nat) :
  (n <= length v)%nat -> MX_slice v 0 (Z.of_nat n) = Ok (firstn n v).
Proof.
  intros H. change 0%Z with (Z.of_nat 0) at 1.
  rewrite <- (Z.add_0_l (Z.of_nat n)). change 0%Z with (Z.of_nat 0).
  now rewrite MX_slice_inside by lia.
Qed.

(** The node loop, started at offset [o] with [ks] passes to go and room
    for them in [V], returns the blocks cut at the successive offsets. *)
Lemma shooting_nodes_spec (V : Vec) (nx nu : nat) (ks : list Z) :
  forall (X U : list Vec) (o : nat),
    (o + length ks * (nx + nu) <= length V)%nat ->
    shooting_nodes V (Z.of_nat nx) (Z.of_nat nu) ks X U (Z.of_nat o)
    = Ok (X ++ map (fun j => firstn nx (skipn (o + j * (nx + nu)) V))
                   (seq 0 (length ks)),
          U ++ map (fun j => firstn nu (skipn (o + j * (nx + nu) + nx) V))
                   (seq 0 (length ks)),
          Z.of_nat (o + length ks * (nx + nu))).
Proof.
  induction ks as [| k ks IH]; intros X U o Hfit.
  - cbn. now rewrite !app_nil_r, Nat.add_0_r.
  - cbn [shooting_nodes length] in *. unfold result_bind.
    rewrite MX_slice_inside by lia.
    rewrite <- Nat2Z.inj_add, MX_slice_inside by lia.
    rewrite <- Nat2Z.inj_add, IH by lia.
    cbn [seq map]. rewrite <- seq_shift, !map_map, <- !app_assoc.
    cbn [app]. rewrite !Nat.add_0_r.
    rewrite (map_ext
               (fun j => firstn nx (skipn (o + nx + nu + j * (nx + nu)) V))
               (fun j => firstn nx (skipn (o + S j * (nx + nu)) V)))
      by (intros j; do 2 f_equal; lia).
    rewrite (map_ext
               (fun j => firstn nu
                           (skipn (o + nx + nu + j * (nx + nu) + nx) V))
               (fun j => firstn nu (skipn (o + S j * (nx + nu) + nx) V)))
      by (intros j; do 2 f_equal; lia).
    do 3 f_equal. lia.
Qed.

Lemma laid_out_nodes (nlp : NLP.t) (idx : nat) :
  nodes_laid_out (laid_out nlp idx).
Proof.
  unfold nodes_laid_out, laid_out. cbn.
  rewrite !length_map, !length_seq. repeat split.
  apply Forall_forall. intros x Hx.
  change (In x (map (state_block (MX_sym (V_ idx) (nV nlp))
                       (NLP.nx nlp) (NLP.nu nlp))
                    (seq 0 (S (NLP.ns nlp))))) in Hx.
  apply in_map_iff in Hx. destruct Hx as (k & <- & Hk).
  apply in_seq in Hk. unfold state_block.
  rewrite length_firstn, length_skipn, length_MX_sym. unfold nV. nia.
Qed.

Lemma laid_out_static (nlp : NLP.t) (idx : nat) :
  static_fields (laid_out nlp idx) = static_fields nlp /\
  NLP.tf (laid_out nlp idx) = NLP.tf nlp /\
  NLP.marker (laid_out nlp idx) = NLP.marker nlp /\
  NLP.xf (laid_out nlp idx) = NLP.xf nlp.
Proof. repeat split. Qed.

(** One call of the layout pass: it cannot raise, appends the block of
    the phase to the decision vector and cuts it into
    [(state_0, control_0, ..., state_ns)]. *)
Lemma define_nodes_run (nlp : NLP.t) (idx : nat) (s : OCP.t) :
  define_multiple_shooting_nodes_per_phase nlp idx s
  = (Ok (laid_out nlp idx),
     OCP.mk (OCP.nlp s) (OCP.is_cyclic_constraint s)
            (OCP.V s ++ MX_sym (V_ idx) (nV nlp))
            (OCP.param_to_optimize_time s) (OCP.g s) (OCP.g_bounds s)).
Proof.
  unfold define_multiple_shooting_nodes_per_phase, laid_out. cbv zeta.
  assert (Hfit : (NLP.ns nlp * (NLP.nx nlp + NLP.nu nlp) + NLP.nx nlp
                  <= length (MX_sym (V_ idx) (nV nlp)))%nat)
    by (rewrite length_MX_sym; unfold nV; nia).
  unfold bind at 1, lift at 1. change 0%Z with (Z.of_nat 0).
  rewrite shooting_nodes_spec
    by (rewrite range_of_nat, length_map, length_seq; lia).
  rewrite range_of_nat, length_map, length_seq. cbn [app Nat.add].
  unfold bind at 1, lift at 1.
  rewrite MX_slice_inside by lia.
  unfold bind, V_vertcat, set_V, ret, vertcat. cbn [fst snd].
  do 3 f_equal.
  rewrite seq_S, map_app. cbn [map Nat.add]. reflexivity.
Qed.

Lemma setitem_middle {A} (pre post : list A) (a v : A) :
  setitem (pre ++ a :: post) (length pre) v = pre ++ v :: post.
Proof. induction pre as [| h pre IH]; cbn; [reflexivity | now f_equal]. Qed.

Lemma getitem_middle {A} (pre post : list A) (a : A) :
  getitem (pre ++ a :: post) (Z.of_nat (length pre)) = Ok a.
Proof.
  rewrite (getitem_nat _ a) by (rewrite length_app; cbn; lia).
  now rewrite app_nth2, Nat.sub_diag by lia.
Qed.

(** The loop over the phases of the layout pass, from phase
    [length pre] on. *)
Lemma layout_loop_run (post : list NLP.t) :
  forall (pre : list NLP.t) (s : OCP.t),
    OCP.nlp s = pre ++ post ->
    for_each (map Z.of_nat (seq (length pre) (length post)))
      (fun i =>
         nlp_i <- load_nlp i ;;
         nlp_i <- define_multiple_shooting_nodes_per_phase nlp_i
                    (Z.to_nat i) ;;
         store_nlp i nlp_i) s
    = (Ok tt,
       OCP.mk (pre ++ layout_all (length pre) post)
              (OCP.is_cyclic_constraint s)
              (OCP.V s ++ decision_blocks (length pre) post)
              (OCP.param_to_optimize_time s) (OCP.g s) (OCP.g_bounds s)).
Proof.
  induction post as [| p post IH]; intros pre s Hs.
  - cbn. rewrite app_nil_r in Hs. rewrite !app_nil_r, <- Hs.
    now destruct s.
  - cbn [length seq map for_each layout_all decision_blocks].
    unfold bind at 1. unfold bind at 1, load_nlp at 1, lift.
    rewrite Hs, getitem_middle.
    unfold bind at 1. rewrite define_nodes_run, Nat2Z.id.
    unfold store_nlp at 1. cbn [OCP.nlp OCP.V OCP.g OCP.g_bounds
      OCP.is_cyclic_constraint OCP.param_to_optimize_time].
    rewrite Hs, Nat2Z.id, setitem_middle.
    specialize (IH (pre ++ [laid_out p (length pre)])).
    rewrite length_app in IH. cbn [length] in IH.
    rewrite Nat.add_1_r in IH.
    rewrite IH by (cbn; now rewrite <- app_assoc).
    cbn. now rewrite <- !app_assoc.
Qed.

Lemma free_times_layout_all (nlps : list NLP.t) (from : nat) :
  free_times (layout_all from nlps) = free_times nlps.
Proof.
  revert from. induction nlps as [| p l IH]; intros from; [reflexivity |].
  cbn [layout_all]. unfold free_times in *. cbn [flat_map].
  rewrite IH. now destruct (laid_out_static p from) as (_ & -> & _).
Qed.

Lemma length_free_times (nlps : list NLP.t) :
  length (free_times nlps) = nb_free_times nlps.
Proof.
  unfold free_times, nb_free_times.
  induction nlps as [| p l IH]; [reflexivity |].
  cbn [flat_map filter]. rewrite length_app, IH.
  now destruct (NLP.tf p).
Qed.

Lemma length_decision_blocks (nlps : list NLP.t) (from : nat) :
  length (decision_blocks from nlps) = sum_nV nlps.
Proof.
  revert from. unfold sum_nV.
  induction nlps as [| p l IH]; intros from; [reflexivity |].
  cbn [decision_blocks map list_sum].
  now rewrite length_app, length_MX_sym, IH.
Qed.

(** The loop of [__define_variable_time]. *)
Lemma variable_time_loop_run (nlps : list NLP.t) :
  forall (P : list MX) (s : OCP.t),
    variable_time_loop nlps P s
    = (Ok (P ++ free_times nlps),
       OCP.mk (OCP.nlp s) (OCP.is_cyclic_constraint s)
              (OCP.V s ++ free_times nlps)
              (OCP.param_to_optimize_time s) (OCP.g s) (OCP.g_bounds s)).
Proof.
  induction nlps as [| p l IH]; intros P s.
  - cbn. rewrite !app_nil_r. now destruct s.
  - cbn [variable_time_loop]. unfold free_times in *. cbn [flat_map].
    destruct (NLP.tf p) as [q | t].
    + apply IH.
    + unfold bind at 1, V_vertcat at 1, set_V at 1.
      unfold bind at 1, lift. cbn [OCP.V].
      unfold vertcat.
      rewrite (getitem_last t) by (now destruct (OCP.V s)).
      rewrite last_last, IH. cbn. now rewrite <- !app_assoc.
Qed.

(** The first half of the constructor cannot raise; it lays every phase
    out and builds the decision vector: the phase blocks in order, then
    the free times. *)
Lemma init_variables_run (s : OCP.t) :
  init_variables s
  = (Ok tt,
     OCP.mk (layout_all 0 (OCP.nlp s)) (OCP.is_cyclic_constraint s)
            (decision_blocks 0 (OCP.nlp s) ++ free_times (OCP.nlp s))
            (free_times (OCP.nlp s)) (OCP.g s) (OCP.g_bounds s)).
Proof.
  unfold init_variables.
  unfold bind at 1, set_V at 1.
  unfold bind at 1. unfold len. rewrite range_of_nat.
  rewrite (@layout_loop_run (OCP.nlp s) []) by reflexivity.
  unfold bind at 1, set_param_to_optimize_time at 1.
  unfold define_variable_time, bind.
  rewrite variable_time_loop_run. cbn.
  now rewrite free_times_layout_all.
Qed.

(* ===================================================================== *)
(** * Frames: what the constraint passes leave alone                      *)
(* ===================================================================== *)

(** Closes a [preserves] goal on code that does not touch what the
    property reads: the property of the end object is the property of
    the start object by computation. *)
Ltac preserve_leaf :=
  let s := fresh "s" in
  let Hs := fresh "Hs" in
  intros s Hs; exact Hs.

Ltac preserve_frame :=
  repeat (cbv beta zeta; first [preserve_step | preserve_leaf]).

Lemma continuity_constraint_keeps_V (v : Vec) :
  preserves (fun s => OCP.V s = v) continuity_constraint.
Proof.
  intros s. unfold continuity_constraint, append_zero_bounds.
  generalize (OCP.nlp s) (OCP.is_cyclic_constraint s). intros nlps cyclic.
  revert s. as_preserves (fun s : OCP.t => OCP.V s = v). preserve_frame.
Qed.

Lemma add_constraints_keeps_V (v : Vec) (nlp : NLP.t) :
  preserves (fun s => OCP.V s = v) (add_constraints nlp).
Proof.
  unfold add_constraints, add_constraints_elem, markers_to_pair,
    proportional_variable, proportional_row, contact_force_inequality,
    append_zero_bounds.
  preserve_frame.
Qed.

Lemma init_dynamics_and_constraints_keeps_V (v : Vec)
  (constraints : list (list ConstraintElem)) :
  preserves (fun s => OCP.V s = v)
            (init_dynamics_and_constraints constraints).
Proof.
  intros s. unfold init_dynamics_and_constraints. cbv zeta.
  generalize (len (OCP.nlp s)). intros nb_phases.
  revert s. as_preserves (fun s : OCP.t => OCP.V s = v).
  repeat (cbv beta zeta;
          first [ apply continuity_constraint_keeps_V
                | apply add_constraints_keeps_V
                | preserve_step | preserve_leaf ]).
Qed.

(* ===================================================================== *)
(** * Which durations become free                                         *)
(* ===================================================================== *)

Lemma length_setitem {A} (l : list A) (i : nat) (v : A) :
  length (setitem l i v) = length l.
Proof.
  revert i. induction l as [| h l IH]; intros [| i]; cbn; auto.
Qed.

Lemma nth_error_setitem_eq {A} (l : list A) (i : nat) (v : A) :
  (i < length l)%nat -> nth_error (setitem l i v) i = Some v.
Proof.
  revert i. induction l as [| h l IH]; intros [| i] H; cbn in *;
    try lia; [reflexivity | apply IH; lia].
Qed.

Lemma nth_error_setitem_neq {A} (l : list A) (i j : nat) (v : A) :
  i <> j -> nth_error (setitem l i v) j = nth_error l j.
Proof.
  revert i j. induction l as [| h l IH]; intros [| i] [| j] H; cbn;
    try reflexivity; try congruence. apply IH. congruence.
Qed.

Lemma setitem_setitem {A} (l : list A) (i : nat) (v w : A) :
  setitem (setitem l i v) i w = setitem l i w.
Proof.
  revert i. induction l as [| h l IH]; intros [| i]; cbn;
    try reflexivity. now rewrite IH.
Qed.

(** The objectives of phase [i]: its time becomes the symbol
    [time_phase_i] as soon as one of them is MINIMIZE_TIME. *)
Lemma init_phase_time_objectives_times (i : nat) (objs : list ObjFun) :
  forall acc,
    (i < length (phase_time acc))%nat ->
    exists acc',
      init_phase_time_objectives i objs acc = Ok acc' /\
      phase_time acc'
      = if existsb is_minimize_time objs
        then setitem (phase_time acc) i (Sym (MXsym (time_phase_ i) 0))
        else phase_time acc.
Proof.
  induction objs as [| o objs IH]; intros acc Hi; [now exists acc |].
  cbn [init_phase_time_objectives existsb].
  destruct (is_minimize_time o); cbn [orb]; [| now apply IH].
  unfold result_bind. rewrite (getitem_nat _ (Num 0)) by exact Hi.
  match goal with
  | |- context [init_phase_time_objectives i objs ?a] =>
      destruct (IH a) as (acc' & Hrun & Ht)
  end.
  - cbn [phase_time]. now rewrite length_setitem.
  - exists acc'. split; [exact Hrun |]. rewrite Ht. cbn [phase_time].
    destruct (existsb is_minimize_time objs); [apply setitem_setitem |].
    reflexivity.
Qed.

(** The phases from number [i] on. *)
Lemma init_phase_time_phases_times (nlps : list NLP.t) :
  forall i acc,
    (i + length nlps <= length (phase_time acc))%nat ->
    exists acc',
      init_phase_time_phases i nlps acc = Ok acc' /\
      length (phase_time acc') = length (phase_time acc) /\
      forall k,
        nth_error (phase_time acc') k
        = match nth_error nlps (k - i) with
          | Some p =>
              if (i <=? k)%nat && minimizes_time p
              then Some (Sym (MXsym (time_phase_ k) 0))
              else nth_error (phase_time acc) k
          | None => nth_error (phase_time acc) k
          end.
Proof.
  induction nlps as [| p nlps IH]; intros i acc Hfit.
  - exists acc. repeat split. intros k. now destruct (k - i)%nat.
  - cbn [init_phase_time_phases length] in *.
    assert (Hstep : exists acc1,
      (match NLP.objective_functions p with
       | Some objs =>
           let* acc' := init_phase_time_objectives i objs acc in
           init_phase_time_phases (S i) nlps acc'
       | None => init_phase_time_phases (S i) nlps acc
       end) = init_phase_time_phases (S i) nlps acc1 /\
      phase_time acc1
      = if minimizes_time p
        then setitem (phase_time acc) i (Sym (MXsym (time_phase_ i) 0))
        else phase_time acc).
    { unfold minimizes_time.
      destruct (NLP.objective_functions p) as [objs |]; [| now exists acc].
      destruct (@init_phase_time_objectives_times i objs acc)
        as (acc1 & Hrun & Ht); [lia |].
      exists acc1. unfold result_bind. now rewrite Hrun. }
    destruct Hstep as (acc1 & -> & Ht1).
    assert (Hlen1 : length (phase_time acc1) = length (phase_time acc))
      by (rewrite Ht1; destruct (minimizes_time p);
          [apply length_setitem | reflexivity]).
    destruct (IH (S i) acc1) as (acc' & Hrun & Hlen & Hnth); [lia |].
    exists acc'. split; [exact Hrun |]. split; [congruence |].
    intros k. rewrite Hnth.
    destruct (Nat.lt_trichotomy k i) as [Hlt | [-> | Hgt]].
    + (* before phase i: untouched *)
      replace (k - S i)%nat with 0%nat by lia.
      replace (k - i)%nat with 0%nat by lia. cbn [nth_error].
      destruct (Nat.leb_spec (S i) k); [lia |].
      destruct (Nat.leb_spec i k); [lia |]. cbn [andb].
      assert (E : nth_error (phase_time acc1) k = nth_error (phase_time acc) k)
        by (rewrite Ht1; destruct (minimizes_time p);
            [apply nth_error_setitem_neq; lia | reflexivity]).
      now destruct nlps.
    + (* phase i itself *)
      replace (i - S i)%nat with 0%nat by lia. rewrite Nat.sub_diag.
      cbn [nth_error]. rewrite Nat.leb_refl. cbn [andb].
      destruct (Nat.leb_spec (S i) i); [lia |].
      assert (E : nth_error (phase_time acc1) i
                  = if minimizes_time p
                    then Some (Sym (MXsym (time_phase_ i) 0))
                    else nth_error (phase_time acc) i)
        by (rewrite Ht1; destruct (minimizes_time p);
            [apply nth_error_setitem_eq; lia | reflexivity]).
      now destruct nlps.
    + (* a later phase *)
      replace (k - i)%nat with (S (k - S i)) by lia. cbn [nth_error].
      destruct (Nat.leb_spec (S i) k); [| lia].
      destruct (Nat.leb_spec i k); [| lia].
      assert (E : nth_error (phase_time acc1) k = nth_error (phase_time acc) k)
        by (rewrite Ht1; destruct (minimizes_time p);
            [apply nth_error_setitem_neq; lia | reflexivity]).
      now rewrite E.
Qed.

(** [__init_phase_time] on one time per phase: it returns, and the time
    of a phase is the fresh symbol [time_phase_k] exactly when the phase
    has a MINIMIZE_TIME objective; the other times are left as given. *)
Lemma init_phase_time_frees (nlps : list NLP.t) (times : list Time) :
  length times = length nlps ->
  exists r,
    init_phase_time nlps times = Ok r /\
    length (phase_time r) = length nlps /\
    forall k p,
      nth_error nlps k = Some p ->
      nth_error (phase_time r) k
      = if minimizes_time p
        then Some (Sym (MXsym (time_phase_ k) 0))
        else nth_error times k.
Proof.
  intros Hlen. unfold init_phase_time.
  destruct (@init_phase_time_phases_times nlps 0
              (mkPhaseTimes times [] [] []))
    as (r & Hrun & Hl & Hnth); [cbn; lia |].
  exists r. split; [exact Hrun |]. split; [cbn in Hl; congruence |].
  intros k p Hk. rewrite Hnth, Nat.sub_0_r, Hk. reflexivity.
Qed.

(* ===================================================================== *)
(** * C2: length of the decision vector                                   *)
(* ===================================================================== *)

(** C2. Whatever the phases, the cyclic flag and the constraints, and
    whether the rest of the constructor returns or raises, the decision
    vector [self.V] is the phase blocks in order followed by the free
    times, and its length is the sum over the phases of
    [nx*(ns+1) + nu*ns] plus one per phase whose [tf] is a free time
    parameter. *)
Theorem decision_vector_length (nlps : list NLP.t) (is_cyclic : bool)
  (constraints : list (list ConstraintElem)) :
  OCP.V (snd (construct nlps is_cyclic constraints))
  = decision_blocks 0 nlps ++ free_times nlps /\
  length (OCP.V (snd (construct nlps is_cyclic constraints)))
  = (sum_nV nlps + nb_free_times nlps)%nat.
Proof.
  assert (HV : OCP.V (snd (construct nlps is_cyclic constraints))
               = decision_blocks 0 nlps ++ free_times nlps).
  { unfold construct, bind. rewrite init_variables_run.
    now apply init_dynamics_and_constraints_keeps_V. }
  split; [exact HV |].
  now rewrite HV, length_app, length_decision_blocks, length_free_times.
Qed.

(* ===================================================================== *)
(** * The dynamics loop of the constructor                                *)
(* ===================================================================== *)

(** A loop raises when one of its passes is bound to raise; [I] is kept
    by every pass and [R] holds of every exception a pass can raise. *)
Lemma for_each_raises {A} (I : OCP.t -> Prop) (R : exn -> Prop)
  (l : list A) (body : A -> Eff unit) :
  (forall a, In a l -> forall s, I s ->
     I (snd (body a s)) /\ forall e, fst (body a s) = Raise e -> R e) ->
  (exists a, In a l /\ forall s, I s -> exists e, fst (body a s) = Raise e) ->
  forall s, I s ->
    exists e, fst (for_each l body s) = Raise e /\ R e /\
              I (snd (for_each l body s)).
Proof.
  induction l as [| a l IH]; intros Hall (bad & Hin & Hbad) s Hs.
  - destruct Hin.
  - cbn [for_each]. unfold bind.
    destruct (Hall a (or_introl eq_refl) s Hs) as [HI HR].
    destruct (body a s) as [[u | e] s'] eqn:E; cbn [fst snd] in *.
    + apply IH;
        [intros; apply Hall; [now right | assumption] | | exact HI].
      destruct Hin as [<- | Hin]; [| now exists bad].
      destruct (Hbad s Hs) as (e & He). rewrite E in He. discriminate.
    + exists e. auto.
Qed.

Lemma map_setitem_same {A B} (f : A -> B) (l : list A) (k : nat) (v d : A) :
  f v = f (nth k l d) -> map f (setitem l k v) = map f l.
Proof.
  revert k. induction l as [| h l IH]; intros [| k] H; cbn in *;
    try reflexivity; f_equal; auto.
Qed.

Lemma prepare_dynamics_static (nlp nlp' : NLP.t) :
  prepare_dynamics nlp = Ok nlp' -> static_fields nlp' = static_fields nlp.
Proof.
  unfold prepare_dynamics.
  destruct (NLP.ode_solver nlp); [| destruct (is_MX _) ..];
    intros [= <-] || discriminate; reflexivity.
Qed.

Lemma prepare_dynamics_raises (nlp : NLP.t) (e : exn) :
  prepare_dynamics nlp = Raise e -> exists msg, e = RuntimeError msg.
Proof.
  unfold prepare_dynamics.
  destruct (NLP.ode_solver nlp); [| destruct (is_MX _) ..];
    intros [= <-] || discriminate; eauto.
Qed.

(** One pass of the dynamics loop, seen through the static fields. *)
Lemma dynamics_pass (statics : list Statics) (d : Statics) (k : nat)
  (s : OCP.t) :
  before_constraints statics s -> (k < length statics)%nat ->
  let body := fun i : Z =>
    nlp_0 <- load_nlp 0 ;;
    nlp_i <- load_nlp i ;;
    if negb (NLP.nx nlp_0 =? NLP.nx nlp_i)%nat
       || negb (NLP.nu nlp_0 =? NLP.nu nlp_i)%nat
    then raise (RuntimeError
                  "Dynamics with different nx or nu is not supported yet")
    else
      nlp_i <- lift (prepare_dynamics nlp_i) ;;
      store_nlp i nlp_i in
  before_constraints statics (snd (body (Z.of_nat k) s)) /\
  (forall e, fst (body (Z.of_nat k) s) = Raise e ->
             exists msg, e = RuntimeError msg) /\
  (refused (nth 0 statics d) (nth k statics d) = true ->
   exists e, fst (body (Z.of_nat k) s) = Raise e).
Proof.
  intros (Hst & Hg & Hb) Hk body.
  assert (Hlen : length (OCP.nlp s) = length statics)
    by (now rewrite <- Hst, length_map).
  destruct (OCP.nlp s) as [| first rest] eqn:E;
    [cbn in Hlen; lia |]. rewrite <- E in *.
  assert (H0 : static_fields (nth 0 (OCP.nlp s) first) = nth 0 statics d).
  { rewrite <- Hst, E. cbn. reflexivity. }
  assert (Hi : static_fields (nth k (OCP.nlp s) first) = nth k statics d).
  { rewrite <- Hst.
    rewrite (nth_indep _ d (static_fields first))
      by (now rewrite length_map, Hlen).
    now rewrite map_nth. }
  set (p0 := nth 0 (OCP.nlp s) first) in *.
  set (pk := nth k (OCP.nlp s) first) in *.
  assert (Hrun : body (Z.of_nat k) s
    = if negb (NLP.nx p0 =? NLP.nx pk)%nat
         || negb (NLP.nu p0 =? NLP.nu pk)%nat
      then (Raise (RuntimeError
              "Dynamics with different nx or nu is not supported yet"), s)
      else match prepare_dynamics pk with
           | Ok pk' => store_nlp (Z.of_nat k) pk' s
           | Raise e => (Raise e, s)
           end).
  { subst body. cbv beta. unfold bind, load_nlp, lift.
    change 0%Z with (Z.of_nat 0).
    rewrite !(getitem_nat (OCP.nlp s) first) by lia.
    fold p0 pk. now destruct (_ || _). }
  rewrite Hrun. clear Hrun body.
  unfold refused. rewrite <- H0, <- Hi. unfold static_fields.
  destruct (negb (NLP.nx p0 =? NLP.nx pk)%nat
            || negb (NLP.nu p0 =? NLP.nu pk)%nat) eqn:Emis.
  - cbn. repeat split; eauto. intros e [= <-]. eauto.
  - destruct (prepare_dynamics pk) as [pk' | e] eqn:Ep.
    + cbn [fst snd orb]. repeat split; try assumption; try discriminate.
      * unfold store_nlp. cbn. rewrite Nat2Z.id.
        rewrite (@map_setitem_same _ _ static_fields _ _ _ first);
          [assumption |].
        now apply prepare_dynamics_static.
      * intros Href. exfalso. revert Ep. unfold prepare_dynamics.
        destruct (NLP.ode_solver pk), (is_MX (NLP.tf pk));
          cbn in Href; discriminate.
    + cbn. repeat split; eauto.
      intros e' [= <-]. eapply prepare_dynamics_raises, Ep.
Qed.

Lemma length_layout_all (nlps : list NLP.t) (from : nat) :
  length (layout_all from nlps) = length nlps.
Proof.
  revert from. induction nlps as [| p l IH]; intros from; cbn;
    [reflexivity | now rewrite IH].
Qed.

Lemma static_layout_all (nlps : list NLP.t) (from : nat) :
  map static_fields (layout_all from nlps) = map static_fields nlps.
Proof.
  revert from. induction nlps as [| p l IH]; intros from; cbn;
    [reflexivity |].
  rewrite IH. now destruct (laid_out_static p from) as (-> & _).
Qed.

(** A constructor call on phases one of which the dynamics loop refuses
    raises a RuntimeError, and the object it leaves has no constraint row
    and no constraint bound. *)
Lemma construct_refused (nlps : list NLP.t) (is_cyclic : bool)
  (constraints : list (list ConstraintElem)) (k : nat) (d : Statics) :
  (k < length nlps)%nat ->
  refused (nth 0 (map static_fields nlps) d)
          (nth k (map static_fields nlps) d) = true ->
  exists msg s2,
    construct nlps is_cyclic constraints = (Raise (RuntimeError msg), s2) /\
    OCP.g s2 = [] /\ OCP.g_bounds s2 = Bounds.empty.
Proof.
  intros Hk Href. unfold construct. unfold bind at 1.
  rewrite init_variables_run.
  cbn [OCP.nlp OCP.is_cyclic_constraint OCP.g OCP.g_bounds].
  set (s1 := OCP.mk _ _ _ _ _ _).
  assert (H1 : before_constraints (map static_fields nlps) s1)
    by (subst s1; repeat split; cbn; apply static_layout_all).
  unfold init_dynamics_and_constraints. cbv zeta.
  unfold bind at 1, load_nlp at 1, lift.
  destruct (getitem (OCP.nlp s1) 0) as [p0 | e] eqn:E0.
  2:{ exfalso. subst s1. cbn in E0.
      destruct nlps; [cbn in Hk; lia | discriminate]. }
  unfold bind at 1.
  destruct (@for_each_raises Z (before_constraints (map static_fields nlps))
              (fun e => exists msg, e = RuntimeError msg)
              (range (len (OCP.nlp s1)))
              (fun i : Z =>
                 nlp_0 <- load_nlp 0 ;;
                 nlp_i <- load_nlp i ;;
                 if negb (NLP.nx nlp_0 =? NLP.nx nlp_i)%nat
                    || negb (NLP.nu nlp_0 =? NLP.nu nlp_i)%nat
                 then raise (RuntimeError
                   "Dynamics with different nx or nu is not supported yet")
                 else
                   nlp_i <- lift (prepare_dynamics nlp_i) ;;
                   store_nlp i nlp_i))
    with (s := s1) as (e & He & (msg & ->) & HI).
  - intros a Ha s Hs. unfold range in Ha. apply in_map_iff in Ha.
    destruct Ha as (j & <- & Hj). apply in_seq in Hj.
    assert (Hj' : (j < length (map static_fields nlps))%nat).
    { unfold len in Hj. subst s1. cbn in Hj.
      rewrite Nat2Z.id, length_layout_all in Hj.
      rewrite length_map. lia. }
    destruct (dynamics_pass d Hs Hj') as (HA & HB & _). split; assumption.
  - exists (Z.of_nat k). split.
    + unfold range, len. subst s1. cbn.
      rewrite Nat2Z.id, length_layout_all.
      apply in_map, in_seq. lia.
    + intros s Hs.
      assert (Hk' : (k < length (map static_fields nlps))%nat)
        by now rewrite length_map.
      destruct (dynamics_pass d Hs Hk') as (_ & _ & HC). now apply HC.
  - exact H1.
  - destruct (for_each _ _ s1) as [[u | e'] s2]; cbn [fst snd] in *;
      [discriminate |].
    injection He as ->. exists msg, s2. destruct HI as (_ & Hg & Hb). auto.
Qed.

Lemma nth_map_static (nlps : list NLP.t) (k : nat) (p : NLP.t) (d : Statics) :
  nth_error nlps k = Some p ->
  nth k (map static_fields nlps) d = static_fields p.
Proof.
  intros H. apply nth_error_nth.
  now rewrite nth_error_map, H.
Qed.

(* ===================================================================== *)
(** * C9: mismatched state dimensions                                     *)
(* ===================================================================== *)

(** C9. When two adjacent phases [i] and [i+1] differ in [nx], the
    constructor raises a RuntimeError, and the object it leaves has an
    empty constraint vector and empty constraint bounds: the check of the
    dynamics loop comes before [self.g = []] and before the continuity
    pass, so no continuity row was emitted. *)
Theorem mismatched_nx_fails_before_continuity (nlps : list NLP.t)
  (is_cyclic : bool) (constraints : list (list ConstraintElem))
  (i : nat) (a b : NLP.t) :
  nth_error nlps i = Some a ->
  nth_error nlps (S i) = Some b ->
  NLP.nx a <> NLP.nx b ->
  exists msg s',
    construct nlps is_cyclic constraints = (Raise (RuntimeError msg), s') /\
    OCP.g s' = [] /\ OCP.g_bounds s' = Bounds.empty.
Proof.
  intros Ha Hb Hne.
  assert (Hi : (S i < length nlps)%nat)
    by (apply nth_error_Some; congruence).
  destruct nlps as [| first rest] eqn:E; [cbn in Hi; lia |].
  rewrite <- E in *.
  assert (H0 : nth_error nlps 0 = Some first) by now rewrite E.
  set (d := static_fields first).
  destruct (Nat.eq_dec (NLP.nx first) (NLP.nx a)) as [Eq | Neq].
  - apply construct_refused with (k := S i) (d := d); [exact Hi |].
    rewrite (@nth_map_static _ _ _ d H0), (@nth_map_static _ _ _ d Hb).
    unfold refused, static_fields.
    destruct (Nat.eqb_spec (NLP.nx first) (NLP.nx b)); [congruence |].
    reflexivity.
  - apply construct_refused with (k := i) (d := d); [lia |].
    rewrite (@nth_map_static _ _ _ d H0), (@nth_map_static _ _ _ d Ha).
    unfold refused, static_fields.
    destruct (Nat.eqb_spec (NLP.nx first) (NLP.nx a)); [congruence |].
    reflexivity.
Qed.

(** An instance: two phases with [nx = 2] and [nx = 3]. *)
Lemma mismatched_nx_sample :
  exists msg s',
    construct [sample_phase 2 2 1 (Num 1) RK [];
               sample_phase 2 3 1 (Num 1) RK []] false []
    = (Raise (RuntimeError msg), s') /\
    OCP.g s' = [] /\ OCP.g_bounds s' = Bounds.empty.
Proof.
  apply (@mismatched_nx_fails_before_continuity
           [sample_phase 2 2 1 (Num 1) RK [];
            sample_phase 2 3 1 (Num 1) RK []] false [] 0
           (sample_phase 2 2 1 (Num 1) RK [])
           (sample_phase 2 3 1 (Num 1) RK []));
    [reflexivity | reflexivity | cbn; lia].
Defined.

(** On its own, called on such phases laid out and with dynamics bound,
    the continuity pass raises only after the intra-phase rows: the
    constructor's earlier check is what keeps this from happening. *)
Example continuity_constraint_alone_mismatched_nx :
  let s := sample_ocp [phase_2_2_1; phase_2_3_1] false in
  fst (continuity_constraint s)
  = Raise (RuntimeError
             "Phase constraints without same nx is not supported yet") /\
  length (OCP.g (snd (continuity_constraint s))) = 10%nat.
Proof. vm_compute. split; reflexivity. Qed.

(* ===================================================================== *)
(** * C8: free duration and the integrators                               *)
(* ===================================================================== *)

(** C8. For a phase whose duration is a symbol, [__prepare_dynamics]
    raises a RuntimeError under COLLOCATION and under CVODES and returns
    (binding an RK4 integrator) under RK; and a constructor call on
    phases one of which is free with COLLOCATION or CVODES raises a
    RuntimeError. *)
Theorem free_duration_integrators (nlp : NLP.t) :
  is_MX (NLP.tf nlp) = true ->
  (NLP.ode_solver nlp = COLLOCATION ->
   prepare_dynamics nlp
   = Raise (RuntimeError
       "OdeSolver.COLLOCATION cannot be used while optimizing the time parameter")) /\
  (NLP.ode_solver nlp = CVODES ->
   prepare_dynamics nlp
   = Raise (RuntimeError
       "OdeSolver.CVODES cannot be used while optimizing the time parameter")) /\
  (NLP.ode_solver nlp = RK ->
   prepare_dynamics nlp = Ok (NLP.set_dynamics nlp (RK4 (NLP.dt nlp) 5))) /\
  (NLP.ode_solver nlp <> RK ->
   forall nlps is_cyclic constraints, In nlp nlps ->
     exists msg s',
       construct nlps is_cyclic constraints
       = (Raise (RuntimeError msg), s')).
Proof.
  intros Hfree. unfold prepare_dynamics. rewrite Hfree.
  repeat split; try (intros ->; reflexivity).
  intros Hsolver nlps is_cyclic constraints Hin.
  destruct (In_nth_error _ _ Hin) as (k & Hk).
  assert (Hlen : (k < length nlps)%nat)
    by (apply nth_error_Some; congruence).
  destruct nlps as [| first rest] eqn:E; [cbn in Hlen; lia |].
  rewrite <- E in *.
  assert (H0 : nth_error nlps 0 = Some first) by now rewrite E.
  destruct (@construct_refused nlps is_cyclic constraints k
              (static_fields first) Hlen) as (msg & s' & Hrun & _).
  - rewrite (@nth_map_static _ _ _ _ H0), (@nth_map_static _ _ _ _ Hk).
    unfold refused, static_fields. rewrite Hfree.
    destruct (NLP.ode_solver nlp); [congruence | |];
      now rewrite orb_true_r.
  - now exists msg, s'.
Qed.

(** An instance: a free duration under COLLOCATION. *)
Lemma free_duration_sample :
  prepare_dynamics
    (sample_phase 2 2 1 (Sym (MXsym (time_phase_ 0) 0)) COLLOCATION [])
  = Raise (RuntimeError
      "OdeSolver.COLLOCATION cannot be used while optimizing the time parameter").
Proof.
  apply (proj1 (@free_duration_integrators
           (sample_phase 2 2 1 (Sym (MXsym (time_phase_ 0) 0))
                         COLLOCATION [])
           eq_refl)).
  reflexivity.
Defined.

(* ===================================================================== *)
(** * C10: the step length                                                *)
(* ===================================================================== *)

(** C10. The step length of a phase is [tf / max(ns, 1)]: the division
    returns for every phase (so does the whole list comprehension), with
    [ns = 0] it divides by one, and with [ns >= 1] it is [tf / ns]. *)
Theorem dt_never_divides_by_zero (nlp : NLP.t) :
  phase_dt nlp = truediv (NLP.tf nlp) (Z.max (Z.of_nat (NLP.ns nlp)) 1) /\
  (exists d, phase_dt nlp = Ok d) /\
  (forall nlps, exists ds, dt_list nlps = Ok ds /\ length ds = length nlps) /\
  (NLP.ns nlp = 0%nat -> phase_dt nlp = truediv (NLP.tf nlp) 1) /\
  ((1 <= NLP.ns nlp)%nat -> phase_dt nlp = dt_spec nlp).
Proof.
  assert (Hret : forall p, exists d, phase_dt p = Ok d).
  { intros p. unfold phase_dt, truediv.
    destruct (NLP.tf p) as [q | e]; [| eauto].
    destruct (Z.eqb_spec (Z.max (Z.of_nat (NLP.ns p)) 1) 0); [lia | eauto]. }
  split; [reflexivity |]. split; [apply Hret |]. split; [| split].
  - induction nlps as [| p l (ds & IH & Hlen)]; [now exists [] |].
    destruct (Hret p) as (d & Hd).
    exists (d :: ds). cbn [dt_list length]. now rewrite Hd, IH, Hlen.
  - intros H0. unfold phase_dt. now rewrite H0.
  - intros H1. unfold phase_dt, dt_spec. now rewrite Z.max_l by lia.
Qed.

(** An instance: two intervals of a one-second phase. *)
Lemma dt_sample :
  phase_dt (sample_phase 2 2 1 (Num 1) RK [])
  = dt_spec (sample_phase 2 2 1 (Num 1) RK []).
Proof.
  apply (proj2 (proj2 (proj2 (proj2
           (dt_never_divides_by_zero (sample_phase 2 2 1 (Num 1) RK [])))))).
  cbn. lia.
Defined.

(* ===================================================================== *)
(** * C1: lockstep through the whole constructor                          *)
(* ===================================================================== *)

Lemma continuity_constraint_keeps_nlp (l : list NLP.t) :
  preserves (fun s => OCP.nlp s = l) continuity_constraint.
Proof.
  intros s Hs. unfold continuity_constraint, append_zero_bounds.
  rewrite Hs.
  generalize (OCP.is_cyclic_constraint s). intros cyclic.
  revert s Hs. as_preserves (fun s : OCP.t => OCP.nlp s = l).
  preserve_frame.
Qed.

Lemma add_constraints_keeps_nlp (l : list NLP.t) (nlp : NLP.t) :
  preserves (fun s => OCP.nlp s = l) (add_constraints nlp).
Proof.
  unfold add_constraints, add_constraints_elem, markers_to_pair,
    proportional_variable, proportional_row, contact_force_inequality,
    append_zero_bounds.
  preserve_frame.
Qed.


Lemma Forall_setitem {A} (P : A -> Prop) (l : list A) (k : nat) (v : A) :
  Forall P l -> P v -> Forall P (setitem l k v).
Proof.
  intros Hl Hv. revert k.
  induction Hl as [| h l Hh Hl IH]; intros [| k]; cbn; auto.
Qed.

Lemma prepare_dynamics_shapes (nlp nlp' : NLP.t) :
  prepare_dynamics nlp = Ok nlp' -> phase_shapes nlp -> phase_shapes nlp'.
Proof.
  unfold prepare_dynamics.
  destruct (NLP.ode_solver nlp); [| destruct (is_MX _) ..];
    intros [= <-] || discriminate; auto.
Qed.

(** What follows a load of [self.nlp[i]] may rely on the loaded dict
    being one of the object's phases. *)
Lemma preserves_load_nlp_bind {B} (J : OCP.t -> Prop) (i : Z)
  (k : NLP.t -> Eff B) :
  (forall p s, J s -> In p (OCP.nlp s) -> J (snd (k p s))) ->
  preserves J (bind (load_nlp i) k).
Proof.
  intros Hk s Hs. unfold bind, load_nlp, lift.
  destruct (getitem (OCP.nlp s) i) as [p | e] eqn:E; [| exact Hs].
  apply Hk; [exact Hs | eapply getitem_In, E].
Qed.

Lemma lockstep_and_shapes_init_dynamics_and_constraints
  (constraints : list (list ConstraintElem)) :
  preserves lockstep_and_shapes (init_dynamics_and_constraints constraints).
Proof.
  intros s. unfold init_dynamics_and_constraints. cbv zeta.
  generalize (len (OCP.nlp s)). intros nb_phases.
  revert s. as_preserves lockstep_and_shapes.
  apply preserves_bind; [preserve_leaf | intros _].
  apply preserves_bind; [| intros _].
  { (* the dynamics loop *)
    apply preserves_for_each. intros i _.
    apply preserves_bind; [preserve_leaf | intros nlp_0].
    apply preserves_load_nlp_bind. intros nlp_i s [Hl Hs] Hin.
    destruct (_ || _); [split; assumption |].
    unfold bind, lift.
    destruct (prepare_dynamics nlp_i) as [nlp_i' | e] eqn:E;
      [| split; assumption].
    split; [exact Hl |]. unfold store_nlp. cbn.
    apply Forall_setitem; [exact Hs |].
    eapply prepare_dynamics_shapes; [exact E |].
    rewrite Forall_forall in Hs. now apply Hs. }
  apply preserves_bind; [| intros _].
  { intros s [_ Hs]. split; [split; reflexivity | exact Hs]. }
  apply preserves_bind; [| intros _].
  { intros s [Hl Hs]. split.
    - exact (@lockstep_continuity_constraint s Hs s eq_refl Hl).
    - now rewrite (@continuity_constraint_keeps_nlp (OCP.nlp s) s eq_refl). }
  destruct (0 <? len constraints)%Z; [| apply preserves_ret].
  apply preserves_for_each. intros i _.
  apply preserves_load_nlp_bind. intros nlp_i s [Hl Hs] Hin. split.
  - apply lockstep_add_constraints; [| exact Hl].
    rewrite Forall_forall in Hs. now destruct (Hs _ Hin).
  - now rewrite (@add_constraints_keeps_nlp (OCP.nlp s) nlp_i s eq_refl).
Qed.

Lemma layout_all_shapes (nlps : list NLP.t) (from : nat) :
  Forall (fun p => marker_3d p /\ xf_is_state p) nlps ->
  Forall phase_shapes (layout_all from nlps).
Proof.
  intros H. revert from.
  induction H as [| p l [Hm Hx] Hl IH]; intros from; cbn [layout_all];
    constructor; [| apply IH].
  destruct (laid_out_nodes p from) as (_ & _ & Hnodes).
  split; [exact Hm | split; [exact Hx | exact Hnodes]].
Qed.

(** C1. The constraint vector and both bound lists stay in lockstep:
    each appending operation of constraints.py (coincidence,
    proportional, contact force, the dispatch [add_constraints], the
    continuity pass) keeps [len(g) = len(g_bounds.min) = len(g_bounds.max)]
    whether it returns or raises, and so does a whole constructor call.
    The marker evaluator is taken to return three rows and the integrator
    a state of [nx] rows. *)
Theorem constraint_vector_lockstep :
  (forall nlp X policy,
     marker_3d nlp -> preserves lockstep (markers_to_pair nlp X policy)) /\
  (forall nlp V policy,
     preserves lockstep (proportional_variable nlp V policy)) /\
  (forall nlp X U policy,
     preserves lockstep (contact_force_inequality nlp X U policy)) /\
  (forall nlp, marker_3d nlp -> preserves lockstep (add_constraints nlp)) /\
  (forall s, Forall phase_shapes (OCP.nlp s) ->
             lockstep s -> lockstep (snd (continuity_constraint s))) /\
  (forall nlps is_cyclic constraints,
     Forall (fun p => marker_3d p /\ xf_is_state p) nlps ->
     lockstep (snd (construct nlps is_cyclic constraints))).
Proof.
  split; [| split; [| split; [| split; [| split]]]].
  - intros. now apply lockstep_markers_to_pair.
  - intros. apply lockstep_proportional_variable.
  - intros. apply lockstep_contact_force_inequality.
  - intros. now apply lockstep_add_constraints.
  - intros s Hs Hl. exact (@lockstep_continuity_constraint s Hs s eq_refl Hl).
  - intros nlps is_cyclic constraints Hc.
    unfold construct, bind. rewrite init_variables_run.
    apply lockstep_and_shapes_init_dynamics_and_constraints.
    split; [split; reflexivity |]. cbn. now apply layout_all_shapes.
Qed.

(** An instance: a cyclic two-phase problem with one constraint of each
    kind. *)
Lemma constraint_vector_lockstep_sample :
  lockstep
    (snd (construct
            [sample_phase 2 2 1 (Num 1) RK
               [(MARKERS_TO_PAIR, ALL, Pair 0 1);
                (CONTACT_FORCE_GREATER_THAN, START, Pair 0 0)];
             sample_phase 3 2 1 (Num 1) RK
               [(PROPORTIONAL_Q, INTERMEDIATES, Triple 0 1 (1 # 2));
                (PROPORTIONAL_CONTROL, END, Triple 0 0 1)]]
            true [[]; []])).
Proof.
  apply (proj2 (proj2 (proj2 (proj2 (proj2 constraint_vector_lockstep))))).
  repeat constructor; intros ? ?; reflexivity.
Defined.

(* ===================================================================== *)
(** * A constructor call that returns                                     *)
(* ===================================================================== *)






(** An instance: the two sample phases, cyclic. *)
Example construct_continuity_rows_sample :
  let r := construct [sample_phase 2 2 1 (Num 1) RK [];
                      sample_phase 3 2 1 (Num 1) RK []] true [] in
  fst r = Ok tt /\
  length (OCP.g (snd r)) = (2 * 2 + 3 * 2 + 2 + 2)%nat /\
  Bounds.min (OCP.g_bounds (snd r)) = repeat 0%Z 14.
Proof. vm_compute. repeat split. Qed.

(* ===================================================================== *)
(** * C3: count and order of the continuity rows                          *)
(* ===================================================================== *)

(** C3. On phases that are laid out, have their dynamics bound and share
    the state dimension [n], the continuity pass returns, having appended
    to the constraint vector, each with the bound pair [(0, 0)]: first the
    intra-phase rows, phase by phase and interval by interval, [ns * n] of
    them for a phase with [ns] intervals; then [n] rows per pair of
    adjacent phases; then, when the cyclic flag is set, [n] more rows. *)
Theorem continuity_rows_count_and_order (s : OCP.t) (n : nat) :
  Forall phase_ready (OCP.nlp s) ->
  Forall (fun p => NLP.nx p = n) (OCP.nlp s) ->
  OCP.nlp s <> [] ->
  continuity_constraint s
  = (Ok tt,
     emit (intra_phase_rows (OCP.nlp s)
           ++ inter_phase_rows (OCP.nlp s)
           ++ cyclic_rows (OCP.is_cyclic_constraint s) (OCP.nlp s)) s) /\
  Forall (fun p => length (phase_rows p) = (NLP.ns p * n)%nat) (OCP.nlp s) /\
  length (inter_phase_rows (OCP.nlp s)) = ((length (OCP.nlp s) - 1) * n)%nat /\
  length (cyclic_rows (OCP.is_cyclic_constraint s) (OCP.nlp s))
  = if OCP.is_cyclic_constraint s then n else 0%nat.
Proof.
  intros Hready Hx Hne.
  assert (Hnodes : Forall nodes_laid_out (OCP.nlp s)).
  { rewrite Forall_forall in *. intros p Hp. now destruct (Hready p Hp). }
  split; [now apply continuity_constraint_run with (n := n) |].
  split; [| split].
  - rewrite Forall_forall in *. intros p Hp.
    rewrite length_phase_rows by auto. now rewrite (Hx p Hp).
  - now apply length_inter_phase_rows.
  - now apply length_cyclic_rows.
Qed.

(** An instance: two phases of 2 and 3 intervals with [nx = 2], cyclic:
    [2*2 + 3*2] intra-phase rows, 2 inter-phase rows, 2 cyclic rows. *)
Lemma continuity_rows_sample :
  let s := sample_ocp [phase_2_2_1; phase_3_2_1] true in
  continuity_constraint s
  = (Ok tt,
     emit (intra_phase_rows (OCP.nlp s)
           ++ inter_phase_rows (OCP.nlp s)
           ++ cyclic_rows true (OCP.nlp s)) s) /\
  length (intra_phase_rows (OCP.nlp s)) = 10%nat /\
  length (inter_phase_rows (OCP.nlp s)) = 2%nat /\
  length (cyclic_rows true (OCP.nlp s)) = 2%nat.
Proof.
  intros s.
  assert (Hready : Forall phase_ready (OCP.nlp s)).
  { repeat constructor; try (intros x0 p; reflexivity);
      try discriminate; vm_compute; repeat constructor. }
  assert (Hx : Forall (fun p => NLP.nx p = 2%nat) (OCP.nlp s))
    by (repeat constructor).
  assert (Hne : OCP.nlp s <> []) by discriminate.
  destruct (@continuity_rows_count_and_order s 2 Hready Hx Hne)
    as (Hrun & _ & Hinter & Hcyc).
  split; [exact Hrun |]. split; [reflexivity |].
  split; [exact Hinter | exact Hcyc].
Defined.

(* ===================================================================== *)
(** * C6: the coincidence constraint                                      *)
(* ===================================================================== *)

Lemma length_coincidence_rows (nlp : NLP.t) (a b : nat) (X : list Vec) :
  marker_3d nlp -> length (coincidence_rows nlp a b X) = (3 * length X)%nat.
Proof.
  intros Hm. unfold coincidence_rows.
  induction X as [| x X IH]; [reflexivity |].
  cbn [flat_map length]. rewrite length_app, IH.
  rewrite length_zip_sub; rewrite !Hm; lia.
Qed.

Lemma markers_to_pair_run (nlp : NLP.t) (a b : nat) (X : list Vec)
  (s : OCP.t) :
  marker_3d nlp ->
  Forall (fun x => (nb_reduced (NLP.dof_mapping nlp) <= length x)%nat) X ->
  markers_to_pair nlp X (Pair a b) s
  = (Ok tt, emit (coincidence_rows nlp a b X) s).
Proof.
  intros Hm HX. rewrite Forall_forall in HX.
  unfold markers_to_pair, coincidence_rows. cbv zeta.
  apply for_each_emit. intros x Hx s'.
  unfold bind at 1, lift at 1.
  rewrite MX_slice_prefix by now apply HX.
  unfold bind at 1, lift at 1. cbn [marker_index].
  unfold bind at 1, lift at 1. cbn [marker_index].
  unfold bind at 1, lift at 1.
  rewrite minus_same_shape by (now rewrite !Hm).
  set (d := zip_sub _ _).
  replace 3%Z with (Z.of_nat (length d))
    by (subst d; rewrite length_zip_sub; rewrite !Hm; reflexivity).
  apply emit_block.
Qed.

(** C6. With a marker evaluator of three coordinates and nodes that hold
    at least the [nb_reduced] reduced coordinates, a coincidence
    constraint between markers [a] and [b] returns, having appended for
    each selected node the three rows [marker a - marker b], evaluated on
    the expansion by the DofMapping of the first [nb_reduced] entries of
    the node, each row with the bound pair [(0, 0)]; and at the selector
    [ALL] on a phase with [ns = 2], whose nodes are laid out, that is
    exactly 9 rows. *)
Theorem coincidence_three_rows_per_node (nlp : NLP.t) (s : OCP.t) :
  marker_3d nlp ->
  (forall a b X,
     Forall (fun x => (nb_reduced (NLP.dof_mapping nlp) <= length x)%nat) X ->
     markers_to_pair nlp X (Pair a b) s
     = (Ok tt, emit (coincidence_rows nlp a b X) s) /\
     length (coincidence_rows nlp a b X) = (3 * length X)%nat) /\
  (nodes_laid_out nlp -> NLP.ns nlp = 2%nat ->
   (nb_reduced (NLP.dof_mapping nlp) <= NLP.nx nlp)%nat ->
   add_constraints_elem nlp (MARKERS_TO_PAIR, ALL, Pair 0 1) s
   = (Ok tt, emit (coincidence_rows nlp 0 1 (NLP.X nlp)) s) /\
   length (coincidence_rows nlp 0 1 (NLP.X nlp)) = 9%nat).
Proof.
  intros Hm. split.
  - intros a b X HX. split;
      [now apply markers_to_pair_run | now apply length_coincidence_rows].
  - intros (HX & _ & Hall) Hns Hnq. split.
    + unfold add_constraints_elem. cbv zeta. unfold bind, ret.
      apply markers_to_pair_run; [exact Hm |].
      eapply Forall_impl; [| exact Hall].
      cbv beta. intros x ->. exact Hnq.
    + rewrite length_coincidence_rows, HX, Hns by assumption. reflexivity.
Qed.

(** An instance: markers 0 and 1 at all nodes of a phase with
    [ns = 2]. *)
Lemma coincidence_sample :
  let nlp := phase_2_2_1 in
  let s := sample_ocp [nlp] false in
  add_constraints_elem nlp (MARKERS_TO_PAIR, ALL, Pair 0 1) s
  = (Ok tt, emit (coincidence_rows nlp 0 1 (NLP.X nlp)) s) /\
  length (coincidence_rows nlp 0 1 (NLP.X nlp)) = 9%nat.
Proof.
  intros nlp s.
  assert (Hm : marker_3d nlp) by (intros q i; reflexivity).
  apply (proj2 (@coincidence_three_rows_per_node nlp s Hm)).
  - vm_compute. repeat constructor.
  - reflexivity.
  - vm_compute. repeat constructor.
Defined.

(* ===================================================================== *)
(** * C4: the MID selector                                                *)
(* ===================================================================== *)

(** C4. What the code does with the selector [MID]: whatever the phase
    (odd or even [ns]), the constraint kind and the policy, the pass ends
    in the AttributeError of [nlp.ns] and leaves the object untouched; so
    with [ns = 11] no node, in particular not node 6, receives the
    constraint. *)
Theorem mid_selector_raises_attribute_error :
  (forall nlp type policy s,
     add_constraints_elem nlp (type, MID, policy) s
     = (Raise (AttributeError "ns"), s)) /\
  (let nlp := phase_mid in
   let s := sample_ocp [nlp] false in
   NLP.ns nlp = 11%nat /\
   add_constraints nlp s = (Raise (AttributeError "ns"), s)).
Proof.
  split.
  - intros nlp type policy s. reflexivity.
  - cbv zeta. split; reflexivity.
Qed.

(* ===================================================================== *)
(** * C5: the INTERMEDIATES selector                                      *)
(* ===================================================================== *)

Lemma firstn_skipn_nth {A} (l : list A) (d : A) (n : nat) :
  forall a, (a + n <= length l)%nat ->
            firstn n (skipn a l) = map (fun k => nth k l d) (seq a n).
Proof.
  induction n as [| n IH]; intros a H; [now rewrite firstn_0 |].
  cbn [seq map]. rewrite <- IH by lia.
  assert (Ha : (a < length l)%nat) by lia.
  clear IH H. revert a Ha.
  induction l as [| h l IHl]; intros a Ha; [cbn in Ha; lia |].
  destruct a as [| a]; [reflexivity |].
  cbn [skipn nth]. apply IHl. cbn in Ha. lia.
Qed.

(** The slice [[1 : ns - 1]] of a list of [len] items, [len] being
    [ns + 1] (states) or [ns] (controls): items [1 .. ns - 2]. *)
Lemma intermediates_slice {A} (l : list A) (d : A) (ns : nat) :
  (ns <= length l <= S ns)%nat ->
  slice l 1 (Z.of_nat ns - 1) = map (fun k => nth k l d) (seq 1 (ns - 2)).
Proof.
  intros Hlen.
  destruct (Nat.le_gt_cases 2 ns) as [Hns | Hns].
  - replace (Z.of_nat ns - 1)%Z
      with (Z.of_nat 1 + Z.of_nat (ns - 2))%Z by lia.
    change 1%Z with (Z.of_nat 1) at 1.
    rewrite slice_inside by lia. apply firstn_skipn_nth. lia.
  - replace (ns - 2)%nat with 0%nat by lia. cbn [seq map].
    unfold slice, slice_index, len. cbn [Z.ltb Z.compare].
    destruct (Z.ltb_spec (Z.of_nat ns - 1) 0).
    + replace (Z.to_nat (Z.max 0 (Z.of_nat ns - 1 + Z.of_nat (length l))
                         - Z.min 1 (Z.of_nat (length l)))) with 0%nat by lia.
      reflexivity.
    + replace (Z.to_nat (Z.min (Z.of_nat ns - 1) (Z.of_nat (length l))
                         - Z.min 1 (Z.of_nat (length l)))) with 0%nat by lia.
      reflexivity.
Qed.

(** On a phase whose nodes are laid out, the selector [INTERMEDIATES]
    applies the constraint at the state and control nodes
    [1 .. ns - 2]. *)
Lemma intermediates_selects_inner_nodes (nlp : NLP.t)
  (type : ConstraintType) (policy : Policy) (s : OCP.t) :
  nodes_laid_out nlp ->
  add_constraints_elem nlp (type, INTERMEDIATES, policy) s
  = (let x := map (fun k => nth k (NLP.X nlp) [])
                  (seq 1 (NLP.ns nlp - 2)) in
     let u := map (fun k => nth k (NLP.U nlp) [])
                  (seq 1 (NLP.ns nlp - 2)) in
     match type with
     | MARKERS_TO_PAIR => markers_to_pair nlp x policy
     | PROPORTIONAL_Q => proportional_variable nlp x policy
     | PROPORTIONAL_CONTROL => proportional_variable nlp u policy
     | CONTACT_FORCE_GREATER_THAN => contact_force_inequality nlp x u policy
     end) s.
Proof.
  intros (HX & HU & _).
  unfold add_constraints_elem. cbv zeta. unfold bind at 1, ret at 1.
  rewrite (intermediates_slice (NLP.X nlp) []) by lia.
  rewrite (intermediates_slice (NLP.U nlp) []) by lia.
  now destruct type.
Qed.

(** The node [ns - 1] is an intermediate node and is not among the nodes
    [1 .. ns - 2]. *)
Lemma node_before_last_left_out (ns : nat) :
  (2 <= ns)%nat ->
  In (ns - 1)%nat (intermediate_nodes_spec ns) /\
  ~ In (ns - 1)%nat (seq 1 (ns - 2)).
Proof.
  intros Hns. unfold intermediate_nodes_spec. rewrite !in_seq. lia.
Qed.

(** C5. What the code does with the selector [INTERMEDIATES]: the slice
    [[1 : ns - 1]] stops before node [ns - 1].  With [ns = 3] the nodes
    other than the first and the last are 1 and 2, the code selects node 1
    alone and a proportional constraint yields the single row of node 1;
    with [ns = 2] node 1 is intermediate and the code selects no node. *)
Theorem intermediates_misses_node_before_last :
  (let nlp := phase_3_2_1 in
   let s := sample_ocp [nlp] false in
   intermediate_nodes_spec (NLP.ns nlp) = [1; 2]%nat /\
   slice (NLP.X nlp) 1 (Z.of_nat (NLP.ns nlp) - 1) = [nth 1 (NLP.X nlp) []] /\
   slice (NLP.U nlp) 1 (Z.of_nat (NLP.ns nlp) - 1) = [nth 1 (NLP.U nlp) []] /\
   add_constraints_elem nlp
     (PROPORTIONAL_Q, INTERMEDIATES, Triple 0 1 (1 # 2)) s
   = (Ok tt,
      emit [MXsub (MXsym (V_ 0) 3) (MXscale (1 # 2) (MXsym (V_ 0) 4))] s)) /\
  (let nlp := phase_2_2_1 in
   let s := sample_ocp [nlp] false in
   intermediate_nodes_spec (NLP.ns nlp) = [1]%nat /\
   slice (NLP.X nlp) 1 (Z.of_nat (NLP.ns nlp) - 1) = [] /\
   add_constraints_elem nlp
     (PROPORTIONAL_Q, INTERMEDIATES, Triple 0 1 (1 # 2)) s
   = (Ok tt, s)).
Proof. cbv zeta. repeat split; reflexivity. Qed.

(* ===================================================================== *)
(** * C7: the contact-force inequality                                    *)
(* ===================================================================== *)

(** C7. What the code does with a contact-force constraint: the branch
    evaluates the forces and appends nothing, so the object is left as it
    was found, no row and no bound pair added; at the selector [ALL] on
    a phase with two controls the pass returns with the constraint vector
    and the bounds unchanged. *)
Theorem contact_force_appends_no_row :
  (forall nlp X U policy s,
     snd (contact_force_inequality nlp X U policy s) = s) /\
  (let nlp := phase_contact in
   let s := sample_ocp [nlp] false in
   length (NLP.U nlp) = 2%nat /\
   add_constraints nlp s = (Ok tt, s)).
Proof.
  split.
  - intros. apply contact_force_inequality_state.
  - cbv zeta. split; reflexivity.
Qed.

(* ===================================================================== *)
(** * The layout pass cuts the phase block without gap or overlap         *)
(* ===================================================================== *)

Lemma firstn_plus {A} (a b : nat) (l : list A) :
  firstn (a + b) l = firstn a l ++ firstn b (skipn a l).
Proof.
  revert l. induction a as [| a IH]; intros [| h l]; cbn;
    try reflexivity; [now rewrite firstn_nil | now rewrite IH].
Qed.

Lemma node_blocks_tile (V : Vec) (nx nu n : nat) :
  flat_map (fun k => state_block V nx nu k ++ control_block V nx nu k)
           (seq 0 n)
  = firstn (n * (nx + nu)) V.
Proof.
  induction n as [| n IH]; [reflexivity |].
  rewrite seq_S, flat_map_app, IH. cbn [flat_map Nat.add].
  rewrite app_nil_r. unfold state_block, control_block.
  replace (n * (nx + nu) + nx)%nat with (nx + n * (nx + nu))%nat by lia.
  rewrite <- skipn_skipn, <- firstn_plus, <- firstn_plus.
  f_equal. lia.
Qed.

(** X1. [__define_multiple_shooting_nodes_per_phase] never raises; it
    appends the block [V_idx] of the phase to [self.V] and hands out as
    [X] and [U] consecutive pieces of that block: read in the order
    [X[0], U[0], X[1], U[1], ..., X[ns]] the pieces give the block back
    entry for entry, every state piece has [nx] entries and every control
    piece [nu]. *)
Theorem layout_tiles_phase_block (nlp : NLP.t) (idx : nat) (s : OCP.t) :
  let V := MX_sym (V_ idx) (nV nlp) in
  let X := map (state_block V (NLP.nx nlp) (NLP.nu nlp))
               (seq 0 (S (NLP.ns nlp))) in
  let U := map (control_block V (NLP.nx nlp) (NLP.nu nlp))
               (seq 0 (NLP.ns nlp)) in
  define_multiple_shooting_nodes_per_phase nlp idx s
  = (Ok (NLP.set_XU nlp X U),
     OCP.mk (OCP.nlp s) (OCP.is_cyclic_constraint s) (OCP.V s ++ V)
            (OCP.param_to_optimize_time s) (OCP.g s) (OCP.g_bounds s)) /\
  flat_map (fun k => state_block V (NLP.nx nlp) (NLP.nu nlp) k
                     ++ control_block V (NLP.nx nlp) (NLP.nu nlp) k)
           (seq 0 (NLP.ns nlp))
  ++ state_block V (NLP.nx nlp) (NLP.nu nlp) (NLP.ns nlp)
  = V /\
  Forall (fun x => length x = NLP.nx nlp) X /\
  Forall (fun u => length u = NLP.nu nlp) U.
Proof.
  intros V X U. split; [apply define_nodes_run |]. split; [| split].
  - rewrite node_blocks_tile. unfold state_block.
    rewrite <- firstn_plus. apply firstn_all2.
    subst V. rewrite length_MX_sym. unfold nV. nia.
  - exact (proj2 (proj2 (laid_out_nodes nlp idx))).
  - apply Forall_forall. intros u Hu. subst U.
    apply in_map_iff in Hu. destruct Hu as (k & <- & Hk).
    apply in_seq in Hk. unfold control_block.
    rewrite length_firstn, length_skipn. subst V. rewrite length_MX_sym.
    unfold nV. nia.
Qed.

(* ===================================================================== *)
(** * [__init_phase_time]: the four lists it returns                      *)
(* ===================================================================== *)

Lemma existsb_filter_nil {A} (f : A -> bool) (l : list A) :
  existsb f l = match filter f l with [] => false | _ :: _ => true end.
Proof.
  induction l as [| a l IH]; [reflexivity |]. cbn.
  destruct (f a); [reflexivity | exact IH].
Qed.

(** The objectives of phase [i], whose time on entry is [t]. *)
Lemma init_phase_time_objectives_run (i : nat) (t : Time)
  (objs : list ObjFun) :
  forall acc,
    nth_error (phase_time acc) i = Some t ->
    init_phase_time_objectives i objs acc
    = Ok (mkPhaseTimes
            (if existsb is_minimize_time objs
             then setitem (phase_time acc) i (time_symbol i)
             else phase_time acc)
            (initial_time_guess acc
             ++ match filter is_minimize_time objs with
                | [] => []
                | _ :: more => t :: map (fun _ => time_symbol i) more
                end)
            (time_min acc ++ map minimum_or_0 (filter is_minimize_time objs))
            (time_max acc
             ++ map maximum_or_inf (filter is_minimize_time objs))).
Proof.
  revert t. induction objs as [| o objs IH]; intros t acc Ht.
  - cbn. rewrite !app_nil_r. now destruct acc.
  - cbn [init_phase_time_objectives existsb filter].
    destruct (is_minimize_time o) eqn:Eo; cbn [orb]; [| now apply IH].
    assert (Hi : (i < length (phase_time acc))%nat)
      by (apply nth_error_Some; congruence).
    unfold result_bind.
    rewrite (getitem_nat _ t) by exact Hi.
    rewrite (nth_error_nth _ _ t Ht).
    rewrite (IH (time_symbol i))
      by (cbn [phase_time]; now apply nth_error_setitem_eq).
    cbn [phase_time initial_time_guess time_min time_max map].
    rewrite setitem_setitem, <- !app_assoc. cbn [app]. fold (time_symbol i).
    f_equal. f_equal.
    + now destruct (existsb is_minimize_time objs).
    + f_equal. f_equal.
      now destruct (filter is_minimize_time objs).
Qed.

(** The phases from number [length pre] on: the times before them are
    left alone. *)
Lemma init_phase_time_phases_run (nlps : list NLP.t) :
  forall (pre times : list Time) (acc : PhaseTimes),
    length times = length nlps ->
    phase_time acc = pre ++ times ->
    init_phase_time_phases (length pre) nlps acc
    = Ok (mkPhaseTimes
            (pre ++ freed_times (length pre) nlps times)
            (initial_time_guess acc ++ time_guesses (length pre) nlps times)
            (time_min acc
             ++ map minimum_or_0 (flat_map time_objectives nlps))
            (time_max acc
             ++ map maximum_or_inf (flat_map time_objectives nlps))).
Proof.
  induction nlps as [| p nlps IH]; intros pre times acc Hlen Hpt.
  - destruct times; [| discriminate]. cbn.
    rewrite app_nil_r in Hpt. rewrite !app_nil_r, <- Hpt. now destruct acc.
  - destruct times as [| t times]; [discriminate |].
    injection Hlen as Hlen.
    assert (Ht : nth_error (phase_time acc) (length pre) = Some t)
      by (rewrite Hpt, nth_error_app2, Nat.sub_diag by lia; reflexivity).
    cbn [init_phase_time_phases freed_times time_guesses flat_map].
    unfold phase_guesses, minimizes_time, time_objectives.
    specialize (IH (pre ++ [if minimizes_time p
                            then time_symbol (length pre) else t]) times).
    rewrite length_app in IH. cbn [length] in IH. rewrite Nat.add_1_r in IH.
    unfold minimizes_time in IH.
    destruct (NLP.objective_functions p) as [objs |].
    + unfold result_bind.
      rewrite init_phase_time_objectives_run with (t := t) by exact Ht.
      rewrite IH; [| exact Hlen |].
      * cbn [initial_time_guess time_min time_max].
        rewrite !map_app, <- !app_assoc. cbn [app]. reflexivity.
      * cbn [phase_time]. rewrite Hpt.
        destruct (existsb is_minimize_time objs).
        -- rewrite setitem_middle, <- app_assoc. reflexivity.
        -- rewrite <- app_assoc. reflexivity.
    + rewrite IH; [| exact Hlen | now rewrite Hpt, <- app_assoc].
      rewrite <- app_assoc. reflexivity.
Qed.

(** The whole function on one time per phase. *)
Lemma init_phase_time_run (nlps : list NLP.t) (times : list Time) :
  length times = length nlps ->
  init_phase_time nlps times
  = Ok (mkPhaseTimes
          (freed_times 0 nlps times)
          (time_guesses 0 nlps times)
          (map minimum_or_0 (flat_map time_objectives nlps))
          (map maximum_or_inf (flat_map time_objectives nlps))).
Proof.
  intros Hlen. unfold init_phase_time.
  exact (@init_phase_time_phases_run nlps [] times
           (mkPhaseTimes times [] [] []) Hlen eq_refl).
Qed.

Lemma nth_error_freed_times (nlps : list NLP.t) :
  forall i times k p t,
    nth_error nlps k = Some p ->
    nth_error times k = Some t ->
    nth_error (freed_times i nlps times) k
    = Some (if minimizes_time p then time_symbol (i + k) else t).
Proof.
  induction nlps as [| q nlps IH]; intros i times k p t Hp Ht.
  - now destruct k.
  - destruct times as [| u times]; [now destruct k |].
    destruct k as [| k]; cbn in Hp, Ht |- *.
    + injection Hp as ->. injection Ht as ->. now rewrite Nat.add_0_r.
    + rewrite (IH (S i) times k p t Hp Ht).
      now replace (S i + k)%nat with (i + S k)%nat by lia.
Qed.

Lemma length_freed_times (nlps : list NLP.t) :
  forall i times, length (freed_times i nlps times) = length times.
Proof.
  induction nlps as [| q nlps IH]; intros i [| u times]; cbn; auto.
Qed.

Lemma length_time_guesses (nlps : list NLP.t) :
  forall i times,
    length times = length nlps ->
    length (time_guesses i nlps times)
    = length (flat_map time_objectives nlps).
Proof.
  induction nlps as [| q nlps IH]; intros i [| u times] H;
    try discriminate; [reflexivity |].
  cbn [time_guesses flat_map]. rewrite !length_app, IH by (cbn in H; lia).
  unfold phase_guesses. destruct (time_objectives q); cbn;
    [reflexivity | now rewrite length_map].
Qed.

(** X2. Given one time per phase, [__init_phase_time] returns, and in
    the list of phase times it hands back the time of phase [k] is the
    fresh symbol [time_phase_k] when the phase has a MINIMIZE_TIME
    objective (Mayer or Lagrange) and the time given otherwise; the list
    keeps its length. *)
Theorem init_phase_time_frees_minimized_phases (nlps : list NLP.t)
  (times : list Time) :
  length times = length nlps ->
  exists r,
    init_phase_time nlps times = Ok r /\
    length (phase_time r) = length nlps /\
    forall k p t,
      nth_error nlps k = Some p ->
      nth_error times k = Some t ->
      nth_error (phase_time r) k
      = Some (if minimizes_time p then time_symbol k else t).
Proof.
  intros Hlen. eexists. split; [now apply init_phase_time_run |].
  cbn [phase_time]. split; [now rewrite length_freed_times |].
  intros k p t Hp Ht.
  now rewrite (@nth_error_freed_times nlps 0 times k p t Hp Ht).
Qed.

(** An instance: the second of two phases minimizes time. *)
Lemma init_phase_time_sample :
  exists r,
    init_phase_time
      [sample_with_objectives [mkObjFun OtherObjective None None];
       sample_with_objectives [mkObjFun Mayer_MINIMIZE_TIME None None]]
      [Num 2; Num 3] = Ok r /\
    phase_time r = [Num 2; time_symbol 1].
Proof.
  destruct (@init_phase_time_frees_minimized_phases
              [sample_with_objectives [mkObjFun OtherObjective None None];
               sample_with_objectives
                 [mkObjFun Mayer_MINIMIZE_TIME None None]]
              [Num 2; Num 3] eq_refl) as (r & Hrun & Hlen & Hk).
  exists r. split; [exact Hrun |].
  pose proof (Hk 0%nat _ _ eq_refl eq_refl) as H0.
  pose proof (Hk 1%nat _ _ eq_refl eq_refl) as H1.
  destruct (phase_time r) as [| a [| b [| c l]]]; try discriminate.
  cbn in H0, H1. congruence.
Defined.



Lemma getitem_beyond {A} (l : list A) (k : nat) :
  (length l <= k)%nat -> getitem l (Z.of_nat k) = Raise IndexError.
Proof.
  intros Hk. unfold getitem.
  destruct (Z.ltb_spec (Z.of_nat k) 0) as [Hneg | _]; [lia |].
  destruct (Z.ltb_spec (Z.of_nat k) 0) as [Hneg | _]; [lia |].
  rewrite Nat2Z.id. now apply nth_error_None in Hk as ->.
Qed.





(* ===================================================================== *)
(** * The proportional constraint                                         *)
(* ===================================================================== *)

Lemma proportional_row_run (nlp : NLP.t) (a b : nat) (coef : Q) (v : Vec)
  (s : OCP.t) :
  (a < length (expand (NLP.dof_mapping nlp) v))%nat ->
  (b < length (expand (NLP.dof_mapping nlp) v))%nat ->
  proportional_row nlp a b coef v s
  = (Ok tt, emit (proportional_row_of nlp (a, b, coef) v) s) /\
  length (proportional_row_of nlp (a, b, coef) v) = 1%nat.
Proof.
  intros Ha Hb. unfold proportional_row, proportional_row_of, entry.
  cbv zeta.
  destruct (nth_error (expand (NLP.dof_mapping nlp) v) a) as [va |] eqn:Ea;
    [| apply nth_error_None in Ea; lia].
  destruct (nth_error (expand (NLP.dof_mapping nlp) v) b) as [vb |] eqn:Eb;
    [| apply nth_error_None in Eb; lia].
  split; reflexivity.
Qed.

Lemma proportional_nodes_run (nlp : NLP.t) (triple : nat * nat * Q)
  (V : list Vec) (s : OCP.t) :
  Forall (fun v =>
    (fst (fst triple) < length (expand (NLP.dof_mapping nlp) v))%nat /\
    (snd (fst triple) < length (expand (NLP.dof_mapping nlp) v))%nat) V ->
  for_each V (proportional_row nlp (fst (fst triple)) (snd (fst triple))
                               (snd triple)) s
  = (Ok tt, emit (flat_map (proportional_row_of nlp triple) V) s) /\
  length (flat_map (proportional_row_of nlp triple) V) = length V.
Proof.
  intros HV. destruct triple as [[a b] coef]. cbn [fst snd] in *.
  rewrite Forall_forall in HV. split.
  - apply for_each_emit. intros v Hv s'.
    now apply proportional_row_run; apply HV.
  - induction V as [| v V IH]; [reflexivity |].
    cbn [flat_map length]. rewrite length_app, IH
      by (intros; apply HV; now right).
    destruct (HV v (or_introl eq_refl)) as [Ha Hb].
    now rewrite (proj2 (@proportional_row_run nlp a b coef v s Ha Hb)).
Qed.

Lemma indices_in_range_triple (nlp : NLP.t) (triples : list (nat * nat * Q))
  (V : list Vec) (triple : nat * nat * Q) :
  indices_in_range nlp triples V -> In triple triples ->
  Forall (fun v =>
    (fst (fst triple) < length (expand (NLP.dof_mapping nlp) v))%nat /\
    (snd (fst triple) < length (expand (NLP.dof_mapping nlp) v))%nat) V.
Proof.
  unfold indices_in_range. rewrite !Forall_forall. intros H Hin v Hv.
  specialize (H v Hv). rewrite Forall_forall in H. now apply H.
Qed.

Lemma length_proportional_rows (nlp : NLP.t) (triples : list (nat * nat * Q))
  (V : list Vec) :
  indices_in_range nlp triples V ->
  length (proportional_rows nlp triples V)
  = (length triples * length V)%nat.
Proof.
  intros H. unfold proportional_rows.
  assert (Hall : forall t, In t triples ->
            length (flat_map (proportional_row_of nlp t) V) = length V).
  { intros t Ht.
    apply (proj2 (@proportional_nodes_run nlp t V
                    (OCP.mk [] false [] [] [] Bounds.empty)
                    (@indices_in_range_triple nlp triples V t H Ht))). }
  clear H. induction triples as [| t l IH]; [reflexivity |].
  cbn [flat_map length]. rewrite length_app, Hall by now left.
  rewrite IH by (intros; apply Hall; now right). lia.
Qed.

Lemma proportional_triples_run (nlp : NLP.t) (triples : list (nat * nat * Q))
  (V : list Vec) (s : OCP.t) :
  indices_in_range nlp triples V ->
  for_each triples (fun elem =>
    let '(a, b, coef) := elem in
    for_each V (proportional_row nlp a b coef)) s
  = (Ok tt, emit (proportional_rows nlp triples V) s).
Proof.
  intros H. unfold proportional_rows. apply for_each_emit.
  intros [[a b] coef] Hin s'.
  apply (proj1 (@proportional_nodes_run nlp (a, b, coef) V s'
                  (@indices_in_range_triple nlp triples V (a, b, coef) H Hin))).
Qed.

(** X5. A proportional constraint given as a non-empty tuple of triples
    whose indices exist in every expanded node returns, having appended
    one row [v[a] - coef * v[b]] per triple and node, triple by triple
    and for each triple node by node, each row with the bound pair
    [(0, 0)]: [len(policy) * len(V)] rows in all. *)
Theorem proportional_rows_by_triple_then_node (nlp : NLP.t)
  (triples : list (nat * nat * Q)) (V : list Vec) (s : OCP.t) :
  triples <> [] ->
  indices_in_range nlp triples V ->
  proportional_variable nlp V (Triples triples) s
  = (Ok tt, emit (proportional_rows nlp triples V) s) /\
  length (proportional_rows nlp triples V)
  = (length triples * length V)%nat.
Proof.
  intros Hne H. split; [| now apply length_proportional_rows].
  destruct triples as [| t l]; [congruence |].
  unfold proportional_variable. now apply proportional_triples_run.
Qed.

Lemma proportional_rows_by_triple_then_node_sample :
  let nlp := phase_2_2_1 in
  let s := sample_ocp [nlp] false in
  let triples := [(0, 1, 1 # 2); (1, 0, 2 # 1)]%nat in
  proportional_variable nlp (NLP.X nlp) (Triples triples) s
  = (Ok tt, emit (proportional_rows nlp triples (NLP.X nlp)) s) /\
  length (proportional_rows nlp triples (NLP.X nlp)) = 6%nat.
Proof.
  cbv zeta.
  apply (@proportional_rows_by_triple_then_node phase_2_2_1
           [(0, 1, 1 # 2); (1, 0, 2 # 1)]%nat (NLP.X phase_2_2_1)
           (sample_ocp [phase_2_2_1] false)).
  - discriminate.
  - unfold indices_in_range. vm_compute.
    repeat (constructor; try lia).
Defined.

(** X6. A single triple is handled as the one-element tuple holding it:
    the two branches of [__proportional_variable] give the same result
    and the same object, also when an index is out of range. *)
Theorem proportional_single_triple_as_tuple (nlp : NLP.t) (V : list Vec)
  (a b : nat) (coef : Q) (s : OCP.t) :
  proportional_variable nlp V (Triple a b coef) s
  = proportional_variable nlp V (Triples [(a, b, coef)]) s.
Proof.
  unfold proportional_variable. cbn [for_each]. unfold bind, ret.
  destruct (for_each V (proportional_row nlp a b coef) s) as [[[] | e] s'];
    reflexivity.
Qed.

(* ===================================================================== *)
(** * The selectors START and END                                         *)
(* ===================================================================== *)

(** A loop whose body raises at one element ends there, with the object
    the earlier passes left. *)
Lemma for_each_stops {A} (pre post : list A) (a : A) (body : A -> Eff unit)
  (s s1 s2 : OCP.t) (e : exn) :
  for_each pre body s = (Ok tt, s1) ->
  body a s1 = (Raise e, s2) ->
  for_each (pre ++ a :: post) body s = (Raise e, s2).
Proof.
  revert s. induction pre as [| b pre IH]; intros s Hpre Ha.
  - cbn in Hpre. injection Hpre as <-.
    cbn [app for_each]. unfold bind. now rewrite Ha.
  - cbn [app for_each] in *. unfold bind in *.
    destruct (body b s) as [[[] | e'] s'] eqn:Eb; [| discriminate].
    now apply IH.
Qed.

Lemma end_refuses_control (nlp : NLP.t) (type : ConstraintType)
  (policy : Policy) (s : OCP.t) :
  needs_control type = true ->
  (NLP.ns nlp < length (NLP.X nlp))%nat ->
  exists msg,
    add_constraints_elem nlp (type, END, policy) s
    = (Raise (RuntimeError msg), s).
Proof.
  intros Ht Hns. unfold add_constraints_elem. cbv zeta.
  unfold bind at 1. unfold bind at 1. unfold lift at 1.
  rewrite (@getitem_nat _ (NLP.X nlp) (NLP.ns nlp) [] Hns). cbn [ret].
  destruct type; try discriminate; eexists; reflexivity.
Qed.

(** X7. A constraint on the controls (PROPORTIONAL_CONTROL or
    CONTACT_FORCE_GREATER_THAN) at the selector [END], on a phase that
    has its node [ns], makes [add_constraints] raise a RuntimeError: the
    rows of the constraints before it stay in the object, the refused
    constraint adds nothing and the constraints after it are not
    reached. *)
Theorem end_selector_refuses_control_constraints (nlp : NLP.t)
  (pre post : list ConstraintElem) (type : ConstraintType)
  (policy : Policy) (s s1 : OCP.t) :
  NLP.constraints nlp = pre ++ (type, END, policy) :: post ->
  needs_control type = true ->
  (NLP.ns nlp < length (NLP.X nlp))%nat ->
  for_each pre (add_constraints_elem nlp) s = (Ok tt, s1) ->
  exists msg, add_constraints nlp s = (Raise (RuntimeError msg), s1).
Proof.
  intros Hc Ht Hns Hpre.
  destruct (@end_refuses_control nlp type policy s1 Ht Hns) as [msg Hmsg].
  exists msg. unfold add_constraints. rewrite Hc.
  exact (@for_each_stops _ pre post (type, END, policy)
           (add_constraints_elem nlp) s s1 s1 (RuntimeError msg) Hpre Hmsg).
Qed.

Lemma end_selector_refuses_control_sample :
  let nlp := phase_end_control in
  let s := sample_ocp [nlp] false in
  exists msg,
    add_constraints nlp s
    = (Raise (RuntimeError msg),
       emit (coincidence_rows nlp 0 1 (NLP.X nlp)) s).
Proof.
  cbv zeta.
  apply (@end_selector_refuses_control_constraints phase_end_control
           [(MARKERS_TO_PAIR, ALL, Pair 0 1)]
           [(MARKERS_TO_PAIR, START, Pair 0 1)]
           PROPORTIONAL_CONTROL (Triple 0 0 1)
           (sample_ocp [phase_end_control] false)).
  - reflexivity.
  - reflexivity.
  - vm_compute. lia.
  - vm_compute. reflexivity.
Defined.

(** X8. On a phase whose nodes are laid out, a coincidence constraint at
    [END] appends the three rows of node [ns] alone; at [START] it
    appends the three rows of node 0 alone when the phase has a shooting
    interval; and on a phase with [ns = 0] the selector [START] raises
    IndexError whatever the constraint, because the code reads [U[0]]
    too, and leaves the object as it was. *)
Theorem start_and_end_select_one_node (nlp : NLP.t) (a b : nat)
  (s : OCP.t) :
  marker_3d nlp ->
  nodes_laid_out nlp ->
  (nb_reduced (NLP.dof_mapping nlp) <= NLP.nx nlp)%nat ->
  add_constraints_elem nlp (MARKERS_TO_PAIR, END, Pair a b) s
  = (Ok tt,
     emit (coincidence_rows nlp a b [nth (NLP.ns nlp) (NLP.X nlp) []]) s) /\
  length (coincidence_rows nlp a b [nth (NLP.ns nlp) (NLP.X nlp) []])
  = 3%nat /\
  ((0 < NLP.ns nlp)%nat ->
   add_constraints_elem nlp (MARKERS_TO_PAIR, START, Pair a b) s
   = (Ok tt, emit (coincidence_rows nlp a b [nth 0 (NLP.X nlp) []]) s)) /\
  (NLP.ns nlp = 0%nat ->
   forall type policy,
     add_constraints_elem nlp (type, START, policy) s
     = (Raise IndexError, s)).
Proof.
  intros Hm (HX & HU & Hnx) Hq.
  rewrite Forall_forall in Hnx.
  assert (Hnode : forall k, (k < S (NLP.ns nlp))%nat ->
            Forall (fun x => (nb_reduced (NLP.dof_mapping nlp)
                              <= length x)%nat)
                   [nth k (NLP.X nlp) []]).
  { intros k Hk. constructor; [| constructor].
    rewrite (Hnx (nth k (NLP.X nlp) [])); [exact Hq |].
    apply nth_In. lia. }
  split; [| split; [| split]].
  - unfold add_constraints_elem. cbv zeta.
    unfold bind at 1. unfold bind at 1. unfold lift at 1.
    rewrite (@getitem_nat _ (NLP.X nlp) (NLP.ns nlp) []) by lia.
    cbn [ret].
    apply markers_to_pair_run; [exact Hm | apply Hnode; lia].
  - unfold coincidence_rows. cbn [flat_map]. cbv zeta.
    rewrite app_nil_r, length_zip_sub by now rewrite !Hm.
    apply Hm.
  - intros Hns. unfold add_constraints_elem. cbv zeta.
    unfold bind at 1. unfold bind at 1. unfold lift at 1.
    change (getitem (NLP.X nlp) 0) with (getitem (NLP.X nlp) (Z.of_nat 0)).
    rewrite (@getitem_nat _ (NLP.X nlp) 0 []) by lia.
    unfold bind at 1. unfold lift at 1.
    change (getitem (NLP.U nlp) 0) with (getitem (NLP.U nlp) (Z.of_nat 0)).
    rewrite (@getitem_nat _ (NLP.U nlp) 0 []) by lia.
    cbn [ret].
    apply markers_to_pair_run; [exact Hm | apply Hnode; lia].
  - intros Hns type policy. unfold add_constraints_elem. cbv zeta.
    unfold bind at 1. unfold bind at 1. unfold lift at 1.
    change (getitem (NLP.X nlp) 0) with (getitem (NLP.X nlp) (Z.of_nat 0)).
    rewrite (@getitem_nat _ (NLP.X nlp) 0 []) by lia.
    unfold bind at 1. unfold lift at 1.
    change (getitem (NLP.U nlp) 0) with (getitem (NLP.U nlp) (Z.of_nat 0)).
    rewrite (@getitem_beyond _ (NLP.U nlp) 0) by lia.
    reflexivity.
Qed.

Lemma start_and_end_sample :
  let nlp := phase_0_2_1 in
  let s := sample_ocp [nlp] false in
  add_constraints_elem nlp (MARKERS_TO_PAIR, END, Pair 0 1) s
  = (Ok tt, emit (coincidence_rows nlp 0 1 (NLP.X nlp)) s) /\
  add_constraints_elem nlp (MARKERS_TO_PAIR, START, Pair 0 1) s
  = (Raise IndexError, s).
Proof.
  intros nlp s.
  assert (Hm : marker_3d nlp) by (intros q i; reflexivity).
  assert (Hl : nodes_laid_out nlp) by (vm_compute; repeat constructor).
  assert (Hq : (nb_reduced (NLP.dof_mapping nlp) <= NLP.nx nlp)%nat)
    by (vm_compute; lia).
  destruct (@start_and_end_select_one_node nlp 0 1 s Hm Hl Hq)
    as (Hend & _ & _ & Hstart).
  split; [exact Hend | now apply Hstart].
Defined.

(* ===================================================================== *)
(** * The continuity pass: what it raises                                 *)
(* ===================================================================== *)

(** A loop raises only what one of its passes raises. *)
Lemma for_each_raises_only {A} (R : exn -> Prop) (l : list A)
  (body : A -> Eff unit) :
  (forall a, In a l -> forall s e, fst (body a s) = Raise e -> R e) ->
  forall s e, fst (for_each l body s) = Raise e -> R e.
Proof.
  induction l as [| a l IH]; intros Hbody s e.
  - cbn. discriminate.
  - cbn [for_each]. unfold bind.
    destruct (body a s) as [[u | e'] s'] eqn:Eb; cbn [fst].
    + apply IH. intros a' Ha' s'' e'' Hr.
      exact (Hbody a' (or_intror Ha') s'' e'' Hr).
    + intros [= <-]. apply (Hbody a (or_introl eq_refl) s).
      now rewrite Eb.
Qed.

(** A loop that returns has had every pass return. *)
Lemma for_each_returns {A} (l : list A) (body : A -> Eff unit) (s : OCP.t) :
  fst (for_each l body s) = Ok tt ->
  forall a, In a l -> exists s', fst (body a s') = Ok tt.
Proof.
  revert s. induction l as [| b l IH]; intros s Hok a Hin; [destruct Hin |].
  cbn [for_each] in Hok. unfold bind in Hok.
  destruct (body b s) as [[[] | e'] s'] eqn:Eb; cbn [fst] in Hok;
    [| discriminate].
  destruct Hin as [<- | Hin].
  - exists s. now rewrite Eb.
  - now apply (IH s').
Qed.

(** Equal [nx] along every pair of neighbours makes the first and the
    last phase agree. *)
Lemma nx_chain (l : list NLP.t) (d : NLP.t) :
  (forall i, (S i < length l)%nat ->
             NLP.nx (nth i l d) = NLP.nx (nth (S i) l d)) ->
  NLP.nx (hd d l) = NLP.nx (last l d).
Proof.
  induction l as [| a l IH]; intros H; [reflexivity |].
  destruct l as [| b l]; [reflexivity |].
  change (last (a :: b :: l) d) with (last (b :: l) d).
  rewrite <- IH.
  - apply (H 0%nat). cbn [length]. lia.
  - intros i Hi. apply (H (S i)). cbn [length] in *. lia.
Qed.

Lemma getitem_raises {A} (l : list A) (i : Z) (e : exn) :
  getitem l i = Raise e -> e = IndexError.
Proof.
  unfold getitem. destruct (_ <? 0)%Z; [congruence |].
  destruct (nth_error l _); congruence.
Qed.

Lemma minus_raises (a b : Vec) (e : exn) :
  minus a b = Raise e -> e = RuntimeError "Dimension mismatch".
Proof.
  unfold minus. destruct (_ =? _)%nat; [discriminate |].
  destruct a as [| x [| x' a]], b as [| y [| y' b]]; congruence.
Qed.

Lemma nlp_dynamics_raises (nlp : NLP.t) (e : exn) :
  nlp_dynamics nlp = Raise e -> e = KeyError "dynamics".
Proof. unfold nlp_dynamics. destruct (NLP.dynamics nlp); congruence. Qed.

(** Case analysis of a run along its binds, naming what each pure
    operation raised. *)
Ltac raise_cases H :=
  repeat match type of H with
         | context [match ?x with _ => _ end] =>
             destruct x eqn:?; cbn [fst snd] in H
         end;
  try (rewrite append_zero_bounds_run in H; cbn [fst] in H);
  repeat match goal with
         | E : getitem _ _ = Raise _ |- _ => apply getitem_raises in E
         | E : minus _ _ = Raise _ |- _ => apply minus_raises in E
         | E : nlp_dynamics _ = Raise _ |- _ => apply nlp_dynamics_raises in E
         | E : append_zero_bounds (Z.of_nat _) _ = _ |- _ =>
             rewrite append_zero_bounds_run in E
         end.

Lemma interval_pass_raises (nlp : NLP.t) (k : Z) (s : OCP.t) (e : exn) :
  fst ((_ <- lift (nlp_dynamics nlp) ;;
        x0 <- lift (getitem (NLP.X nlp) k) ;;
        p <- lift (getitem (NLP.U nlp) k) ;;
        let end_node := NLP.xf nlp x0 p in
        x1 <- lift (getitem (NLP.X nlp) (k + 1)) ;;
        d <- lift (minus end_node x1) ;;
        g_vertcat d ;;
        append_zero_bounds (Z.of_nat (NLP.nx nlp))) s) = Raise e ->
  e = KeyError "dynamics" \/ e = IndexError \/
  e = RuntimeError "Dimension mismatch".
Proof.
  unfold bind, lift, g_vertcat. cbv zeta.
  intros H. raise_cases H; try congruence;
    injection H as <-; subst; auto.
Qed.

Lemma boundary_pass_raises (nlps : list NLP.t) (i : Z) (s : OCP.t)
  (e : exn) :
  fst ((nlp_i <- lift (getitem nlps i) ;;
        nlp_j <- lift (getitem nlps (i + 1)) ;;
        if negb (NLP.nx nlp_i =? NLP.nx nlp_j)%nat
        then raise (RuntimeError
                    "Phase constraints without same nx is not supported yet")
        else
          xl <- lift (getitem (NLP.X nlp_i) (-1)) ;;
          xr <- lift (getitem (NLP.X nlp_j) 0) ;;
          d <- lift (minus xl xr) ;;
          g_vertcat d ;;
          append_zero_bounds (Z.of_nat (NLP.nx nlp_i))) s) = Raise e ->
  e = phase_nx_error \/ e = IndexError \/
  e = RuntimeError "Dimension mismatch".
Proof.
  unfold bind, lift, raise, g_vertcat, phase_nx_error.
  intros H. raise_cases H; try congruence;
    injection H as <-; subst; auto.
Qed.

Lemma boundary_pass_returns (nlps : list NLP.t) (d : NLP.t) (i : nat)
  (s : OCP.t) :
  (S i < length nlps)%nat ->
  fst ((nlp_i <- lift (getitem nlps (Z.of_nat i)) ;;
        nlp_j <- lift (getitem nlps (Z.of_nat i + 1)) ;;
        if negb (NLP.nx nlp_i =? NLP.nx nlp_j)%nat
        then raise (RuntimeError
                    "Phase constraints without same nx is not supported yet")
        else
          xl <- lift (getitem (NLP.X nlp_i) (-1)) ;;
          xr <- lift (getitem (NLP.X nlp_j) 0) ;;
          d <- lift (minus xl xr) ;;
          g_vertcat d ;;
          append_zero_bounds (Z.of_nat (NLP.nx nlp_i))) s) = Ok tt ->
  NLP.nx (nth i nlps d) = NLP.nx (nth (S i) nlps d).
Proof.
  intros Hi. unfold bind at 1, lift at 1.
  rewrite (@getitem_nat _ nlps i d) by lia.
  unfold bind at 1, lift at 1.
  replace (Z.of_nat i + 1)%Z with (Z.of_nat (S i)) by lia.
  rewrite (@getitem_nat _ nlps (S i) d) by lia. cbv beta iota.
  destruct (Nat.eqb_spec (NLP.nx (nth i nlps d))
                         (NLP.nx (nth (S i) nlps d))) as [Heq | Hne];
    [intros _; exact Heq | cbn; discriminate].
Qed.

(** X9. The RuntimeError "Cyclic constraint without same nx is not
    supported yet" is never raised by [continuity_constraint], whatever
    the object: the cyclic test is reached only after the loop over the
    pairs of adjacent phases returned, which it does only when all phases
    agree on [nx]. *)
Theorem cyclic_nx_error_is_unreachable (s : OCP.t) :
  fst (continuity_constraint s) <> Raise cyclic_nx_error.
Proof.
  unfold continuity_constraint, cyclic_nx_error. intros H.
  unfold bind at 1 in H.
  destruct (for_each (OCP.nlp s) _ s) as [[[] | e1] s1] eqn:E1;
    cbn [fst] in H.
  2:{ injection H as Hcyc.
      set (R := fun e => e = KeyError "dynamics" \/ e = IndexError \/
                         e = RuntimeError "Dimension mismatch").
      assert (He : R e1);
        [| rewrite Hcyc in He; destruct He as [? | [? | ?]]; discriminate].
      match type of E1 with
      | for_each ?l ?body ?s0 = _ =>
          apply (@for_each_raises_only _ R l body) with (s := s0);
            [| now rewrite E1]
      end.
      intros nlp _ s' e'. apply (@for_each_raises_only _ R).
      intros k _ s'' e''. apply interval_pass_raises. }
  unfold bind at 1 in H.
  destruct (for_each (range (len (OCP.nlp s) - 1)) _ s1)
    as [[[] | e2] s2] eqn:E2; cbn [fst] in H.
  2:{ injection H as Hcyc.
      set (R := fun e => e = phase_nx_error \/ e = IndexError \/
                         e = RuntimeError "Dimension mismatch").
      assert (He : R e2);
        [| rewrite Hcyc in He; destruct He as [? | [? | ?]]; discriminate].
      match type of E2 with
      | for_each ?l ?body ?s0 = _ =>
          apply (@for_each_raises_only _ R l body) with (s := s0);
            [| now rewrite E2]
      end.
      intros i _ s' e'. apply boundary_pass_raises. }
  destruct (OCP.is_cyclic_constraint s); [| discriminate].
  destruct (OCP.nlp s) as [| first rest] eqn:El; [discriminate |].
  rewrite <- El in *.
  assert (Hne : OCP.nlp s <> []) by (rewrite El; discriminate).
  assert (Hchain : NLP.nx (hd first (OCP.nlp s))
                   = NLP.nx (last (OCP.nlp s) first)).
  { apply nx_chain. intros i Hi.
    replace (len (OCP.nlp s) - 1)%Z
      with (Z.of_nat (length (OCP.nlp s) - 1)) in E2
      by (unfold len; lia).
    rewrite range_of_nat in E2.
    match type of E2 with
    | for_each ?l ?body ?s0 = _ =>
        destruct (@for_each_returns _ l body s0) with (a := Z.of_nat i)
          as [s' Hs']; [now rewrite E2 | |]
    end.
    - apply in_map, in_seq. lia.
    - now apply boundary_pass_returns with (s := s'). }
  unfold bind at 1, lift at 1 in H.
  rewrite (getitem_first first Hne) in H.
  unfold bind at 1, lift at 1 in H.
  rewrite (getitem_last first Hne) in H. cbv beta iota in H.
  rewrite Hchain, Nat.eqb_refl in H. cbn [negb] in H.
  unfold bind, lift, g_vertcat in H.
  raise_cases H; try congruence; injection H as H; subst; discriminate.
Qed.

(* ===================================================================== *)
(** * The continuity pass on phases that disagree on [nx]                 *)
(* ===================================================================== *)

(** One pass of the loop over adjacent phases, on two laid-out phases
    with the same [nx]. *)
Lemma continuity_boundary_pass (nlps : list NLP.t) (d : NLP.t) (i : nat)
  (s : OCP.t) :
  (S i < length nlps)%nat ->
  nodes_laid_out (nth i nlps d) -> nodes_laid_out (nth (S i) nlps d) ->
  NLP.nx (nth i nlps d) = NLP.nx (nth (S i) nlps d) ->
  (nlp_i <- lift (getitem nlps (Z.of_nat i)) ;;
   nlp_j <- lift (getitem nlps (Z.of_nat i + 1)) ;;
   if negb (NLP.nx nlp_i =? NLP.nx nlp_j)%nat
   then raise (RuntimeError
                 "Phase constraints without same nx is not supported yet")
   else
     xl <- lift (getitem (NLP.X nlp_i) (-1)) ;;
     xr <- lift (getitem (NLP.X nlp_j) 0) ;;
     d <- lift (minus xl xr) ;;
     g_vertcat d ;;
     append_zero_bounds (Z.of_nat (NLP.nx nlp_i))) s
  = (Ok tt, emit (boundary_rows (nth i nlps d) (nth (S i) nlps d)) s).
Proof.
  intros Hi Ha Hb Hx.
  unfold bind at 1, lift at 1. rewrite (@getitem_nat _ nlps i d) by lia.
  unfold bind at 1, lift at 1.
  replace (Z.of_nat i + 1)%Z with (Z.of_nat (S i)) by lia.
  rewrite (@getitem_nat _ nlps (S i) d) by lia. cbv beta iota.
  rewrite <- Hx, Nat.eqb_refl. cbn [negb].
  unfold bind at 1, lift at 1.
  rewrite (@getitem_last _ (NLP.X (nth i nlps d)) ([] : Vec) (nodes_nonempty Ha)).
  unfold bind at 1, lift at 1.
  rewrite (@getitem_first _ (NLP.X (nth (S i) nlps d)) ([] : Vec) (nodes_nonempty Hb)).
  unfold bind at 1, lift at 1.
  rewrite minus_same_shape
    by (rewrite nodes_last_length, nodes_first_length by assumption;
        congruence).
  fold (boundary_rows (nth i nlps d) (nth (S i) nlps d)).
  rewrite <- (length_boundary_rows Ha Hb) by congruence.
  apply emit_block.
Qed.

Lemma continuity_boundary_refused (nlps : list NLP.t) (d : NLP.t) (i : nat)
  (s : OCP.t) :
  (S i < length nlps)%nat ->
  NLP.nx (nth i nlps d) <> NLP.nx (nth (S i) nlps d) ->
  (nlp_i <- lift (getitem nlps (Z.of_nat i)) ;;
   nlp_j <- lift (getitem nlps (Z.of_nat i + 1)) ;;
   if negb (NLP.nx nlp_i =? NLP.nx nlp_j)%nat
   then raise (RuntimeError
                 "Phase constraints without same nx is not supported yet")
   else
     xl <- lift (getitem (NLP.X nlp_i) (-1)) ;;
     xr <- lift (getitem (NLP.X nlp_j) 0) ;;
     d <- lift (minus xl xr) ;;
     g_vertcat d ;;
     append_zero_bounds (Z.of_nat (NLP.nx nlp_i))) s
  = (Raise phase_nx_error, s).
Proof.
  intros Hi Hx.
  unfold bind at 1, lift at 1. rewrite (@getitem_nat _ nlps i d) by lia.
  unfold bind at 1, lift at 1.
  replace (Z.of_nat i + 1)%Z with (Z.of_nat (S i)) by lia.
  rewrite (@getitem_nat _ nlps (S i) d) by lia. cbv beta iota.
  apply Nat.eqb_neq in Hx. rewrite Hx. reflexivity.
Qed.

Lemma flat_map_ext_in {A B} (f g : A -> list B) (l : list A) :
  (forall a, In a l -> f a = g a) -> flat_map f l = flat_map g l.
Proof.
  intros H. rewrite !flat_map_concat_map. f_equal. now apply map_ext_in.
Qed.

(** X10. On phases that are laid out with their dynamics bound, where the
    phases up to [a] agree on [nx] and the next phase [b] does not,
    [continuity_constraint] called on its own raises the RuntimeError
    "Phase constraints without same nx is not supported yet" and leaves
    in the object the rows it had appended: those of all the intervals
    of all the phases, then the boundary rows between the phases up to
    [a]. *)
Theorem continuity_stops_at_first_mismatch (s : OCP.t)
  (pre post : list NLP.t) (a b : NLP.t) (n : nat) :
  OCP.nlp s = pre ++ a :: b :: post ->
  Forall phase_ready (OCP.nlp s) ->
  Forall (fun p => NLP.nx p = n) (pre ++ [a]) ->
  NLP.nx b <> n ->
  continuity_constraint s
  = (Raise phase_nx_error,
     emit (intra_phase_rows (OCP.nlp s) ++ inter_phase_rows (pre ++ [a]))
          s).
Proof.
  intros El Hready Hx Hb.
  assert (Hnodes : forall p, In p (OCP.nlp s) -> nodes_laid_out p).
  { rewrite Forall_forall in Hready. intros p Hp.
    now destruct (Hready p Hp). }
  assert (Hlen : length (OCP.nlp s)
                 = S (S (length pre + length post))).
  { rewrite El, length_app. cbn [length]. lia. }
  assert (Hnth : forall i, (i <= length pre)%nat ->
            nth i (OCP.nlp s) a = nth i (pre ++ [a]) a).
  { intros i Hi. rewrite El.
    change (pre ++ a :: b :: post) with (pre ++ [a] ++ b :: post).
    rewrite app_assoc. apply app_nth1. rewrite length_app. cbn. lia. }
  assert (Hb' : nth (S (length pre)) (OCP.nlp s) a = b).
  { rewrite El.
    change (pre ++ a :: b :: post) with (pre ++ [a] ++ b :: post).
    rewrite app_assoc, app_nth2 by (rewrite length_app; cbn; lia).
    rewrite length_app. cbn [length].
    now replace (S (length pre) - (length pre + 1))%nat with 0%nat by lia. }
  assert (Hxi : forall i, (i <= length pre)%nat ->
            NLP.nx (nth i (OCP.nlp s) a) = n).
  { intros i Hi. rewrite Hnth by exact Hi.
    rewrite Forall_forall in Hx. apply Hx, nth_In.
    rewrite length_app. cbn. lia. }
  unfold continuity_constraint.
  unfold bind at 1.
  rewrite for_each_emit with (rows := phase_rows).
  2:{ intros nlp Hin s'. unfold phase_rows.
      apply for_range_emit. intros k Hk s''.
      rewrite Forall_forall in Hready.
      now apply continuity_interval_run; [apply Hready |]. }
  fold (intra_phase_rows (OCP.nlp s)).
  unfold bind at 1.
  replace (len (OCP.nlp s) - 1)%Z
    with (Z.of_nat (length pre + S (length post)))
    by (unfold len; lia).
  rewrite range_of_nat, seq_app, map_app. cbn [seq map plus].
  match goal with
  | |- context [for_each (?l1 ++ ?x :: ?l2) ?body ?s0] =>
      rewrite (@for_each_stops _ l1 l2 x body s0
                 (emit (inter_phase_rows (pre ++ [a])) s0)
                 (emit (inter_phase_rows (pre ++ [a])) s0)
                 phase_nx_error)
  end.
  - now rewrite emit_emit.
  - rewrite <- range_of_nat.
    rewrite for_range_emit
      with (rows := fun i => boundary_rows (nth i (OCP.nlp s) a)
                                           (nth (S i) (OCP.nlp s) a)).
    + f_equal. f_equal.
      rewrite <- (inter_phase_rows_by_index (pre ++ [a]) a).
      rewrite length_app. cbn [length].
      replace (length pre + 1 - 1)%nat with (length pre) by lia.
      apply flat_map_ext_in. intros i Hi. apply in_seq in Hi.
      now rewrite !Hnth by lia.
    + intros i Hi s'. apply continuity_boundary_pass.
      * lia.
      * apply Hnodes, nth_In. lia.
      * apply Hnodes, nth_In. lia.
      * now rewrite !Hxi by lia.
  - apply (@continuity_boundary_refused (OCP.nlp s) a (length pre)).
    + lia.
    + rewrite Hb', Hxi by lia. congruence.
Qed.

Lemma continuity_stops_at_first_mismatch_sample :
  let s := sample_ocp [phase_2_2_1; phase_2_2_1; phase_2_3_1] true in
  continuity_constraint s
  = (Raise phase_nx_error,
     emit (intra_phase_rows (OCP.nlp s)
           ++ inter_phase_rows [phase_2_2_1; phase_2_2_1]) s) /\
  length (intra_phase_rows (OCP.nlp s)
          ++ inter_phase_rows [phase_2_2_1; phase_2_2_1]) = 16%nat.
Proof.
  cbv zeta. split; [| reflexivity].
  apply (@continuity_stops_at_first_mismatch
           (sample_ocp [phase_2_2_1; phase_2_2_1; phase_2_3_1] true)
           [phase_2_2_1] [] phase_2_2_1 phase_2_3_1 2).
  - reflexivity.
  - repeat constructor; try (intros x0 p; reflexivity);
      try (vm_compute; discriminate).
  - repeat constructor.
  - vm_compute. lia.
Defined.

(* ===================================================================== *)
(** * Free times against their bounds                                     *)
(* ===================================================================== *)

Lemma minimizes_time_objectives (p : NLP.t) :
  (if minimizes_time p then 1 else 0)%nat
  = Nat.min 1 (length (time_objectives p)).
Proof.
  unfold minimizes_time, time_objectives.
  destruct (NLP.objective_functions p) as [objs |]; [| reflexivity].
  rewrite existsb_filter_nil.
  destruct (filter is_minimize_time objs); reflexivity.
Qed.

Lemma freed_times_symbols (nlps : list NLP.t) :
  forall i times,
    length times = length nlps ->
    Forall (fun t => is_MX t = false) times ->
    length (filter is_MX (freed_times i nlps times))
    = length (filter minimizes_time nlps).
Proof.
  induction nlps as [| q nlps IH]; intros i [| u times] Hlen Hnum;
    try discriminate; [reflexivity |].
  inversion Hnum as [| ? ? Hu Hrest]; subst.
  cbn [freed_times filter]. cbn in Hlen.
  destruct (minimizes_time q); cbn [time_symbol is_MX].
  - cbn [length]. f_equal. apply IH; [lia | assumption].
  - rewrite Hu. apply IH; [lia | assumption].
Qed.

Lemma length_filter_minimizes (nlps : list NLP.t) :
  length (filter minimizes_time nlps)
  = list_sum (map (fun p => Nat.min 1 (length (time_objectives p))) nlps).
Proof.
  induction nlps as [| q nlps IH]; [reflexivity |].
  unfold list_sum in *. cbn [filter map fold_right].
  rewrite <- IH, <- minimizes_time_objectives.
  destruct (minimizes_time q); reflexivity.
Qed.

Lemma length_all_time_objectives (nlps : list NLP.t) :
  length (flat_map time_objectives nlps)
  = list_sum (map (fun p => length (time_objectives p)) nlps).
Proof.
  induction nlps as [| q nlps IH]; [reflexivity |].
  unfold list_sum in *. cbn [flat_map map fold_right].
  now rewrite length_app, IH.
Qed.

(** X11. With numbers given as phase times, [__init_phase_time] hands
    back one symbol per phase that has a MINIMIZE_TIME objective but one
    initial guess (and one minimum and one maximum) per such objective:
    never fewer guesses than symbols, as many when no phase has two such
    objectives, and strictly more as soon as one phase has two. *)
Theorem init_phase_time_guesses_against_symbols (nlps : list NLP.t)
  (times : list Time) :
  length times = length nlps ->
  Forall (fun t => is_MX t = false) times ->
  exists r,
    init_phase_time nlps times = Ok r /\
    (length (filter is_MX (phase_time r))
     <= length (initial_time_guess r))%nat /\
    (Forall (fun p => (length (time_objectives p) <= 1)%nat) nlps ->
     length (filter is_MX (phase_time r))
     = length (initial_time_guess r)) /\
    (Exists (fun p => (2 <= length (time_objectives p))%nat) nlps ->
     (length (filter is_MX (phase_time r))
      < length (initial_time_guess r))%nat).
Proof.
  intros Hlen Hnum. eexists. split; [now apply init_phase_time_run |].
  cbn [phase_time initial_time_guess].
  rewrite (@freed_times_symbols nlps 0 times Hlen Hnum).
  rewrite (@length_time_guesses nlps 0 times Hlen).
  rewrite length_filter_minimizes, length_all_time_objectives.
  clear. unfold list_sum. split; [| split].
  - induction nlps as [| q nlps IH]; cbn [map fold_right]; lia.
  - intros H. induction H as [| q nlps Hq _ IH]; cbn [map fold_right]; lia.
  - intros H.
    assert (Hle : forall l : list NLP.t,
              (fold_right Nat.add 0%nat
                 (map (fun p => Nat.min 1 (length (time_objectives p))) l)
               <= fold_right Nat.add 0%nat
                    (map (fun p => length (time_objectives p)) l))%nat)
      by (intros l; induction l as [| q l IH]; cbn [map fold_right]; lia).
    induction H as [q nlps Hq | q nlps _ IH]; cbn [map fold_right].
    + specialize (Hle nlps). lia.
    + lia.
Qed.

Lemma init_phase_time_guesses_against_symbols_sample :
  let p := sample_with_objectives
             [mkObjFun Mayer_MINIMIZE_TIME None None;
              mkObjFun Lagrange_MINIMIZE_TIME None None] in
  exists r,
    init_phase_time [p] [Num 2] = Ok r /\
    length (filter is_MX (phase_time r)) = 1%nat /\
    length (initial_time_guess r) = 2%nat.
Proof.
  cbv zeta.
  assert (Hnum : Forall (fun t => is_MX t = false) [Num 2])
    by (repeat constructor).
  destruct (@init_phase_time_guesses_against_symbols
              [sample_with_objectives
                 [mkObjFun Mayer_MINIMIZE_TIME None None;
                  mkObjFun Lagrange_MINIMIZE_TIME None None]]
              [Num 2] eq_refl Hnum)
    as (r & Hr & _ & _ & _).
  exists r. split; [exact Hr |].
  vm_compute in Hr. injection Hr as <-. split; reflexivity.
Defined.

(* ===================================================================== *)
(** * Only equality rows                                                  *)
(* ===================================================================== *)








(* ===================================================================== *)
(** * Dicts                                                               *)
(* ===================================================================== *)

Lemma dict_get_setitem_same (d : dict) (k : string) (v : pyval) :
  dict_get (dict_setitem d k v) k = Some v.
Proof.
  induction d as [| [k' v'] d IH]; cbn.
  - now rewrite String.eqb_refl.
  - destruct (String.eqb k' k) eqn:E; cbn; rewrite E; [reflexivity | exact IH].
Qed.

Lemma dict_get_setitem_other (d : dict) (k k' : string) (v : pyval) :
  k' <> k -> dict_get (dict_setitem d k v) k' = dict_get d k'.
Proof.
  intros Hne. induction d as [| [k0 v0] d IH]; cbn.
  - apply String.eqb_neq in Hne. rewrite String.eqb_sym in Hne.
    now rewrite Hne.
  - destruct (String.eqb k0 k) eqn:E; cbn.
    + apply String.eqb_eq in E. subst k0.
      destruct (String.eqb k k') eqn:E'; [| reflexivity].
      apply String.eqb_eq in E'. congruence.
    + destruct (String.eqb k0 k'); [reflexivity | exact IH].
Qed.

Lemma dict_get_In (d : dict) (k : string) (v : pyval) :
  dict_get d k = Some v -> In k (map fst d).
Proof.
  induction d as [| [k' v'] d IH]; cbn; [discriminate |].
  destruct (String.eqb k' k) eqn:E.
  - apply String.eqb_eq in E. now left.
  - intros H. right. now apply IH.
Qed.

Lemma dict_get_without_key (d : dict) (k k' : string) :
  dict_get (without_key k d) k'
  = if String.eqb k k' then None else dict_get d k'.
Proof.
  unfold without_key. induction d as [| [k0 v0] d IH]; cbn.
  - now destruct (String.eqb k k').
  - destruct (String.eqb k0 k) eqn:E; cbn.
    + apply String.eqb_eq in E. subst k0. rewrite IH.
      now destruct (String.eqb k k').
    + rewrite IH. destruct (String.eqb k0 k') eqn:E'; [| reflexivity].
      apply String.eqb_eq in E'. subst k0.
      rewrite String.eqb_sym in E. now rewrite E.
Qed.

(** On a dict with distinct keys, [del d[k]] removes the key when it is
    there and raises KeyError when it is not. *)
Lemma dict_delitem_run (d : dict) (k : string) :
  wf_dict d ->
  dict_delitem d k
  = match dict_get d k with
    | Some _ => Ok (without_key k d)
    | None => Raise (KeyError k)
    end.
Proof.
  unfold wf_dict. induction d as [| [k' v'] d IH]; intros Hwf; cbn;
    [reflexivity |].
  inversion Hwf as [| ? ? Hnotin Hwf']; subst.
  destruct (String.eqb k' k) eqn:E; cbn.
  - apply String.eqb_eq in E. subst k'.
    rewrite forallb_filter_id; [reflexivity |].
    apply forallb_forall. intros [k0 v0] Hin. cbn.
    destruct (String.eqb k0 k) eqn:E0; [| reflexivity].
    apply String.eqb_eq in E0. subst k0. exfalso. apply Hnotin.
    now apply (in_map fst) in Hin.
  - rewrite IH by assumption.
    destruct (dict_get d k); reflexivity.
Qed.

Lemma dict_setitem_keys (d : dict) (k k0 : string) (v : pyval) :
  In k0 (map fst (dict_setitem d k v)) -> k0 = k \/ In k0 (map fst d).
Proof.
  induction d as [| [k' v'] d IH]; cbn; intros H.
  - destruct H as [<- | []]. now left.
  - destruct (String.eqb k' k) eqn:E; cbn in H.
    + now right.
    + destruct H as [<- | H]; [right; now left |].
      destruct (IH H) as [-> | H']; [now left | right; now right].
Qed.

Lemma wf_dict_setitem (d : dict) (k : string) (v : pyval) :
  wf_dict d -> wf_dict (dict_setitem d k v).
Proof.
  unfold wf_dict.
  induction d as [| [k' v'] d IH]; cbn; intros Hwf.
  - repeat constructor. intros [].
  - inversion Hwf as [| ? ? Hnotin Hwf']; subst.
    destruct (String.eqb k' k) eqn:E; cbn.
    + constructor; assumption.
    + constructor; [| now apply IH].
      intros Hin. destruct (dict_setitem_keys _ _ _ _ Hin) as [-> | H];
        [| contradiction].
      now rewrite String.eqb_refl in E.
Qed.

Lemma wf_dict_without_key (d : dict) (k : string) :
  wf_dict d -> wf_dict (without_key k d).
Proof.
  unfold wf_dict, without_key.
  induction d as [| [k' v'] d IH]; cbn; intros Hwf; [constructor |].
  inversion Hwf as [| ? ? Hnotin Hwf']; subst.
  destruct (String.eqb k' k); cbn; [now apply IH |].
  constructor; [| now apply IH].
  intros Hin. apply Hnotin. apply in_map_iff in Hin.
  destruct Hin as ([k0 v0] & Hk & Hin). apply filter_In in Hin.
  apply in_map_iff. exists (k0, v0). now split.
Qed.

(* ===================================================================== *)
(** * [__add_to_nlp]                                                      *)
(* ===================================================================== *)

(** Phase [k] after [set_each]. *)
Lemma nth_error_set_each (key : string) (nlps : list dict) :
  forall (vs : list pyval) (k : nat) (d : dict) (v : pyval),
    nth_error nlps k = Some d -> nth_error vs k = Some v ->
    nth_error (set_each nlps key vs) k = Some (dict_setitem d key v).
Proof.
  induction nlps as [| d0 nlps IH]; intros [| v0 vs] [| k] d v Hd Hv;
    try discriminate; cbn in *.
  - congruence.
  - now apply IH.
Qed.

Lemma length_set_each (key : string) (nlps : list dict) :
  forall vs, length (set_each nlps key vs) = length nlps.
Proof.
  induction nlps as [| d0 nlps IH]; intros [| v0 vs]; cbn; auto.
Qed.

(** The storing loop of [__add_to_nlp], from phase [length done] on. *)
Lemma store_loop_run (key : string) (nb : nat) (attrs : dict)
  (todo : list dict) :
  forall (etodo : list pyval) (done : list dict) (edone : list pyval),
    length done = length edone -> length todo = length etodo ->
    st_for_each (map Z.of_nat (seq (length done) (length todo)))
      (fun i => (v <- st_lift (getitem (edone ++ etodo) i) ;;
                 nlp_setitem i key v)%st)
      (Raw.mk nb (done ++ todo) attrs)
    = (Ok tt, Raw.mk nb (done ++ set_each todo key etodo) attrs).
Proof.
  induction todo as [| d todo IH]; intros [| v etodo] done edone Hd Ht;
    try discriminate; [reflexivity |].
  cbn [length seq map st_for_each set_each].
  unfold st_bind at 1. unfold st_bind at 1, st_lift at 1.
  rewrite Hd at 1. rewrite getitem_middle.
  unfold nlp_setitem at 1. cbn [Raw.nlp Raw.nb_phases Raw.attrs].
  rewrite getitem_middle, Nat2Z.id, setitem_middle.
  replace (done ++ dict_setitem d key v :: todo)
    with ((done ++ [dict_setitem d key v]) ++ todo)
    by now rewrite <- app_assoc.
  replace (edone ++ v :: etodo) with ((edone ++ [v]) ++ etodo)
    by now rewrite <- app_assoc.
  replace (S (length done)) with (length (done ++ [dict_setitem d key v]))
    by (rewrite length_app; cbn; lia).
  rewrite IH.
  - now rewrite <- app_assoc.
  - rewrite !length_app. cbn. lia.
  - cbn in Ht. lia.
Qed.

Lemma store_sequence_run (key : string) (elems : list pyval)
  (self : Raw.t) :
  one_dict_per_phase self ->
  length elems = Raw.nb_phases self ->
  st_for_each (range (Z.of_nat (Raw.nb_phases self)))
    (fun i => (v <- st_lift (getitem elems i) ;;
               nlp_setitem i key v)%st) self
  = (Ok tt, Raw.mk (Raw.nb_phases self)
                   (set_each (Raw.nlp self) key elems) (Raw.attrs self)).
Proof.
  intros Hone Hlen. unfold one_dict_per_phase in Hone.
  rewrite range_of_nat. destruct self as [nb nlps attrs].
  cbn [Raw.nlp Raw.nb_phases Raw.attrs] in *. subst nb.
  exact (@store_loop_run key (length nlps) attrs nlps elems [] [] eq_refl
           (eq_sym Hlen)).
Qed.

Lemma set_each_repeat (key : string) (v : pyval) (nlps : list dict)
  (n : nat) :
  (length nlps <= n)%nat ->
  set_each nlps key (repeat v n) = map (fun d => dict_setitem d key v) nlps.
Proof.
  revert n. induction nlps as [| d nlps IH]; intros [| n] Hn; cbn in *;
    try lia; try reflexivity.
  f_equal. apply IH. lia.
Qed.

Lemma store_same_as_sequence (key : string) (v : pyval) (n : nat)
  (l : list nat) :
  (forall i, In i l -> (i < n)%nat) ->
  forall s : Raw.t,
    st_for_each (map Z.of_nat l) (fun i => nlp_setitem i key v) s
    = st_for_each (map Z.of_nat l)
        (fun i => (v' <- st_lift (getitem (repeat v n) i) ;;
                   nlp_setitem i key v')%st) s.
Proof.
  induction l as [| i l IH]; intros Hin s; [reflexivity |].
  cbn [map st_for_each].
  unfold st_bind at 1. unfold st_bind at 1. unfold st_bind at 1.
  unfold st_lift at 1.
  rewrite (@getitem_nat _ (repeat v n) i PyNone)
    by (rewrite repeat_length; apply Hin; now left).
  rewrite nth_repeat_lt by (apply Hin; now left).
  destruct (nlp_setitem (Z.of_nat i) key v s) as [[[] | e] s'];
    [| reflexivity].
  apply IH. intros; apply Hin; now right.
Qed.

(** The loop that stores one value in every phase. *)
Lemma store_same_run (key : string) (v : pyval) (self : Raw.t) :
  one_dict_per_phase self ->
  st_for_each (range (Z.of_nat (Raw.nb_phases self)))
    (fun i => nlp_setitem i key v) self
  = (Ok tt, Raw.mk (Raw.nb_phases self)
                   (set_each (Raw.nlp self) key
                             (repeat v (Raw.nb_phases self)))
                   (Raw.attrs self)).
Proof.
  intros Hone.
  rewrite <- (@store_sequence_run key (repeat v (Raw.nb_phases self)) self
                Hone (repeat_length _ _)).
  rewrite range_of_nat.
  apply store_same_as_sequence.
  intros i Hi. apply in_seq in Hi. lia.
Qed.

(** The type check of [__add_to_nlp] reads the dicts and changes
    nothing. *)
Lemma type_check_run (name cls : string) (nlps : list dict) (self : Raw.t) :
  Forall (fun d => dict_contains d name = true) nlps ->
  st_for_each nlps (fun nlp =>
    (v <- st_lift (dict_getitem nlp name) ;;
     if negb (is_None v) && negb (isinstance v cls)
     then st_raise (RuntimeError
            ("Parameter " ++ name ++ " must be a " ++ str_of_class cls))
     else st_ret tt)%st) self
  = (if forallb (well_typed name cls) nlps
     then Ok tt
     else Raise (RuntimeError
            ("Parameter " ++ name ++ " must be a " ++ str_of_class cls)),
     self).
Proof.
  induction 1 as [| d nlps Hd _ IH]; [reflexivity |].
  cbn [st_for_each forallb]. unfold st_bind at 1. unfold st_bind at 1.
  unfold st_lift at 1, dict_getitem, well_typed.
  unfold dict_contains in Hd.
  destruct (dict_get d name) as [v |]; [| discriminate].
  rewrite <- negb_orb.
  destruct (is_None v || isinstance v cls); cbn [negb andb];
    [exact IH | reflexivity].
Qed.

(** X13. On an object with one dict per phase, [__add_to_nlp] given a
    list or tuple with one element per phase (and no type to check)
    returns: phase [k] now holds element [k] under [param_name], every
    other key of every phase dict is as before, and so are the number of
    phases and the other attributes. *)
Theorem add_to_nlp_sequence_stores_by_phase (name : string)
  (param : pyval) (elems : list pyval) (dup : bool) (self : Raw.t) :
  one_dict_per_phase self ->
  as_sequence param = Some elems ->
  length elems = Raw.nb_phases self ->
  exists self',
    add_to_nlp name param dup None self = (Ok tt, self') /\
    Raw.nb_phases self' = Raw.nb_phases self /\
    Raw.attrs self' = Raw.attrs self /\
    length (Raw.nlp self') = length (Raw.nlp self) /\
    forall k d v,
      nth_error (Raw.nlp self) k = Some d ->
      nth_error elems k = Some v ->
      exists d',
        nth_error (Raw.nlp self') k = Some d' /\
        dict_get d' name = Some v /\
        forall key, key <> name -> dict_get d' key = dict_get d key.
Proof.
  intros Hone Hseq Hlen.
  exists (Raw.mk (Raw.nb_phases self) (set_each (Raw.nlp self) name elems)
                 (Raw.attrs self)).
  split; [| split; [reflexivity | split; [reflexivity | split]]].
  - unfold add_to_nlp. cbv zeta. rewrite Hseq.
    unfold len. rewrite Hlen, Z.eqb_refl. cbn [negb].
    unfold st_bind at 1.
    now rewrite (@store_sequence_run name elems self Hone Hlen).
  - apply length_set_each.
  - intros k d v Hd Hv. exists (dict_setitem d name v).
    split; [now apply nth_error_set_each |].
    split; [apply dict_get_setitem_same |].
    intros key Hkey. now apply dict_get_setitem_other.
Qed.

Lemma add_to_nlp_sequence_sample :
  exists self',
    add_to_nlp "ns" (PyList [PyInt 10; PyInt 20]) false None (fresh 2)
    = (Ok tt, self') /\
    Raw.nlp self' = [[("ns"%string, PyInt 10)]; [("ns"%string, PyInt 20)]].
Proof.
  destruct (@add_to_nlp_sequence_stores_by_phase "ns"
              (PyList [PyInt 10; PyInt 20]) [PyInt 10; PyInt 20] false
              (fresh 2) eq_refl eq_refl eq_refl)
    as (self' & Hrun & _).
  exists self'. split; [exact Hrun |].
  vm_compute in Hrun. now injection Hrun as <-.
Defined.

(** X14. [__add_to_nlp] given a list or tuple whose length is not the
    number of phases raises the RuntimeError naming both sizes and leaves
    the object untouched, whatever the duplication flag and the type. *)
Theorem add_to_nlp_refuses_wrong_size (name : string) (param : pyval)
  (elems : list pyval) (dup : bool) (_type : option string)
  (self : Raw.t) :
  as_sequence param = Some elems ->
  length elems <> Raw.nb_phases self ->
  add_to_nlp name param dup _type self
  = (Raise (RuntimeError
       (name ++ " size(" ++ str_of_nat (length elems)
        ++ ") does not correspond to the number of phases("
        ++ str_of_nat (Raw.nb_phases self) ++ ").")), self).
Proof.
  intros Hseq Hlen. unfold add_to_nlp. cbv zeta. rewrite Hseq.
  unfold len.
  destruct (Z.eqb_spec (Z.of_nat (length elems))
                       (Z.of_nat (Raw.nb_phases self))) as [E | _];
    [lia |].
  reflexivity.
Qed.

Lemma add_to_nlp_refuses_wrong_size_sample :
  add_to_nlp "ns" (PyTuple [PyInt 10; PyInt 20; PyInt 30]) true None
             (fresh 2)
  = (Raise (RuntimeError
       "ns size(3) does not correspond to the number of phases(2)."),
     fresh 2).
Proof.
  apply (@add_to_nlp_refuses_wrong_size "ns"
           (PyTuple [PyInt 10; PyInt 20; PyInt 30])
           [PyInt 10; PyInt 20; PyInt 30] true None (fresh 2) eq_refl).
  vm_compute. lia.
Defined.

(** X15. [__add_to_nlp] given a value that is neither a list nor a
    tuple, on an object with one dict per phase: with one phase, or with
    the duplication flag set, every phase dict gets the value under
    [param_name] (nothing at all with zero phases); otherwise the call
    raises a RuntimeError and leaves the object untouched. *)
Theorem add_to_nlp_single_value (name : string) (param : pyval)
  (dup : bool) (self : Raw.t) :
  one_dict_per_phase self ->
  as_sequence param = None ->
  add_to_nlp name param dup None self
  = if (Raw.nb_phases self =? 1)%nat || dup
    then (Ok tt,
          Raw.mk (Raw.nb_phases self)
                 (map (fun d => dict_setitem d name param) (Raw.nlp self))
                 (Raw.attrs self))
    else (Raise (RuntimeError
            (name ++
             " must be a list or tuple when number of phase is not equal to 1")),
          self).
Proof.
  intros Hone Hseq. unfold add_to_nlp. cbv zeta. rewrite Hseq.
  unfold st_bind at 1.
  destruct (Nat.eqb_spec (Raw.nb_phases self) 1) as [E1 | _]; cbn [orb].
  - unfold one_dict_per_phase in Hone. rewrite E1 in Hone.
    destruct self as [nb [| d [| d' l]] attrs]; cbn in Hone;
      try discriminate.
    reflexivity.
  - destruct dup; [| reflexivity].
    rewrite (@store_same_run name param self Hone).
    rewrite set_each_repeat by (unfold one_dict_per_phase in Hone; lia).
    reflexivity.
Qed.

Lemma add_to_nlp_single_value_sample :
  add_to_nlp "ode_solver" (PyInt 0) true None (fresh 2)
  = (Ok tt,
     Raw.mk 2 [[("ode_solver"%string, PyInt 0)];
               [("ode_solver"%string, PyInt 0)]] []) /\
  add_to_nlp "ns" (PyInt 10) false None (fresh 0)
  = (Raise (RuntimeError
       "ns must be a list or tuple when number of phase is not equal to 1"),
     fresh 0).
Proof.
  split.
  - exact (@add_to_nlp_single_value "ode_solver" (PyInt 0) true (fresh 2)
             eq_refl eq_refl).
  - exact (@add_to_nlp_single_value "ns" (PyInt 10) false (fresh 0)
             eq_refl eq_refl).
Defined.

(** X16. The type check of [__add_to_nlp] comes after the values are
    stored: when the call without a type returns, the call with a type
    leaves the same object, values stored, and returns when every phase
    holds [None] or an instance of the type under [param_name], and
    raises a RuntimeError otherwise. *)
Theorem add_to_nlp_checks_type_after_storing (name : string)
  (param : pyval) (dup : bool) (cls : string) (self self' : Raw.t) :
  add_to_nlp name param dup None self = (Ok tt, self') ->
  Forall (fun d => dict_contains d name = true) (Raw.nlp self') ->
  add_to_nlp name param dup (Some cls) self
  = (if forallb (well_typed name cls) (Raw.nlp self')
     then Ok tt
     else Raise (RuntimeError
            ("Parameter " ++ name ++ " must be a " ++ str_of_class cls)),
     self').
Proof.
  unfold add_to_nlp. cbv zeta. intros Hrun Hkeys.
  unfold st_bind at 1 in Hrun. unfold st_bind at 1.
  match type of Hrun with
  | match ?m with _ => _ end = _ =>
      destruct m as [[[] | e] s1]; [| discriminate]
  end.
  unfold st_ret in Hrun. injection Hrun as ->.
  now apply type_check_run.
Qed.

Lemma add_to_nlp_checks_type_sample :
  let mapping := PyObj ["biorbd_optim.mapping.BidirectionalMapping"%string] 0
  in
  add_to_nlp "q_mapping" (PyList [mapping; PyInt 3]) false
             (Some "biorbd_optim.mapping.BidirectionalMapping"%string)
             (fresh 2)
  = (Raise (RuntimeError
       "Parameter q_mapping must be a <class 'biorbd_optim.mapping.BidirectionalMapping'>"),
     Raw.mk 2 [[("q_mapping"%string, mapping)];
               [("q_mapping"%string, PyInt 3)]] []).
Proof.
  cbv zeta.
  apply (@add_to_nlp_checks_type_after_storing "q_mapping"
           (PyList [PyObj ["biorbd_optim.mapping.BidirectionalMapping"%string]
                          0; PyInt 3])
           false "biorbd_optim.mapping.BidirectionalMapping" (fresh 2)
           (Raw.mk 2
              [[("q_mapping"%string,
                 PyObj ["biorbd_optim.mapping.BidirectionalMapping"%string]
                       0)];
               [("q_mapping"%string, PyInt 3)]] [])).
  - reflexivity.
  - repeat constructor.
Defined.

(* ===================================================================== *)
(** * [__init_penality]                                                   *)
(* ===================================================================== *)

(** X17. With one phase, [__init_penality] brings the three ways of
    giving penalties to the same stored value: a single non-empty dict
    [d], a tuple of dicts [(d, ...)] and a tuple holding such a tuple all
    leave a tuple of dicts under [penality_type] in the dict of phase 0
    ([(d,)] for the single dict), and the call returns. *)
Theorem init_penality_one_phase (d : dict) (more : list pyval)
  (penality_type : string) (self : Raw.t) :
  Raw.nb_phases self = 1%nat ->
  one_dict_per_phase self ->
  d <> [] ->
  let stored (v : pyval) :=
    (Ok tt,
     Raw.mk 1 (map (fun nlp => dict_setitem nlp penality_type v)
                   (Raw.nlp self))
            (Raw.attrs self)) in
  init_penality (PyDict d) penality_type self
  = stored (PyTuple [PyDict d]) /\
  init_penality (PyTuple (PyDict d :: more)) penality_type self
  = stored (PyTuple (PyDict d :: more)) /\
  init_penality (PyTuple [PyTuple (PyDict d :: more)]) penality_type self
  = stored (PyTuple (PyDict d :: more)).
Proof.
  intros Hnb Hone Hd. cbv zeta.
  assert (Hlen : (0 <? len d)%Z = true).
  { destruct d; [congruence |]. unfold len. cbn [length].
    apply Z.ltb_lt. lia. }
  assert (Hstore : forall v,
            add_to_nlp penality_type (PyTuple [v]) false None self
            = (Ok tt,
               Raw.mk 1 (map (fun nlp => dict_setitem nlp penality_type v)
                             (Raw.nlp self))
                      (Raw.attrs self))).
  { intros v. unfold one_dict_per_phase in Hone. rewrite Hnb in Hone.
    destruct self as [nb [| d0 [| d1 l]] attrs]; cbn in Hone, Hnb;
      try discriminate.
    subst nb. reflexivity. }
  split; [| split].
  - unfold init_penality. unfold st_bind at 1, st_lift at 1.
    cbn [py_len]. rewrite Hlen, Hnb. cbn [Nat.eqb is_dict].
    unfold st_bind at 1. unfold st_bind at 1, st_lift at 1.
    cbn [py_first getitem]. cbn. apply Hstore.
  - unfold init_penality. unfold st_bind at 1, st_lift at 1.
    cbn [py_len]. unfold len. cbn [length].
    replace (0 <? Z.of_nat (S (length more)))%Z with true
      by (symmetry; apply Z.ltb_lt; lia).
    rewrite Hnb. cbn [Nat.eqb is_dict].
    unfold st_bind at 1. unfold st_bind at 1, st_lift at 1.
    cbn. apply Hstore.
  - unfold init_penality. unfold st_bind at 1, st_lift at 1.
    cbn [py_len]. unfold len. cbn [length Z.of_nat Z.ltb Z.compare].
    rewrite Hnb. cbn [Nat.eqb is_dict].
    unfold st_bind at 1. unfold st_bind at 1, st_lift at 1.
    cbn. apply Hstore.
Qed.

Lemma init_penality_one_phase_sample :
  let d := [("type"%string, PyInt 0)] in
  init_penality (PyDict d) "constraints" (fresh 1)
  = (Ok tt, Raw.mk 1 [[("constraints"%string, PyTuple [PyDict d])]] []) /\
  init_penality (PyTuple [PyTuple [PyDict d]]) "constraints" (fresh 1)
  = (Ok tt, Raw.mk 1 [[("constraints"%string, PyTuple [PyDict d])]] []).
Proof.
  cbv zeta.
  assert (Hd : [("type"%string, PyInt 0)] <> ([] : dict)) by discriminate.
  destruct (@init_penality_one_phase [("type"%string, PyInt 0)] []
              "constraints" (fresh 1) eq_refl eq_refl Hd)
    as (H1 & _ & H3).
  split; [exact H1 | exact H3].
Defined.

Lemma phase_dict_check_run (penality_type : string) (elems : list pyval)
  (self : Raw.t) :
  st_for_each elems (fun constraint =>
    if is_dict constraint
    then st_raise (RuntimeError
           ("Each phase must declares its " ++ penality_type
            ++ " (even if it is empty)"))
    else st_ret tt) self
  = (if existsb is_dict elems
     then Raise (RuntimeError
            ("Each phase must declares its " ++ penality_type
             ++ " (even if it is empty)"))
     else Ok tt, self).
Proof.
  induction elems as [| v elems IH]; [reflexivity |].
  cbn [st_for_each existsb]. unfold st_bind.
  destruct (is_dict v); [reflexivity | exact IH].
Qed.

(** X18. With a number of phases other than one, [__init_penality]
    given a non-empty list or tuple: if one of its elements is a dict
    the call raises the RuntimeError "Each phase must declares its ..."
    and stores nothing; if none is, the call does what [__add_to_nlp]
    does with the list.  An empty list or tuple stores nothing and
    returns, whatever the number of phases. *)
Theorem init_penality_several_phases (penalities : pyval)
  (elems : list pyval) (penality_type : string) (self : Raw.t) :
  Raw.nb_phases self <> 1%nat ->
  as_sequence penalities = Some elems ->
  init_penality penalities penality_type self
  = match elems with
    | [] => (Ok tt, self)
    | _ :: _ =>
        if existsb is_dict elems
        then (Raise (RuntimeError
                ("Each phase must declares its " ++ penality_type
                 ++ " (even if it is empty)")), self)
        else add_to_nlp penality_type penalities false None self
    end.
Proof.
  intros Hnb Hseq.
  assert (Hlen : py_len penalities = Ok (len elems))
    by (destruct penalities; try discriminate; injection Hseq as ->;
        reflexivity).
  unfold init_penality. unfold st_bind at 1, st_lift at 1. rewrite Hlen.
  destruct elems as [| v elems]; [reflexivity |].
  replace (0 <? len (v :: elems))%Z with true
    by (symmetry; apply Z.ltb_lt; unfold len; cbn [length]; lia).
  apply Nat.eqb_neq in Hnb. rewrite Hnb, Hseq.
  unfold st_bind at 1. unfold st_bind at 1.
  rewrite phase_dict_check_run.
  destruct (existsb is_dict (v :: elems)); reflexivity.
Qed.

Lemma init_penality_several_phases_sample :
  init_penality (PyTuple [PyTuple []; PyDict [("type"%string, PyInt 0)]])
                "constraints" (fresh 2)
  = (Raise (RuntimeError
       "Each phase must declares its constraints (even if it is empty)"),
     fresh 2).
Proof.
  apply (@init_penality_several_phases
           (PyTuple [PyTuple []; PyDict [("type"%string, PyInt 0)]])
           [PyTuple []; PyDict [("type"%string, PyInt 0)]]
           "constraints" (fresh 2)).
  - vm_compute. lia.
  - reflexivity.
Defined.

(* ===================================================================== *)
(** * The initial time of the phases                                      *)
(* ===================================================================== *)

Lemma add_to_nlp_sequence_run (name : string) (elems : list pyval)
  (dup : bool) (self : Raw.t) :
  one_dict_per_phase self ->
  length elems = Raw.nb_phases self ->
  add_to_nlp name (PyList elems) dup None self
  = (Ok tt, Raw.mk (Raw.nb_phases self)
                   (set_each (Raw.nlp self) name elems) (Raw.attrs self)).
Proof.
  intros Hone Hlen. unfold add_to_nlp. cbv zeta. cbn [as_sequence].
  unfold len. rewrite Hlen, Z.eqb_refl. cbn [negb].
  unfold st_bind at 1.
  now rewrite (@store_sequence_run name elems self Hone Hlen).
Qed.

Lemma tf_of_all_but_run (nlps : list dict) (tfs : list pyval) :
  Forall2 (fun d tf => dict_get d "tf" = Some tf) nlps tfs ->
  forall i, tf_of_all_but (i + len nlps - 1) i nlps = Ok (removelast tfs).
Proof.
  induction 1 as [| d tf nlps tfs Hd Hrest IH]; intros i; [reflexivity |].
  cbn [tf_of_all_but].
  replace (i + len (d :: nlps) - 1)%Z with ((i + 1) + len nlps - 1)%Z
    by (unfold len; cbn [length]; lia).
  destruct nlps as [| d' nlps].
  - inversion Hrest; subst.
    replace (i + 1 + len (@nil dict) - 1)%Z with i by (unfold len; cbn; lia).
    rewrite Z.eqb_refl. reflexivity.
  - destruct (Z.eqb_spec i (i + 1 + len (d' :: nlps) - 1)) as [E | _];
      [unfold len in E; cbn [length] in E; lia |].
    cbn [negb]. unfold dict_getitem. rewrite Hd. cbn [result_bind].
    rewrite IH. cbn [result_bind].
    inversion Hrest; subst. reflexivity.
Qed.

(** X19. The entry ["t0"] the constructor stores (line 88): on an object
    with one dict per phase, each holding its ["tf"], phase 0 gets 0 and
    phase [k + 1] gets the ["tf"] of phase [k] alone, not the sum of the
    durations before it; with no phase at all the one-element list [[0]]
    is refused by [__add_to_nlp] with a RuntimeError. *)
Theorem t0_is_duration_of_previous_phase (self : Raw.t)
  (tfs : list pyval) :
  one_dict_per_phase self ->
  Forall2 (fun d tf => dict_get d "tf" = Some tf) (Raw.nlp self) tfs ->
  add_t0 self
  = match tfs with
    | [] =>
        (Raise (RuntimeError
           "t0 size(1) does not correspond to the number of phases(0)."),
         self)
    | _ :: _ =>
        (Ok tt,
         Raw.mk (Raw.nb_phases self)
                (set_each (Raw.nlp self) "t0" (PyInt 0 :: removelast tfs))
                (Raw.attrs self))
    end.
Proof.
  intros Hone Htf. unfold add_t0, t0_list.
  unfold st_bind at 1, st_lift at 1.
  pose proof (@tf_of_all_but_run (Raw.nlp self) tfs Htf 0) as Hrun.
  rewrite Z.add_0_l in Hrun. rewrite Hrun. cbn [result_bind].
  pose proof (Forall2_length Htf) as Hlen.
  unfold one_dict_per_phase in Hone.
  destruct tfs as [| tf tfs].
  - cbn [length] in Hlen.
    unfold add_to_nlp. cbv zeta. cbn [as_sequence].
    rewrite <- Hone, Hlen. reflexivity.
  - apply add_to_nlp_sequence_run; [exact Hone |].
    cbn [length]. rewrite <- Hone, Hlen.
    assert (Hrl : forall (a : pyval) l,
              S (length (removelast (a :: l))) = length (a :: l)).
    { intros a l. revert a. induction l as [| b l IHl]; intros a;
        [reflexivity |].
      change (removelast (a :: b :: l)) with (a :: removelast (b :: l)).
      cbn [length]. now rewrite IHl. }
    apply Hrl.
Qed.

Lemma t0_is_duration_of_previous_phase_sample :
  add_t0 (Raw.mk 3 [[("tf"%string, PyInt 2)]; [("tf"%string, PyInt 3)];
                    [("tf"%string, PyInt 5)]] [])
  = (Ok tt,
     Raw.mk 3 [[("tf"%string, PyInt 2); ("t0"%string, PyInt 0)];
               [("tf"%string, PyInt 3); ("t0"%string, PyInt 2)];
               [("tf"%string, PyInt 5); ("t0"%string, PyInt 3)]] []).
Proof.
  apply (@t0_is_duration_of_previous_phase
           (Raw.mk 3 [[("tf"%string, PyInt 2)]; [("tf"%string, PyInt 3)];
                      [("tf"%string, PyInt 5)]] [])
           [PyInt 2; PyInt 3; PyInt 5]).
  - reflexivity.
  - repeat constructor.
Defined.

(* ===================================================================== *)
(** * [_get_a_reduced_ocp] and [load]                                     *)
(* ===================================================================== *)

Lemma dict_get_strip (keys : list string) (d : dict) (k : string) :
  dict_get (strip keys d) k
  = if existsb (String.eqb k) keys then None else dict_get d k.
Proof.
  unfold strip. induction d as [| [k0 v0] d IH]; cbn.
  - now destruct (existsb _ keys).
  - destruct (existsb (String.eqb k0) keys) eqn:E0; cbn.
    + rewrite IH. destruct (String.eqb k0 k) eqn:E; [| reflexivity].
      apply String.eqb_eq in E. subst k0. now rewrite E0.
    + destruct (String.eqb k0 k) eqn:E; [| exact IH].
      apply String.eqb_eq in E. subst k0. now rewrite E0.
Qed.

Lemma strip_cons (k : string) (keys : list string) (d : dict) :
  strip keys (without_key k d) = strip (k :: keys) d.
Proof.
  unfold strip, without_key. induction d as [| [k0 v0] d IH];
    [reflexivity |].
  cbn [filter fst existsb].
  destruct (String.eqb k0 k) eqn:E; cbn [negb orb]; [exact IH |].
  cbn [filter fst]. destruct (existsb (String.eqb k0) keys); cbn [negb];
    [exact IH | now rewrite IH].
Qed.

Lemma strip_nil (d : dict) : strip [] d = d.
Proof.
  unfold strip. apply forallb_filter_id. apply forallb_forall.
  intros kv _. reflexivity.
Qed.

Lemma strip_setitem (keys : list string) (d : dict) (k : string)
  (v : pyval) :
  In k keys -> strip keys (dict_setitem d k v) = strip keys d.
Proof.
  intros Hin.
  assert (Hk : existsb (String.eqb k) keys = true)
    by (apply existsb_exists; exists k; split;
        [exact Hin | apply String.eqb_refl]).
  unfold strip. induction d as [| [k0 v0] d IH]; cbn.
  - now rewrite Hk.
  - destruct (String.eqb k0 k) eqn:E; cbn.
    + apply String.eqb_eq in E. subst k0. now rewrite Hk.
    + now rewrite IH.
Qed.

Lemma dict_contains_without_key (d : dict) (k k' : string) :
  k <> k' -> dict_contains d k' = true ->
  dict_contains (without_key k d) k' = true.
Proof.
  intros Hne. unfold dict_contains. rewrite dict_get_without_key.
  apply String.eqb_neq in Hne. now rewrite Hne.
Qed.

Lemma dict_delitem_present (d : dict) (k : string) :
  wf_dict d -> dict_contains d k = true ->
  dict_delitem d k = Ok (without_key k d).
Proof.
  intros Hwf Hk. rewrite dict_delitem_run by exact Hwf.
  unfold dict_contains in Hk. now destruct (dict_get d k).
Qed.

Lemma dict_delitem_absent (d : dict) (k : string) :
  dict_get d k = None -> dict_delitem d k = Raise (KeyError k).
Proof.
  induction d as [| [k' v'] d IH]; cbn; [reflexivity |].
  destruct (String.eqb k' k); [discriminate |].
  intros H. now rewrite IH.
Qed.

(** The deletions of the attributes, one after the other. *)
Lemma delattr_all_run (keys : list string) :
  forall attrs : dict,
    NoDup keys -> wf_dict attrs ->
    Forall (fun a => dict_contains attrs a = true) keys ->
    fold_left (fun r name => result_bind r (fun a => delattr a name))
              keys (Ok attrs)
    = Ok (strip keys attrs).
Proof.
  induction keys as [| k keys IH]; intros attrs Hnd Hwf Hall.
  - cbn. now rewrite strip_nil.
  - inversion Hnd as [| ? ? Hnotin Hnd']; subst.
    inversion Hall as [| ? ? Hk Hall']; subst.
    cbn [fold_left result_bind]. unfold delattr at 2.
    rewrite dict_delitem_present by assumption.
    rewrite IH.
    + now rewrite strip_cons.
    + exact Hnd'.
    + now apply wf_dict_without_key.
    + rewrite Forall_forall in *. intros a Ha.
      apply dict_contains_without_key; [| now apply Hall'].
      intros ->. contradiction.
Qed.

(** The deletions from the dict of phase [length pre]. *)
Lemma nlp_delitem_all_run (nb : nat) (attrs : dict) (pre post : list dict)
  (keys : list string) :
  forall d : dict,
    NoDup keys -> wf_dict d ->
    Forall (fun k => dict_contains d k = true) keys ->
    st_for_each keys (nlp_delitem (Z.of_nat (length pre)))
                (Raw.mk nb (pre ++ d :: post) attrs)
    = (Ok tt, Raw.mk nb (pre ++ strip keys d :: post) attrs).
Proof.
  induction keys as [| k keys IH]; intros d Hnd Hwf Hall.
  - cbn. now rewrite strip_nil.
  - inversion Hnd as [| ? ? Hnotin Hnd']; subst.
    inversion Hall as [| ? ? Hk Hall']; subst.
    cbn [st_for_each]. unfold st_bind at 1, nlp_delitem at 1.
    cbn [Raw.nlp Raw.nb_phases Raw.attrs].
    rewrite getitem_middle, dict_delitem_present by assumption.
    rewrite Nat2Z.id, setitem_middle.
    rewrite IH.
    + now rewrite strip_cons.
    + exact Hnd'.
    + now apply wf_dict_without_key.
    + rewrite Forall_forall in *. intros a Ha.
      apply dict_contains_without_key; [| now apply Hall'].
      intros ->. contradiction.
Qed.

(** A loop over the phases whose pass rewrites the dict of its phase. *)
Lemma phase_loop_run (body : Z -> St Raw.t unit) (f : dict -> dict)
  (P : dict -> Prop) :
  (forall nb attrs pre d post,
     P d ->
     body (Z.of_nat (length pre)) (Raw.mk nb (pre ++ d :: post) attrs)
     = (Ok tt, Raw.mk nb (pre ++ f d :: post) attrs)) ->
  forall (todo done : list dict) (nb : nat) (attrs : dict),
    Forall P todo ->
    st_for_each (map Z.of_nat (seq (length done) (length todo))) body
                (Raw.mk nb (done ++ todo) attrs)
    = (Ok tt, Raw.mk nb (done ++ map f todo) attrs).
Proof.
  intros Hbody.
  induction todo as [| d todo IH]; intros done nb attrs Hall;
    [reflexivity |].
  inversion Hall as [| ? ? Hd Hall']; subst.
  cbn [length seq map st_for_each]. unfold st_bind.
  rewrite Hbody by exact Hd.
  replace (done ++ f d :: todo) with ((done ++ [f d]) ++ todo)
    by now rewrite <- app_assoc.
  replace (S (length done)) with (length (done ++ [f d]))
    by (rewrite length_app; cbn; lia).
  rewrite IH by exact Hall'. now rewrite <- app_assoc.
Qed.

Lemma NoDup_reduced_keys : NoDup reduced_keys.
Proof.
  unfold reduced_keys.
  repeat (constructor;
          [cbn; intros H;
           repeat (destruct H as [H | H]; [discriminate |]); exact H |]).
  constructor.
Qed.

Lemma NoDup_reduced_attributes : NoDup reduced_attributes.
Proof.
  unfold reduced_attributes.
  repeat (constructor;
          [cbn; intros H;
           repeat (destruct H as [H | H]; [discriminate |]); exact H |]).
  constructor.
Qed.

(** One pass of the loop of [_get_a_reduced_ocp]. *)
Lemma reduce_pass_run (nb : nat) (attrs : dict) (pre post : list dict)
  (d : dict) :
  wf_dict d /\
  Forall (fun k => dict_contains d k = true)
         ["model"; "x"; "u"; "X"; "U"]%string ->
  (nlp_setitem (Z.of_nat (length pre)) "f_ext" (PyInt 0) ;;
   st_for_each reduced_keys (nlp_delitem (Z.of_nat (length pre))))%st
    (Raw.mk nb (pre ++ d :: post) attrs)
  = (Ok tt, Raw.mk nb (pre ++ strip reduced_keys d :: post) attrs).
Proof.
  intros [Hwf Hkeys].
  unfold st_bind, nlp_setitem. cbn [Raw.nlp Raw.nb_phases Raw.attrs].
  rewrite getitem_middle, Nat2Z.id, setitem_middle.
  rewrite nlp_delitem_all_run.
  - rewrite strip_setitem; [reflexivity |].
    unfold reduced_keys. cbn. auto 10.
  - exact NoDup_reduced_keys.
  - now apply wf_dict_setitem.
  - unfold reduced_keys.
    rewrite Forall_forall in Hkeys.
    assert (Hother : forall k, In k ["model"; "x"; "u"; "X"; "U"]%string ->
              dict_contains (dict_setitem d "f_ext" (PyInt 0)) k = true).
    { intros k Hk. unfold dict_contains.
      rewrite dict_get_setitem_other.
      - exact (Hkeys k Hk).
      - cbn in Hk.
        repeat (destruct Hk as [<- | Hk]; [discriminate |]). destruct Hk. }
    repeat (constructor; [solve [apply Hother; cbn; auto 10] |]).
    constructor; [| constructor].
    unfold dict_contains. now rewrite dict_get_setitem_same.
Qed.

Lemma get_a_reduced_ocp_run (self : Raw.t) :
  reducible self ->
  get_a_reduced_ocp self
  = (Ok (Raw.mk (Raw.nb_phases self)
                (map (strip reduced_keys) (Raw.nlp self))
                (strip reduced_attributes (Raw.attrs self))),
     Raw.mk (Raw.nb_phases self)
            (map (strip reduced_keys) (Raw.nlp self))
            (Raw.attrs self)).
Proof.
  intros (Hwf & Hattrs & Hphases).
  unfold get_a_reduced_ocp. unfold st_bind at 1, st_lift at 1.
  rewrite delattr_all_run
    by (try exact NoDup_reduced_attributes; assumption).
  unfold st_bind at 1. unfold len. rewrite range_of_nat.
  destruct self as [nb nlps attrs].
  cbn [Raw.nlp Raw.nb_phases Raw.attrs] in *.
  pose proof (@phase_loop_run
             (fun i => (nlp_setitem i "f_ext" (PyInt 0) ;;
                        st_for_each reduced_keys (nlp_delitem i))%st)
             (strip reduced_keys)
             (fun d => wf_dict d /\
                       Forall (fun k => dict_contains d k = true)
                              ["model"; "x"; "u"; "X"; "U"]%string)
             (fun nb attrs pre d post H =>
                @reduce_pass_run nb attrs pre post d H)
             nlps [] nb attrs Hphases) as Hloop.
  cbn [length app] in Hloop. rewrite Hloop.
  reflexivity.
Qed.

(** X20. On a constructed object (distinct keys, the nine attributes
    and in every phase dict the keys model, x, u, X, U present)
    [_get_a_reduced_ocp] returns a copy without the nine attributes and
    with every other attribute; the object itself keeps all its
    attributes, but its phase dicts ARE those of the copy: every phase
    dict of the object has lost model, x, u, X, U (and f_ext) and kept
    every other key. *)
Theorem reduced_ocp_shares_phase_dicts (self : Raw.t) :
  reducible self ->
  exists reduced self',
    get_a_reduced_ocp self = (Ok reduced, self') /\
    Raw.attrs self' = Raw.attrs self /\
    Raw.nlp self' = Raw.nlp reduced /\
    length (Raw.nlp self') = length (Raw.nlp self) /\
    (forall a,
       dict_get (Raw.attrs reduced) a
       = if existsb (String.eqb a) reduced_attributes then None
         else dict_get (Raw.attrs self) a) /\
    (forall i d, nth_error (Raw.nlp self) i = Some d ->
       exists d',
         nth_error (Raw.nlp self') i = Some d' /\
         forall k,
           dict_get d' k
           = if existsb (String.eqb k) reduced_keys then None
             else dict_get d k).
Proof.
  intros Hred. eexists. eexists.
  split; [now apply get_a_reduced_ocp_run |].
  cbn [Raw.attrs Raw.nlp].
  split; [reflexivity | split; [reflexivity | split; [| split]]].
  - apply length_map.
  - intros a. apply dict_get_strip.
  - intros i d Hd. exists (strip reduced_keys d).
    split; [now apply map_nth_error |].
    intros k. apply dict_get_strip.
Qed.

Lemma reducible_sample_raw : reducible sample_raw.
Proof.
  unfold reducible, wf_dict, sample_raw.
  cbn [Raw.attrs Raw.nlp map fst].
  assert (Hnd : forall l : list string,
            (fix distinct (l : list string) : bool :=
               match l with
               | [] => true
               | k :: l' => negb (existsb (String.eqb k) l') && distinct l'
               end) l = true -> NoDup l).
  { induction l as [| k l IH]; [constructor |].
    intros H. apply andb_prop in H as [Hk Hl].
    constructor; [| now apply IH].
    intros Hin. apply negb_true_iff in Hk.
    assert (Hex : existsb (String.eqb k) l = true)
      by (apply existsb_exists; exists k; split;
          [exact Hin | apply String.eqb_refl]).
    congruence. }
  split; [apply Hnd; reflexivity |].
  split; [repeat constructor |].
  constructor; [| constructor].
  split; [apply Hnd; reflexivity | repeat constructor].
Qed.

Lemma reduced_ocp_shares_phase_dicts_sample :
  exists reduced self',
    get_a_reduced_ocp sample_raw = (Ok reduced, self') /\
    Raw.attrs self' = Raw.attrs sample_raw /\
    Raw.nlp self' = Raw.nlp reduced.
Proof.
  destruct (@reduced_ocp_shares_phase_dicts sample_raw
              reducible_sample_raw)
    as (reduced & self' & Hrun & Hattrs & Hnlp & _).
  exists reduced, self'. split; [exact Hrun | split; assumption].
Defined.

Lemma st_bind_raises {S A B} (m : St S A) (k : A -> St S B) (s s' : S)
  (e : exn) :
  m s = (Raise e, s') -> st_bind m k s = (Raise e, s').
Proof. intros H. unfold st_bind. now rewrite H. Qed.

Lemma st_for_each_first_raises {S A} (body : A -> St S unit) (a : A)
  (l : list A) (s s' : S) (e : exn) :
  body a s = (Raise e, s') -> st_for_each (a :: l) body s = (Raise e, s').
Proof. intros H. cbn [st_for_each]. now apply st_bind_raises. Qed.

(** The pass of phase 0 on a dict without ["model"]. *)
Lemma reduce_pass_without_model (nb : nat) (attrs : dict) (d : dict)
  (rest : list dict) :
  dict_get d "model" = None ->
  (nlp_setitem 0 "f_ext" (PyInt 0) ;;
   st_for_each reduced_keys (nlp_delitem 0))%st
    (Raw.mk nb (d :: rest) attrs)
  = (Raise (KeyError "model"),
     Raw.mk nb (dict_setitem d "f_ext" (PyInt 0) :: rest) attrs).
Proof.
  intros Hd. unfold st_bind, nlp_setitem. cbn.
  unfold st_bind, nlp_delitem. cbn.
  rewrite dict_delitem_absent; [reflexivity |].
  now rewrite dict_get_setitem_other by discriminate.
Qed.

(** X21. [_get_a_reduced_ocp] cannot be taken twice: after a first call
    on a constructed object with at least one phase, a second call on
    the same object raises KeyError for ["model"], and leaves
    ["f_ext"] = 0 written in the dict of phase 0. *)
Theorem reduced_ocp_cannot_be_taken_twice (self : Raw.t) :
  reducible self ->
  Raw.nlp self <> [] ->
  exists reduced self' self'' d rest,
    get_a_reduced_ocp self = (Ok reduced, self') /\
    get_a_reduced_ocp self' = (Raise (KeyError "model"), self'') /\
    Raw.nlp self'' = d :: rest /\
    dict_get d "f_ext" = Some (PyInt 0).
Proof.
  intros Hred Hne.
  pose proof (get_a_reduced_ocp_run Hred) as Hrun.
  destruct Hred as (Hwf & Hattrs & Hphases).
  destruct self as [nb [| d0 rest] attrs]; [cbn in Hne; congruence |].
  cbn [Raw.nlp Raw.nb_phases Raw.attrs map] in *.
  eexists. eexists.
  exists (Raw.mk nb
            (dict_setitem (strip reduced_keys d0) "f_ext" (PyInt 0)
             :: map (strip reduced_keys) rest) attrs).
  exists (dict_setitem (strip reduced_keys d0) "f_ext" (PyInt 0)).
  exists (map (strip reduced_keys) rest).
  split; [exact Hrun |].
  split; [| split; [reflexivity | apply dict_get_setitem_same]].
  unfold get_a_reduced_ocp. unfold st_bind at 1, st_lift at 1.
  cbn [Raw.attrs].
  rewrite delattr_all_run
    by (try exact NoDup_reduced_attributes; assumption).
  apply st_bind_raises. cbn [Raw.nlp].
  unfold len. rewrite range_of_nat. cbn [length seq map].
  apply st_for_each_first_raises.
  apply (@reduce_pass_without_model nb attrs (strip reduced_keys d0)
           (map (strip reduced_keys) rest)).
  now rewrite dict_get_strip.
Qed.

Lemma reduced_ocp_cannot_be_taken_twice_sample :
  exists reduced self' self'',
    get_a_reduced_ocp sample_raw = (Ok reduced, self') /\
    get_a_reduced_ocp self' = (Raise (KeyError "model"), self'').
Proof.
  assert (Hne : Raw.nlp sample_raw <> []) by discriminate.
  destruct (@reduced_ocp_cannot_be_taken_twice sample_raw
              reducible_sample_raw Hne)
    as (reduced & self' & self'' & d & rest & H1 & H2 & _).
  exists reduced, self', self''. split; assumption.
Defined.

Lemma load_model_pass (Model : pyval -> result pyval) (path m : pyval)
  (nb : nat) (attrs : dict) (pre : list dict) (d : dict)
  (post : list dict) :
  Model path = Ok m ->
  (m <- st_lift (Model path) ;;
   nlp_setitem (Z.of_nat (length pre)) "model" m)%st
    (Raw.mk nb (pre ++ d :: post) attrs)
  = (Ok tt, Raw.mk nb (pre ++ dict_setitem d "model" m :: post) attrs).
Proof.
  intros Hm. unfold st_bind, st_lift. rewrite Hm.
  unfold nlp_setitem. cbn [Raw.nlp Raw.nb_phases Raw.attrs].
  now rewrite getitem_middle, Nat2Z.id, setitem_middle.
Qed.

(** X22. [load], from the unpickled object on: with no phase it raises
    IndexError and changes nothing; with a first phase holding ["nx"]
    and ["nu"] (and the two symbols and the model built without error)
    it sets the two symbolic attributes and stores under ["model"] the
    model of the one path given in EVERY phase dict, leaving the other
    keys as they are. *)
Theorem load_gives_every_phase_the_model
  (MX_sym_1 : string -> pyval -> result pyval)
  (Model : pyval -> result pyval) (path : pyval) (ocp : Raw.t) :
  (Raw.nlp ocp = [] ->
   load MX_sym_1 Model path ocp = (Raise IndexError, ocp)) /\
  (forall d rest nx nu x u m,
     Raw.nlp ocp = d :: rest ->
     dict_get d "nx" = Some nx -> dict_get d "nu" = Some nu ->
     MX_sym_1 "x"%string nx = Ok x -> MX_sym_1 "u"%string nu = Ok u ->
     Model path = Ok m ->
     load MX_sym_1 Model path ocp
     = (Ok tt,
        Raw.mk (Raw.nb_phases ocp)
               (map (fun d => dict_setitem d "model" m) (Raw.nlp ocp))
               (dict_setitem
                  (dict_setitem (Raw.attrs ocp) "symbolic_states" x)
                  "symbolic_controls" u))).
Proof.
  split.
  - intros Hnil. unfold load. unfold st_bind at 1, nlp_getitem at 1.
    now rewrite Hnil.
  - intros d rest nx nu x u m Hnlp Hnx Hnu Hx Hu Hm.
    unfold load. unfold st_bind at 1, nlp_getitem at 1.
    rewrite Hnlp. cbn [getitem Z.ltb Z.compare Z.to_nat nth_error].
    cbn [result_bind]. unfold dict_getitem at 1. rewrite Hnx.
    unfold st_bind at 1, st_lift at 1. rewrite Hx.
    unfold st_bind at 1.
    unfold st_bind at 1, nlp_getitem at 1. cbn [Raw.nlp].
    rewrite Hnlp. cbn [getitem Z.ltb Z.compare Z.to_nat nth_error].
    cbn [result_bind]. unfold dict_getitem at 1. rewrite Hnu.
    unfold st_bind at 1, st_lift at 1. rewrite Hu.
    unfold st_bind at 1. cbn [Raw.nlp Raw.nb_phases Raw.attrs].
    unfold len. rewrite range_of_nat.
    destruct ocp as [nb nlps attrs].
    cbn [Raw.nlp Raw.nb_phases Raw.attrs] in *. subst nlps.
    exact (@phase_loop_run
             (fun i => (m <- st_lift (Model path) ;;
                        nlp_setitem i "model" m)%st)
             (fun d => dict_setitem d "model" m)
             (fun _ => True)
             (fun nb attrs pre d post _ =>
                @load_model_pass Model path m nb attrs pre d post Hm)
             (d :: rest) [] nb _
             (proj2 (Forall_forall _ _) (fun _ _ => I))).
Qed.

Lemma load_gives_every_phase_the_model_sample :
  let MX_sym_1 := fun (name : string) (n : pyval) =>
                    Ok (PyObj ["casadi.MX"%string] 0) in
  let Model := fun path : pyval => Ok (PyObj ["biorbd.Model"%string] 1) in
  let ocp := Raw.mk 2 [[("nx", PyInt 4); ("nu", PyInt 2)];
                       [("nx", PyInt 4); ("nu", PyInt 2)]]%string [] in
  load MX_sym_1 Model (PyStr "arm.bioMod") (Raw.mk 0 [] [])
  = (Raise IndexError, Raw.mk 0 [] []) /\
  load MX_sym_1 Model (PyStr "arm.bioMod") ocp
  = (Ok tt,
     Raw.mk 2
       [[("nx", PyInt 4); ("nu", PyInt 2);
         ("model", PyObj ["biorbd.Model"] 1)];
        [("nx", PyInt 4); ("nu", PyInt 2);
         ("model", PyObj ["biorbd.Model"] 1)]]%string
       [("symbolic_states", PyObj ["casadi.MX"] 0);
        ("symbolic_controls", PyObj ["casadi.MX"] 0)]%string).
Proof.
  cbv zeta. split.
  - apply (proj1 (@load_gives_every_phase_the_model
                    (fun _ _ => Ok (PyObj ["casadi.MX"%string] 0))
                    (fun _ => Ok (PyObj ["biorbd.Model"%string] 1))
                    (PyStr "arm.bioMod") (Raw.mk 0 [] []))).
    reflexivity.
  - apply (proj2 (@load_gives_every_phase_the_model
                    (fun _ _ => Ok (PyObj ["casadi.MX"%string] 0))
                    (fun _ => Ok (PyObj ["biorbd.Model"%string] 1))
                    (PyStr "arm.bioMod")
                    (Raw.mk 2 [[("nx", PyInt 4); ("nu", PyInt 2)];
                               [("nx", PyInt 4); ("nu", PyInt 2)]]%string
                            []))
             [("nx", PyInt 4); ("nu", PyInt 2)]%string
             [[("nx", PyInt 4); ("nu", PyInt 2)]]%string
             (PyInt 4) (PyInt 2)
             (PyObj ["casadi.MX"%string] 0) (PyObj ["casadi.MX"%string] 0)
             (PyObj ["biorbd.Model"%string] 1));
      reflexivity.
Defined.

(* ===================================================================== *)
(** * The helpers keep the object well formed                             *)
(* ===================================================================== *)

Section StPreservation.
Variable S : Type.
Variable P : S -> Prop.

Lemma st_preserves_ret {A} (a : A) : st_preserves P (st_ret a).
Proof. intros s Hs. exact Hs. Qed.

Lemma st_preserves_raise {A} (e : exn) : st_preserves P (@st_raise S A e).
Proof. intros s Hs. exact Hs. Qed.

Lemma st_preserves_lift {A} (r : result A) : st_preserves P (st_lift r).
Proof. intros s Hs. exact Hs. Qed.

Lemma st_preserves_bind {A B} (m : St S A) (k : A -> St S B) :
  st_preserves P m -> (forall a, st_preserves P (k a)) ->
  st_preserves P (st_bind m k).
Proof.
  intros Hm Hk s Hs. unfold st_bind. specialize (Hm s Hs).
  destruct (m s) as [[a | e] s']; cbn [snd] in *; [now apply Hk | exact Hm].
Qed.

Lemma st_preserves_for_each {A} (l : list A) (body : A -> St S unit) :
  (forall a, In a l -> st_preserves P (body a)) ->
  st_preserves P (st_for_each l body).
Proof.
  induction l as [| a l IH]; intros Hbody; [apply st_preserves_ret |].
  cbn [st_for_each]. apply st_preserves_bind.
  - apply Hbody. now left.
  - intros _. apply IH. intros; apply Hbody; now right.
Qed.

End StPreservation.

Lemma Forall_setitem_dict (Q : dict -> Prop) (l : list dict) (i : nat)
  (d : dict) :
  Forall Q l -> Q d -> Forall Q (setitem l i d).
Proof.
  intros Hl Hd. revert i.
  induction Hl as [| x l Hx Hl IH]; intros [| i]; cbn;
    try constructor; auto.
Qed.

Lemma well_formed_nlp_setitem (i : Z) (key : string) (v : pyval) :
  st_preserves well_formed (nlp_setitem i key v).
Proof.
  intros self [Hone Hwf]. unfold nlp_setitem.
  destruct (getitem (Raw.nlp self) i) as [d | e] eqn:E;
    [| split; assumption].
  split.
  - unfold one_dict_per_phase in *. cbn. now rewrite length_setitem.
  - cbn. apply Forall_setitem_dict; [exact Hwf |].
    apply wf_dict_setitem. rewrite Forall_forall in Hwf.
    eapply Hwf, getitem_In, E.
Qed.

Lemma well_formed_add_to_nlp (name : string) (param : pyval) (dup : bool)
  (_type : option string) :
  st_preserves well_formed (add_to_nlp name param dup _type).
Proof.
  intros self. unfold add_to_nlp. cbv zeta.
  generalize (Raw.nb_phases self). intros nb. revert self.
  change (st_preserves well_formed
    (st_bind
       match as_sequence param with
       | Some elems =>
           if negb (len elems =? Z.of_nat nb)%Z
           then st_raise (RuntimeError
                  (name ++ " size(" ++ str_of_nat (length elems)
                   ++ ") does not correspond to the number of phases("
                   ++ str_of_nat nb ++ ")."))
           else st_for_each (range (Z.of_nat nb)) (fun i =>
                  (v <- st_lift (getitem elems i) ;;
                   nlp_setitem i name v)%st)
       | None =>
           if (nb =? 1)%nat then nlp_setitem 0 name param
           else if dup
           then st_for_each (range (Z.of_nat nb)) (fun i =>
                  nlp_setitem i name param)
           else st_raise (RuntimeError
                  (name ++
                   " must be a list or tuple when number of phase is not equal to 1"))
       end
       (fun _ =>
          match _type with
          | Some cls =>
              fun self' =>
                st_for_each (Raw.nlp self') (fun nlp =>
                  (v <- st_lift (dict_getitem nlp name) ;;
                   if negb (is_None v) && negb (isinstance v cls)
                   then st_raise (RuntimeError
                          ("Parameter " ++ name ++ " must be a "
                           ++ str_of_class cls))
                   else st_ret tt)%st) self'
          | None => st_ret tt
          end))).
  apply st_preserves_bind.
  - destruct (as_sequence param) as [elems |].
    + destruct (negb _); [apply st_preserves_raise |].
      apply st_preserves_for_each. intros i _.
      apply st_preserves_bind; [apply st_preserves_lift |].
      intros v. apply well_formed_nlp_setitem.
    + destruct (nb =? 1)%nat; [apply well_formed_nlp_setitem |].
      destruct dup; [| apply st_preserves_raise].
      apply st_preserves_for_each. intros i _.
      apply well_formed_nlp_setitem.
  - intros _. destruct _type as [cls |]; [| apply st_preserves_ret].
    intros self Hs.
    apply (@st_preserves_for_each Raw.t well_formed dict (Raw.nlp self));
      [| exact Hs].
    intros nlp _. apply st_preserves_bind; [apply st_preserves_lift |].
    intros v. destruct (_ && _);
      [apply st_preserves_raise | apply st_preserves_ret].
Qed.

Lemma well_formed_init_penality (penalities : pyval)
  (penality_type : string) :
  st_preserves well_formed (init_penality penalities penality_type).
Proof.
  intros self. unfold init_penality.
  generalize (Raw.nb_phases self =? 1)%nat. intros one. revert self.
  match goal with
  | |- forall self, well_formed self -> well_formed (snd (?m self)) =>
      change (st_preserves well_formed m)
  end.
  apply st_preserves_bind; [apply st_preserves_lift | intros n].
  destruct (0 <? n)%Z; [| apply st_preserves_ret].
  apply st_preserves_bind; [| intros p; apply well_formed_add_to_nlp].
  destruct one.
  - apply st_preserves_bind; [apply st_preserves_lift | intros first].
    apply st_preserves_ret.
  - destruct (as_sequence penalities) as [elems |];
      [| apply st_preserves_ret].
    apply st_preserves_bind; [| intros _; apply st_preserves_ret].
    apply st_preserves_for_each. intros c _.
    destruct (is_dict c);
      [apply st_preserves_raise | apply st_preserves_ret].
Qed.

Lemma well_formed_fresh (n : nat) : well_formed (fresh n).
Proof.
  split.
  - unfold one_dict_per_phase, fresh. cbn. apply repeat_length.
  - unfold fresh. cbn. apply Forall_forall. intros d Hd.
    apply repeat_spec in Hd. subst d. constructor.
Qed.

(** X23. The object the constructor starts from ([nlp] holding one empty
    dict per phase) is well formed, and [__add_to_nlp],
    [__init_penality] and the three mapping calls keep it so whatever
    their arguments and whether they return or raise: the phase list
    never changes its length and [nb_phases] stays its length. *)
Theorem helpers_keep_one_dict_per_phase :
  (forall n, well_formed (fresh n)) /\
  (forall name param dup _type,
     st_preserves well_formed (add_to_nlp name param dup _type)) /\
  (forall penalities penality_type,
     st_preserves well_formed (init_penality penalities penality_type)) /\
  (forall a q qd tau, st_preserves well_formed (add_mappings a q qd tau)).
Proof.
  split; [exact well_formed_fresh |].
  split; [exact well_formed_add_to_nlp |].
  split; [exact well_formed_init_penality |].
  intros a q qd tau. unfold add_mappings.
  apply st_preserves_bind.
  - destruct (negb (is_None a)); [| apply st_preserves_ret].
    destruct (_ || _); [apply st_preserves_raise | apply st_preserves_ret].
  - intros [[q' qd'] tau'].
    apply st_preserves_bind; [apply well_formed_add_to_nlp | intros _].
    apply st_preserves_bind; [apply well_formed_add_to_nlp | intros _].
    apply well_formed_add_to_nlp.
Qed.

Lemma helpers_keep_one_dict_per_phase_sample :
  well_formed
    (snd (init_penality (PyTuple [PyTuple []; PyDict []]) "constraints"
            (snd (add_to_nlp "model" (PyList [PyNone; PyNone]) false None
                    (fresh 2))))).
Proof.
  destruct helpers_keep_one_dict_per_phase as (Hf & Ha & Hi & _).
  apply Hi, Ha, Hf.
Defined.

(* ===================================================================== *)
(** * The three mappings                                                  *)
(* ===================================================================== *)

(** [None] given for a mapping: stored in every phase, and accepted by
    the type check. *)
Lemma add_to_nlp_none_run (name cls : string) (self : Raw.t) :
  one_dict_per_phase self ->
  add_to_nlp name PyNone true (Some cls) self
  = (Ok tt,
     Raw.mk (Raw.nb_phases self)
            (map (fun d => dict_setitem d name PyNone) (Raw.nlp self))
            (Raw.attrs self)).
Proof.
  intros Hone. unfold add_to_nlp. cbv zeta. cbn [as_sequence].
  unfold st_bind at 1.
  assert (Hstore :
            (if (Raw.nb_phases self =? 1)%nat
             then nlp_setitem 0 name PyNone
             else st_for_each (range (Z.of_nat (Raw.nb_phases self)))
                    (fun i => nlp_setitem i name PyNone)) self
            = (Ok tt,
               Raw.mk (Raw.nb_phases self)
                      (map (fun d => dict_setitem d name PyNone)
                           (Raw.nlp self))
                      (Raw.attrs self))).
  { destruct (Nat.eqb_spec (Raw.nb_phases self) 1) as [E1 | _].
    - unfold one_dict_per_phase in Hone. rewrite E1 in Hone.
      destruct self as [nb [| d [| d' l]] attrs]; cbn in Hone;
        try discriminate.
      cbn in E1. subst nb. reflexivity.
    - rewrite (@store_same_run name PyNone self Hone).
      rewrite set_each_repeat by (unfold one_dict_per_phase in Hone; lia).
      reflexivity. }
  rewrite Hstore. cbn [Raw.nlp].
  rewrite type_check_run.
  - replace (forallb (well_typed name cls)
               (map (fun d => dict_setitem d name PyNone) (Raw.nlp self)))
      with true; [reflexivity |].
    symmetry. apply forallb_forall. intros d Hd.
    apply in_map_iff in Hd. destruct Hd as (d0 & <- & _).
    unfold well_typed. now rewrite dict_get_setitem_same.
  - apply Forall_forall. intros d Hd.
    apply in_map_iff in Hd. destruct Hd as (d0 & <- & _).
    unfold dict_contains. now rewrite dict_get_setitem_same.
Qed.

(** X24. The mappings of the constructor (lines 100 to 106), on an object
    with one dict per phase.  Left out, each of the three is stored as
    [None] in every phase, whatever the number of phases.
    [all_generalized_mapping] together with one of the three raises a
    RuntimeError before anything is stored.  And a single mapping object
    given as [all_generalized_mapping] to a problem that does not have
    exactly one phase is not duplicated: [__add_to_nlp] raises the
    RuntimeError asking for a list or tuple, nothing stored. *)
Theorem mappings_none_duplicated_object_refused (self : Raw.t) :
  one_dict_per_phase self ->
  add_mappings PyNone PyNone PyNone PyNone self
  = (Ok tt,
     Raw.mk (Raw.nb_phases self)
            (map (fun d =>
                    dict_setitem
                      (dict_setitem (dict_setitem d "q_mapping" PyNone)
                                    "q_dot_mapping" PyNone)
                      "tau_mapping" PyNone)
                 (Raw.nlp self))
            (Raw.attrs self)) /\
  (forall a q qd tau,
     is_None a = false ->
     is_None q && is_None qd && is_None tau = false ->
     add_mappings a q qd tau self
     = (Raise (RuntimeError
          "all_generalized_mapping and a specified mapping cannot be used alongside"),
        self)) /\
  (forall classes id,
     Raw.nb_phases self <> 1%nat ->
     add_mappings (PyObj classes id) PyNone PyNone PyNone self
     = (Raise (RuntimeError
          "q_mapping must be a list or tuple when number of phase is not equal to 1"),
        self)).
Proof.
  intros Hone. split; [| split].
  - unfold add_mappings. cbn [is_None negb orb].
    unfold st_bind at 1, st_ret at 1.
    unfold st_bind at 1. rewrite add_to_nlp_none_run by exact Hone.
    unfold st_bind at 1. rewrite add_to_nlp_none_run
      by (unfold one_dict_per_phase in *; cbn; now rewrite length_map).
    cbn [Raw.nlp Raw.nb_phases Raw.attrs].
    rewrite add_to_nlp_none_run
      by (unfold one_dict_per_phase in *; cbn; now rewrite !length_map).
    cbn [Raw.nlp Raw.nb_phases Raw.attrs]. now rewrite !map_map.
  - intros a q qd tau Ha Hspec. unfold add_mappings.
    rewrite Ha. cbn [negb].
    replace (negb (is_None q) || negb (is_None qd) || negb (is_None tau))
      with true
      by (destruct (is_None q), (is_None qd), (is_None tau);
          cbn in *; congruence).
    reflexivity.
  - intros classes id Hnb. unfold add_mappings. cbn [is_None negb orb].
    unfold st_bind at 1, st_ret at 1.
    apply st_bind_raises.
    unfold add_to_nlp. cbv zeta. cbn [as_sequence].
    apply st_bind_raises.
    apply Nat.eqb_neq in Hnb. now rewrite Hnb.
Qed.

Lemma mappings_sample :
  let mapping := PyObj [BidirectionalMapping] 0 in
  add_mappings PyNone PyNone PyNone PyNone (fresh 2)
  = (Ok tt,
     Raw.mk 2
       [[("q_mapping", PyNone); ("q_dot_mapping", PyNone);
         ("tau_mapping", PyNone)];
        [("q_mapping", PyNone); ("q_dot_mapping", PyNone);
         ("tau_mapping", PyNone)]]%string []) /\
  add_mappings mapping PyNone mapping PyNone (fresh 2)
  = (Raise (RuntimeError
       "all_generalized_mapping and a specified mapping cannot be used alongside"),
     fresh 2) /\
  add_mappings mapping PyNone PyNone PyNone (fresh 2)
  = (Raise (RuntimeError
       "q_mapping must be a list or tuple when number of phase is not equal to 1"),
     fresh 2).
Proof.
  cbv zeta.
  destruct (@mappings_none_duplicated_object_refused (fresh 2) eq_refl)
    as (Hnone & Hboth & Hsingle).
  split; [exact Hnone | split].
  - apply Hboth; reflexivity.
  - apply Hsingle. vm_compute. lia.
Defined.

(* ===================================================================== *)
(** * What a constructor call accepts, and the free times it declares     *)
(* ===================================================================== *)



Lemma continuity_constraint_keeps_times (P : list MX) :
  preserves (fun s => OCP.param_to_optimize_time s = P)
            continuity_constraint.
Proof.
  intros s. unfold continuity_constraint, append_zero_bounds.
  generalize (OCP.nlp s) (OCP.is_cyclic_constraint s). intros nlps cyclic.
  revert s. as_preserves (fun s : OCP.t => OCP.param_to_optimize_time s = P).
  preserve_frame.
Qed.

Lemma add_constraints_keeps_times (P : list MX) (nlp : NLP.t) :
  preserves (fun s => OCP.param_to_optimize_time s = P)
            (add_constraints nlp).
Proof.
  unfold add_constraints, add_constraints_elem, markers_to_pair,
    proportional_variable, proportional_row, contact_force_inequality,
    append_zero_bounds.
  preserve_frame.
Qed.

Lemma init_dynamics_and_constraints_keeps_times (P : list MX)
  (constraints : list (list ConstraintElem)) :
  preserves (fun s => OCP.param_to_optimize_time s = P)
            (init_dynamics_and_constraints constraints).
Proof.
  intros s. unfold init_dynamics_and_constraints. cbv zeta.
  generalize (len (OCP.nlp s)). intros nb_phases.
  revert s. as_preserves (fun s : OCP.t => OCP.param_to_optimize_time s = P).
  repeat (cbv beta zeta;
          first [ apply continuity_constraint_keeps_times
                | apply add_constraints_keeps_times
                | preserve_step | preserve_leaf ]).
Qed.

(** X26. Whatever the phases, the cyclic flag and the constraints, and
    whether the rest of the constructor returns or raises,
    [param_to_optimize["time"]] as [__define_variable_time] leaves it
    lists the symbolic durations in phase order, one per phase whose
    [tf] is a symbol, and these are the last entries of [self.V]. *)
Theorem free_times_are_the_tail_of_V (nlps : list NLP.t)
  (is_cyclic : bool) (constraints : list (list ConstraintElem)) :
  let s := snd (construct nlps is_cyclic constraints) in
  OCP.param_to_optimize_time s = free_times nlps /\
  length (OCP.param_to_optimize_time s) = nb_free_times nlps /\
  OCP.V s = decision_blocks 0 nlps ++ OCP.param_to_optimize_time s.
Proof.
  cbv zeta.
  assert (HP : OCP.param_to_optimize_time
                 (snd (construct nlps is_cyclic constraints))
               = free_times nlps).
  { unfold construct, bind. rewrite init_variables_run.
    now apply init_dynamics_and_constraints_keeps_times. }
  assert (HV : OCP.V (snd (construct nlps is_cyclic constraints))
               = decision_blocks 0 nlps ++ free_times nlps).
  { unfold construct, bind. rewrite init_variables_run.
    now apply init_dynamics_and_constraints_keeps_V. }
  rewrite HP, HV. split; [reflexivity | split; [| reflexivity]].
  apply length_free_times.
Qed.
